(** * Symphony of One: the coordination hub (server.js)

    A shallow embedding of the hub server: the mention parser, the
    in-memory maps (rooms, agents, messages), the SQLite tables the
    handlers write to, and the request handlers themselves, written as
    state-passing functions over one [Hub] record.

    Conventions.
    - JavaScript strings are [string].  The code modelled here tells
      characters apart only inside the ASCII range (the class [\w] of a
      regular expression without the [u] flag is [A-Za-z0-9_]); a
      character outside it is a run of units above 127 in UTF-16 as in
      UTF-8, and is read as such.
    - A JavaScript [Map] keeps insertion order and the code iterates over
      it ([findAgentByName], [GET /api/rooms]), so maps are association
      lists in insertion order ([JsMap]); a [Set] is a duplicate-free
      list.
    - [uuidv4()] and [new Date()] are the two sources of
      non-determinism.  They are oracles indexed by the number of calls
      made so far, which the state counts.
    - A table of the database is the list of its rows in rowid order. *)

From Stdlib Require Import List String Ascii ZArith Lia Bool Arith PeanoNat FunInd.
From Stdlib Require Sorting.Sorted Sorting.Permutation Structures.OrderedTypeEx.
Import ListNotations.

Local Open Scope string_scope.
Local Open Scope list_scope.

(** ** Characters and strings *)

Definition chars : Type := list ascii.

Definition is_digit (c : ascii) : bool :=
  let n := nat_of_ascii c in ((48 <=? n) && (n <=? 57))%nat.

Definition is_upper (c : ascii) : bool :=
  let n := nat_of_ascii c in ((65 <=? n) && (n <=? 90))%nat.

Definition is_lower (c : ascii) : bool :=
  let n := nat_of_ascii c in ((97 <=? n) && (n <=? 122))%nat.

(** The class [\w]: letters, digits and the underscore. *)
Definition is_word (c : ascii) : bool :=
  is_lower c || is_upper c || is_digit c || Ascii.eqb c "_".

Definition is_at (c : ascii) : bool := Ascii.eqb c "@".
Definition is_dash (c : ascii) : bool := Ascii.eqb c "-".

(** ** Mention parser

    The source declares the regular expression [/@(G)/g] inside the
    function, where the capture group [G] is [\w+] followed by any
    number of segments [(?:-\w+)].  A fresh expression per call means
    every call starts with [lastIndex = 0]; the function then calls
    [mentionRegex.exec(content)] until it answers [null] and pushes
    [match[1]] each time. *)

Module Mention.

(** What follows the first word character of the capture group: the rest
    of the greedy [\w+], then the greedy iterations of [(?:-\w+)]; an
    iteration is entered only when the dash is followed by a word
    character.  Nothing follows the group in the pattern, so the first
    path the backtracking matcher accepts is this longest one.  Returns
    the matched characters and the unread rest. *)
Fixpoint name_tail (s : chars) : chars * chars :=
  match s with
  | [] => ([], [])
  | c :: r =>
      if is_word c then
        let (t, rest) := name_tail r in (c :: t, rest)
      else if is_dash c then
        match r with
        | d :: r' =>
            if is_word d then
              let (t, rest) := name_tail r' in (c :: d :: t, rest)
            else ([], s)
        | [] => ([], s)
        end
      else ([], s)
  end.

(** One call of [mentionRegex.exec] on the text that starts at
    [lastIndex]: the leftmost position at which the pattern matches.
    The result is the capture [match[1]] and the text after the match
    (from the new [lastIndex] on); [None] is [null]. *)
Fixpoint exec (s : chars) : option (chars * chars) :=
  match s with
  | [] => None
  | c :: r =>
      if is_at c then
        match r with
        | d :: r' =>
            if is_word d then
              let (t, rest) := name_tail r' in Some (d :: t, rest)
            else exec r
        | [] => None
        end
      else exec r
  end.

(** The [while] loop.  [fuel] bounds the number of iterations; every
    match consumes at least two characters, so the length of the text is
    enough ([loop_fuel_enough]). *)
Fixpoint loop (fuel : nat) (s : chars) (mentions : list string) : list string :=
  match fuel with
  | O => mentions
  | S fuel' =>
      match exec s with
      | None => mentions
      | Some (name, rest) =>
          loop fuel' rest (mentions ++ [string_of_list_ascii name])
      end
  end.

Definition parseMentions (content : string) : list string :=
  loop (String.length content) (list_ascii_of_string content) [].

(** *** The recognition rule in the words of the specification *)

(** One or more word characters. *)
Definition word_run (w : chars) : Prop :=
  w <> [] /\ Forall (fun c => is_word c = true) w.

(** A name: one or more word characters, optionally extended by
    [-word] segments. *)
Definition mention_name (t : chars) : Prop :=
  exists w ws,
    t = w ++ flat_map (fun seg => "-"%char :: seg) ws
    /\ word_run w /\ Forall word_run ws.

(** No [@] immediately followed by a word character inside [s]. *)
Definition no_mention_start (s : chars) : Prop :=
  forall p c q, s = p ++ "@"%char :: c :: q -> is_word c = false.

(** [t] is the longest name the text [t ++ post] starts with. *)
Definition longest_name (t post : chars) : Prop :=
  mention_name t /\
  forall t' post', mention_name t' -> t' ++ post' = t ++ post ->
                   (List.length t' <= List.length t)%nat.

(** The occurrences of mentions in a text, left to right: each is an
    [@] followed by the longest name found there, and the text between
    two occurrences holds no further start of a mention. *)
Inductive occurrences : chars -> list chars -> Prop :=
| occ_done s :
    no_mention_start s -> occurrences s []
| occ_next pre t post l :
    no_mention_start (pre ++ ["@"%char]) ->
    longest_name t post ->
    occurrences post l ->
    occurrences (pre ++ "@"%char :: t ++ post) (t :: l).

(** The shape of what may follow the first word character of a name,
    as a test: word characters, and dashes that a word character
    follows. *)
Fixpoint tail_ok (u : chars) : bool :=
  match u with
  | [] => true
  | c :: r =>
      if is_word c then tail_ok r
      else if is_dash c then
        match r with
        | d :: r' => is_word d && tail_ok r'
        | [] => false
        end
      else false
  end.

(** The same rule on strings: [names] are the mentions of [content]. *)
Definition mentions_of (content : string) (names : list string) : Prop :=
  exists l, occurrences (list_ascii_of_string content) l
            /\ names = map string_of_list_ascii l.

(** Induction along the cases of the three recursive functions. *)
Functional Scheme name_tail_ind := Induction for name_tail Sort Prop.
Functional Scheme exec_ind := Induction for exec Sort Prop.
Functional Scheme tail_ok_ind := Induction for tail_ok Sort Prop.

End Mention.


(** ** JavaScript containers *)

(** [Map] with string keys: entries in insertion order.  [set] on a key
    already present keeps its position. *)
Module JsMap.
Section WithValue.
Context {V : Type}.

Definition t : Type := list (string * V).

Definition empty : t := [].

Fixpoint get (m : t) (k : string) : option V :=
  match m with
  | [] => None
  | (k', v) :: m' => if String.eqb k' k then Some v else get m' k
  end.

Definition has (m : t) (k : string) : bool :=
  match get m k with Some _ => true | None => false end.

Fixpoint set (m : t) (k : string) (v : V) : t :=
  match m with
  | [] => [(k, v)]
  | (k', v') :: m' =>
      if String.eqb k' k then (k', v) :: m' else (k', v') :: set m' k v
  end.

Fixpoint delete (m : t) (k : string) : t :=
  match m with
  | [] => []
  | (k', v') :: m' =>
      if String.eqb k' k then m' else (k', v') :: delete m' k
  end.

Definition keys (m : t) : list string := map fst m.
Definition values (m : t) : list V := map snd m.
Definition size (m : t) : nat := List.length m.
End WithValue.
Arguments t : clear implicits.
End JsMap.

(** [Set] of strings: members in insertion order, no repetition. *)
Module JsSet.
Definition t : Type := list string.

Definition empty : t := [].

Definition has (s : t) (x : string) : bool := existsb (String.eqb x) s.

Definition add (s : t) (x : string) : t := if has s x then s else s ++ [x].

Definition delete (s : t) (x : string) : t :=
  filter (fun y => negb (String.eqb x y)) s.

Definition size (s : t) : nat := List.length s.
End JsSet.

(** ** Instants and their two textual forms *)

Module Time.
Local Open Scope Z_scope.

Definition digit (n : Z) : ascii := ascii_of_nat (48 + Z.to_nat (n mod 10)).

(** [n] in decimal on [width] digits, zero padded. *)
Fixpoint pad (width : nat) (n : Z) : string :=
  match width with
  | O => ""
  | S w => pad w (n / 10) ++ String (digit n) ""
  end.

(** Year, month and day of a count of days since 1970-01-01 in the
    proleptic Gregorian calendar. *)
Definition civil_from_days (days : Z) : Z * Z * Z :=
  let z := days + 719468 in
  let era := z / 146097 in
  let doe := z - era * 146097 in
  let yoe := (doe - doe / 1460 + doe / 36524 - doe / 146096) / 365 in
  let doy := doe - (365 * yoe + yoe / 4 - yoe / 100) in
  let mp := (5 * doy + 2) / 153 in
  let d := doy - (153 * mp + 2) / 5 + 1 in
  let m := if Z.ltb mp 10 then mp + 3 else mp - 9 in
  let y := yoe + era * 400 in
  (if Z.leb m 2 then y + 1 else y, m, d).

Definition ms_per_day : Z := 86400000.

Definition date_text (ms : Z) : string :=
  let '(y, m, d) := civil_from_days (ms / ms_per_day) in
  let year :=
    if Z.leb 0 y && Z.leb y 9999 then pad 4 y
    else ((if Z.ltb y 0 then "-" else "+") ++ pad 6 (Z.abs y))%string in
  (year ++ "-" ++ pad 2 m ++ "-" ++ pad 2 d)%string.

Definition clock_text (ms : Z) : string :=
  let t := ms mod ms_per_day in
  (pad 2 (t / 3600000) ++ ":" ++ pad 2 (t / 60000 mod 60) ++ ":"
   ++ pad 2 (t / 1000 mod 60))%string.

(** [Date.prototype.toISOString] of the instant [ms] milliseconds after
    the epoch: [YYYY-MM-DDTHH:mm:ss.sssZ], always in UTC. *)
Definition toISOString (ms : Z) : string :=
  (date_text ms ++ "T" ++ clock_text ms ++ "." ++ pad 3 (ms mod 1000) ++ "Z")%string.

(** What SQLite's [datetime('now')] answers at the same instant:
    [YYYY-MM-DD HH:MM:SS], in UTC, seconds only. *)
Definition sqlite_datetime (ms : Z) : string :=
  (date_text ms ++ " " ++ clock_text ms)%string.

End Time.

(** ** Data model *)

(** Free-form JSON values ([capabilities], client [metadata], room
    [settings]) are carried as their serialized text; the hub never
    looks inside them. *)
Definition Json : Type := string.

(** [room.agents] holds agent ids; the agent objects live in [agents]. *)
Record Room := {
  room_name : string;
  room_agents : JsSet.t;
  room_createdAt : string;
  room_isActive : bool;
  room_settings : Json
}.

Record Agent := {
  agent_id : string;
  agent_name : string;
  agent_room : string;
  agent_capabilities : Json;
  agent_joinedAt : string;
  agent_lastActive : string;
  agent_socketId : option string;
  agent_status : string
}.

Inductive MessageType := TMessage | TSystem | TBroadcast | TFileChange.

Inductive FileAction := FileChange | FileAdd | FileDelete.

Inductive Metadata :=
| MetaClient (j : Json)                       (* what the sender supplied *)
| MetaJoin                                    (* { type: 'join' } *)
| MetaFile (filePath : string) (action : FileAction).

(** The message objects the handlers build.  A field the handler leaves
    out, or sets to [null], is [None]. *)
Record Message := {
  msg_id : string;
  msg_type : MessageType;
  msg_agentId : option string;
  msg_agentName : option string;
  msg_content : string;
  msg_mentions : option (list string);
  msg_metadata : option Metadata;
  msg_timestamp : string;
  msg_room : string;
  msg_from : option string
}.

(** The object [createNotifications] builds for one mention. *)
Record Notification := {
  ntf_id : string;
  ntf_agent_id : string;
  ntf_room : string;
  ntf_message : string;
  ntf_type : string;
  ntf_created_at : string
}.

(** ** The database

    One record per table the modelled handlers touch; a table is the
    list of its rows, oldest first.  Identifiers drawn from [uuidv4]
    are taken to be unique, so a plain [INSERT] appends. *)

Record RoomRow := {
  rr_id : string;
  rr_name : string;
  rr_created_at : string;
  rr_is_active : Z;
  rr_settings : Json
}.

Record AgentRow := {
  ar_id : string;
  ar_name : string;
  ar_room : string;
  ar_capabilities : Json;
  ar_joined_at : string;
  ar_last_active : string;
  ar_status : string
}.

Record MessageRow := {
  mr_id : string;
  mr_room : string;
  mr_agent_id : option string;
  mr_agent_name : string;
  mr_content : string;
  mr_type : MessageType;
  mr_mentions : list string;
  mr_metadata : Metadata;
  mr_timestamp : string
}.

Record MemoryRow := {
  mem_id : string;
  mem_agent_id : string;
  mem_room : string;
  mem_key : string;
  mem_value : string;
  mem_type : string;
  mem_created_at : string;
  mem_expires_at : option string
}.

Record NotificationRow := {
  nr_id : string;
  nr_agent_id : string;
  nr_room : string;
  nr_message : string;
  nr_type : string;
  nr_is_read : bool;
  nr_created_at : string
}.

Record Db := {
  tbl_rooms : list RoomRow;
  tbl_agents : list AgentRow;
  tbl_messages : list MessageRow;
  tbl_agent_memory : list MemoryRow;
  tbl_notifications : list NotificationRow
}.

Definition empty_db : Db :=
  {| tbl_rooms := []; tbl_agents := []; tbl_messages := [];
     tbl_agent_memory := []; tbl_notifications := [] |}.

(** What the hub emits on its sockets, in order. *)
Inductive Emit :=
| EmitMessage (to_room : string) (m : Message)
| EmitNotification (to_socket : string) (n : Notification).

(** ** The hub process *)

(** The in-memory maps of the server, the database behind it, what it
    has emitted, and how often it has asked for an identifier and for
    the time. *)
Record Hub := {
  rooms : JsMap.t Room;
  agents : JsMap.t Agent;
  messages : JsMap.t (list Message);
  fileWatcher : list string;
  db : Db;
  emitted : list Emit;
  uuid_draws : nat;
  clock_reads : nat
}.

(** What the process takes from its surroundings: the [n]-th identifier
    [uuidv4] hands out, the instant (in milliseconds since the epoch)
    of the [n]-th look at the clock, and the built-in parser
    [new Date(text).getTime()], whose [NaN] is [None]. *)
Record Runtime := {
  uuid_of : nat -> string;
  clock_ms : nat -> Z;
  Date_getTime : string -> option Z
}.

Definition set_rooms (v : JsMap.t Room) (st : Hub) : Hub :=
  {| rooms := v; agents := agents st; messages := messages st;
     fileWatcher := fileWatcher st; db := db st; emitted := emitted st;
     uuid_draws := uuid_draws st; clock_reads := clock_reads st |}.

Definition set_agents (v : JsMap.t Agent) (st : Hub) : Hub :=
  {| rooms := rooms st; agents := v; messages := messages st;
     fileWatcher := fileWatcher st; db := db st; emitted := emitted st;
     uuid_draws := uuid_draws st; clock_reads := clock_reads st |}.

Definition set_messages (v : JsMap.t (list Message)) (st : Hub) : Hub :=
  {| rooms := rooms st; agents := agents st; messages := v;
     fileWatcher := fileWatcher st; db := db st; emitted := emitted st;
     uuid_draws := uuid_draws st; clock_reads := clock_reads st |}.

Definition set_fileWatcher (v : list string) (st : Hub) : Hub :=
  {| rooms := rooms st; agents := agents st; messages := messages st;
     fileWatcher := v; db := db st; emitted := emitted st;
     uuid_draws := uuid_draws st; clock_reads := clock_reads st |}.

Definition set_db (v : Db) (st : Hub) : Hub :=
  {| rooms := rooms st; agents := agents st; messages := messages st;
     fileWatcher := fileWatcher st; db := v; emitted := emitted st;
     uuid_draws := uuid_draws st; clock_reads := clock_reads st |}.

Definition set_emitted (v : list Emit) (st : Hub) : Hub :=
  {| rooms := rooms st; agents := agents st; messages := messages st;
     fileWatcher := fileWatcher st; db := db st; emitted := v;
     uuid_draws := uuid_draws st; clock_reads := clock_reads st |}.

Definition set_uuid_draws (v : nat) (st : Hub) : Hub :=
  {| rooms := rooms st; agents := agents st; messages := messages st;
     fileWatcher := fileWatcher st; db := db st; emitted := emitted st;
     uuid_draws := v; clock_reads := clock_reads st |}.

Definition set_clock_reads (v : nat) (st : Hub) : Hub :=
  {| rooms := rooms st; agents := agents st; messages := messages st;
     fileWatcher := fileWatcher st; db := db st; emitted := emitted st;
     uuid_draws := uuid_draws st; clock_reads := v |}.

(** *** A state monad for the handlers *)

Definition M (A : Type) : Type := Hub -> A * Hub.

Definition ret {A} (a : A) : M A := fun st => (a, st).

Definition bind {A B} (m : M A) (k : A -> M B) : M B :=
  fun st => let (a, st') := m st in k a st'.

Declare Scope hub_scope.
Delimit Scope hub_scope with hub.
Notation "x <- c1 ;; c2" := (bind c1 (fun x => c2))
  (at level 61, c1 at next level, right associativity) : hub_scope.
Notation "c1 ;; c2" := (bind c1 (fun _ => c2))
  (at level 61, right associativity) : hub_scope.
Local Open Scope hub_scope.

Definition gets {A} (f : Hub -> A) : M A := fun st => (f st, st).
Definition modify (f : Hub -> Hub) : M unit := fun st => (tt, f st).

Fixpoint mapM {A B} (f : A -> M B) (l : list A) : M (list B) :=
  match l with
  | [] => ret []
  | a :: l' => b <- f a ;; bs <- mapM f l' ;; ret (b :: bs)
  end.

Fixpoint forEach {A} (f : A -> M unit) (l : list A) : M unit :=
  match l with
  | [] => ret tt
  | a :: l' => f a ;; forEach f l'
  end.

(** [uuidv4()] *)
Definition uuidv4 (rt : Runtime) : M string :=
  fun st => (uuid_of rt (uuid_draws st), set_uuid_draws (S (uuid_draws st)) st).

(** [Date.now()] *)
Definition Date_now (rt : Runtime) : M Z :=
  fun st => (clock_ms rt (clock_reads st), set_clock_reads (S (clock_reads st)) st).

(** [new Date().toISOString()] *)
Definition new_Date_iso (rt : Runtime) : M string :=
  t <- Date_now rt ;; ret (Time.toISOString t).

(** [db.run(...)]: the statement is applied to the tables; statements
    take effect in the order they are issued. *)
Definition db_run (f : Db -> Db) : M unit :=
  modify (fun st => set_db (f (db st)) st).

(** [io.to(...).emit(...)] *)
Definition emit (e : Emit) : M unit :=
  modify (fun st => set_emitted (emitted st ++ [e]) st).

(** A string in a condition: the empty string is false. *)
Definition truthy (s : string) : bool := negb (String.eqb s "").

(** What a handler answers. *)
Inductive Reply (A : Type) :=
| Ok (body : A)                        (* res.json(body) *)
| Err (status : nat) (error : string)  (* res.status(status).json({ success: false, error }) *)
| Thrown.                              (* an exception left the handler: Express answers 500 *)
Arguments Ok {A} body.
Arguments Err {A} status error.
Arguments Thrown {A}.

(** *** SQL statements *)

Module Sql.

Definition set_tbl_rooms (v : list RoomRow) (d : Db) : Db :=
  {| tbl_rooms := v; tbl_agents := tbl_agents d; tbl_messages := tbl_messages d;
     tbl_agent_memory := tbl_agent_memory d;
     tbl_notifications := tbl_notifications d |}.

Definition set_tbl_agents (v : list AgentRow) (d : Db) : Db :=
  {| tbl_rooms := tbl_rooms d; tbl_agents := v; tbl_messages := tbl_messages d;
     tbl_agent_memory := tbl_agent_memory d;
     tbl_notifications := tbl_notifications d |}.

Definition set_tbl_messages (v : list MessageRow) (d : Db) : Db :=
  {| tbl_rooms := tbl_rooms d; tbl_agents := tbl_agents d; tbl_messages := v;
     tbl_agent_memory := tbl_agent_memory d;
     tbl_notifications := tbl_notifications d |}.

Definition set_tbl_agent_memory (v : list MemoryRow) (d : Db) : Db :=
  {| tbl_rooms := tbl_rooms d; tbl_agents := tbl_agents d;
     tbl_messages := tbl_messages d; tbl_agent_memory := v;
     tbl_notifications := tbl_notifications d |}.

Definition set_tbl_notifications (v : list NotificationRow) (d : Db) : Db :=
  {| tbl_rooms := tbl_rooms d; tbl_agents := tbl_agents d;
     tbl_messages := tbl_messages d; tbl_agent_memory := tbl_agent_memory d;
     tbl_notifications := v |}.

(** [INSERT OR REPLACE INTO rooms]: [id] is the primary key and [name]
    is unique; a row in conflict on either is deleted first. *)
Definition insert_or_replace_room (r : RoomRow) (d : Db) : Db :=
  set_tbl_rooms
    (filter (fun x => negb (String.eqb (rr_id x) (rr_id r)
                            || String.eqb (rr_name x) (rr_name r)))
            (tbl_rooms d) ++ [r]) d.

(** [INSERT OR REPLACE INTO agents]: [id] is the primary key. *)
Definition insert_or_replace_agent (a : AgentRow) (d : Db) : Db :=
  set_tbl_agents
    (filter (fun x => negb (String.eqb (ar_id x) (ar_id a))) (tbl_agents d)
     ++ [a]) d.

(** [INSERT INTO messages] *)
Definition insert_message (m : MessageRow) (d : Db) : Db :=
  set_tbl_messages (tbl_messages d ++ [m]) d.

(** [UPDATE agents SET last_active = ? WHERE id = ?] *)
Definition update_agent_last_active (ts id : string) (d : Db) : Db :=
  set_tbl_agents
    (map (fun x =>
            if String.eqb (ar_id x) id then
              {| ar_id := ar_id x; ar_name := ar_name x; ar_room := ar_room x;
                 ar_capabilities := ar_capabilities x;
                 ar_joined_at := ar_joined_at x; ar_last_active := ts;
                 ar_status := ar_status x |}
            else x)
         (tbl_agents d)) d.

(** [INSERT INTO notifications (id, agent_id, room, message, type,
    created_at)]: [is_read] takes its default, 0. *)
Definition insert_notification (n : NotificationRow) (d : Db) : Db :=
  set_tbl_notifications (tbl_notifications d ++ [n]) d.

(** [INSERT INTO agent_memory] *)
Definition insert_memory (m : MemoryRow) (d : Db) : Db :=
  set_tbl_agent_memory (tbl_agent_memory d ++ [m]) d.

Definition mark_read (n : NotificationRow) : NotificationRow :=
  {| nr_id := nr_id n; nr_agent_id := nr_agent_id n; nr_room := nr_room n;
     nr_message := nr_message n; nr_type := nr_type n; nr_is_read := true;
     nr_created_at := nr_created_at n |}.

(** [UPDATE notifications SET is_read = 1 WHERE id = ?].  The second
    component is [this.changes]: SQLite counts every row the [WHERE]
    clause selects, whether or not the value written differs from the
    one stored. *)
Definition update_notification_read (id : string) (d : Db) : Db * nat :=
  (set_tbl_notifications
     (map (fun n => if String.eqb (nr_id n) id then mark_read n else n)
          (tbl_notifications d)) d,
   List.length (filter (fun n => String.eqb (nr_id n) id) (tbl_notifications d))).

(** [SELECT * FROM rooms WHERE is_active = 1] *)
Definition select_active_rooms (d : Db) : list RoomRow :=
  filter (fun r => Z.eqb (rr_is_active r) 1) (tbl_rooms d).

(** Comparison of two TEXT values: byte by byte, as [memcmp] does. *)
Definition text_gt (a b : string) : bool := String.ltb b a.

(** [ORDER BY created_at DESC], as an insertion sort that keeps rows
    with equal keys in table order. *)
Fixpoint insert_desc {A} (key : A -> string) (x : A) (l : list A) : list A :=
  match l with
  | [] => [x]
  | y :: l' =>
      if text_gt (key y) (key x) || String.eqb (key y) (key x)
      then y :: insert_desc key x l'
      else x :: l
  end.

Definition order_desc {A} (key : A -> string) (l : list A) : list A :=
  fold_left (fun acc x => insert_desc key x acc) l [].

(** The query of [GET /api/memory/:agentId]:
    [SELECT * FROM agent_memory WHERE agent_id = ? AND (expires_at IS
    NULL OR expires_at > datetime('now'))], with [AND key = ?] and
    [AND type = ?] when the handler appends them, then [ORDER BY
    created_at DESC].  [now] is the instant of the query.  [expires_at]
    holds the text the handler stored, and [datetime('now')] is text
    too, so [>] compares texts. *)
Definition select_memory (agentId : string) (key type : option string)
    (now : Z) (d : Db) : list MemoryRow :=
  order_desc mem_created_at
    (filter
       (fun m =>
          String.eqb (mem_agent_id m) agentId
          && match mem_expires_at m with
             | None => true
             | Some e => text_gt e (Time.sqlite_datetime now)
             end
          && match key with
             | Some k => String.eqb (mem_key m) k
             | None => true
             end
          && match type with
             | Some t => String.eqb (mem_type m) t
             | None => true
             end)
       (tbl_agent_memory d)).

End Sql.

(** ** Numbers out of query strings *)

Module Js.
Local Open Scope Z_scope.

(** White space [parseInt] skips, in the ASCII range: TAB, LF, VT, FF,
    CR and the space. *)
Definition is_space (c : ascii) : bool :=
  let n := nat_of_ascii c in ((9 <=? n) && (n <=? 13) || (n =? 32))%nat.

Fixpoint skip_space (s : chars) : chars :=
  match s with
  | c :: r => if is_space c then skip_space r else s
  | [] => []
  end.

Definition digit_value (radix : Z) (c : ascii) : option Z :=
  let n := Z.of_nat (nat_of_ascii c) in
  let v := if is_digit c then Some (n - 48)
           else if is_lower c then Some (n - 87)
           else if is_upper c then Some (n - 55)
           else None in
  match v with
  | Some d => if d <? radix then Some d else None
  | None => None
  end.

(** The value of the longest prefix of digits; [acc] is [None] until a
    digit has been read. *)
Fixpoint read_digits (radix : Z) (s : chars) (acc : option Z) : option Z :=
  match s with
  | [] => acc
  | c :: r =>
      match digit_value radix c with
      | Some d =>
          read_digits radix r
            (Some (radix * match acc with Some a => a | None => 0 end + d))
      | None => acc
      end
  end.

(** [parseInt(text)] without a radix: white space, a sign, [0x] or [0X]
    for base sixteen, then digits; [None] is [NaN].  The result is the
    exact integer (a double holds it exactly below 2^53, and beyond
    that [slice] clamps it anyway). *)
Definition parseInt (text : string) : option Z :=
  let s := skip_space (list_ascii_of_string text) in
  let '(sign, s) :=
    match s with
    | "-"%char :: r => (-1, r)
    | "+"%char :: r => (1, r)
    | _ => (1, s)
    end in
  let '(radix, s) :=
    match s with
    | "0"%char :: "x"%char :: r => (16, r)
    | "0"%char :: "X"%char :: r => (16, r)
    | _ => (10, s)
    end in
  option_map (Z.mul sign) (read_digits radix s None).

(** [array.slice(start)]: [NaN] counts as 0, a negative [start] counts
    from the end, and the index is clamped to the array. *)
Definition slice_from {A} (start : option Z) (l : list A) : list A :=
  let len := Z.of_nat (List.length l) in
  let rel := match start with Some k => k | None => 0 end in
  let k := if rel <? 0 then Z.max (len + rel) 0 else Z.min rel len in
  skipn (Z.to_nat k) l.

(** [text.substring(0, n)], counted in characters of the model. *)
Definition substring0 (n : nat) (text : string) : string := substring 0 n text.

End Js.

(** ** Start-up *)

(** A process that has just started: empty maps, the database as it was
    left on disk. *)
Definition fresh_process (d : Db) (sent : list Emit) (draws reads : nat) : Hub :=
  {| rooms := JsMap.empty; agents := JsMap.empty; messages := JsMap.empty;
     fileWatcher := []; db := d; emitted := sent;
     uuid_draws := draws; clock_reads := reads |}.

(** [loadDataFromDatabase]: every active room of the table gets an
    entry in [rooms], with no agents, and an empty list in [messages]. *)
Definition loadDataFromDatabase : M unit :=
  rows <- gets (fun st => Sql.select_active_rooms (db st)) ;;
  forEach
    (fun row =>
       modify (fun st =>
         set_rooms
           (JsMap.set (rooms st) (rr_name row)
              {| room_name := rr_name row;
                 room_agents := JsSet.empty;
                 room_createdAt := rr_created_at row;
                 room_isActive := Z.eqb (rr_is_active row) 1;
                 room_settings :=
                   if truthy (rr_settings row) then rr_settings row else "{}" |})
           st) ;;
       modify (fun st => set_messages (JsMap.set (messages st) (rr_name row) []) st))
    rows.

(** The hub on its first start, over an empty database. *)
Definition boot : Hub := snd (loadDataFromDatabase (fresh_process empty_db [] 0 0)).

(** The hub stopped and started again: the maps are rebuilt from the
    database; the database, and the world around the process, stay. *)
Definition restart (st : Hub) : Hub :=
  snd (loadDataFromDatabase
         (fresh_process (db st) (emitted st) (uuid_draws st) (clock_reads st))).

(** ** Helpers of the handlers *)

(** [findAgentByName]: the first agent, in the order of [agents], that
    bears the name. *)
Definition findAgentByName (agentName : string) : M (option Agent) :=
  gets (fun st =>
          find (fun a => String.eqb (agent_name a) agentName)
               (JsMap.values (agents st))).

(** [messages.get(room).push(m)]; [false] when the room has no list,
    where the source throws a TypeError. *)
Definition push_message (room : string) (m : Message) : M bool :=
  log <- gets (fun st => JsMap.get (messages st) room) ;;
  match log with
  | Some l =>
      modify (fun st => set_messages (JsMap.set (messages st) room (l ++ [m])) st) ;;
      ret true
  | None => ret false
  end.

(** [messages.get(room)?.push(m)] *)
Definition push_message_if_any (room : string) (m : Message) : M unit :=
  push_message room m ;; ret tt.

(** [setupFileWatcher]: one watcher per room name, the first time. *)
Definition setupFileWatcher (roomName : string) : M unit :=
  modify (fun st =>
    if existsb (String.eqb roomName) (fileWatcher st) then st
    else set_fileWatcher (fileWatcher st ++ [roomName]) st).

(** [getRoom]: the room of that name, created (with an empty message
    list, a watcher and a row in the database) when there is none. *)
Definition getRoom (rt : Runtime) (roomName : string) : M (option Room) :=
  known <- gets (fun st => JsMap.has (rooms st) roomName) ;;
  (if known then ret tt
   else
     createdAt <- new_Date_iso rt ;;
     modify (fun st =>
       set_rooms
         (JsMap.set (rooms st) roomName
            {| room_name := roomName; room_agents := JsSet.empty;
               room_createdAt := createdAt; room_isActive := true;
               room_settings := "{}" |}) st) ;;
     modify (fun st => set_messages (JsMap.set (messages st) roomName []) st) ;;
     setupFileWatcher roomName ;;
     id <- uuidv4 rt ;;
     db_run (Sql.insert_or_replace_room
               {| rr_id := id; rr_name := roomName; rr_created_at := createdAt;
                  rr_is_active := 1; rr_settings := "{}" |})) ;;
  gets (fun st => JsMap.get (rooms st) roomName).

Definition message_row (m : Message) (agentName : string) (mentions : list string)
    (metadata : Metadata) : MessageRow :=
  {| mr_id := msg_id m; mr_room := msg_room m; mr_agent_id := msg_agentId m;
     mr_agent_name := agentName; mr_content := msg_content m;
     mr_type := msg_type m; mr_mentions := mentions; mr_metadata := metadata;
     mr_timestamp := msg_timestamp m |}.

(** The callback of [mentions.map] in [createNotifications]: one
    object per mention, with its own [uuidv4()] and [new Date()].
    [None] stands for an object whose [agent_id] is undefined or empty,
    which the [filter] that follows drops. *)
Definition build_notification (rt : Runtime) (message : Message)
    (agentName : string) : M (option Notification) :=
  id <- uuidv4 rt ;;
  agent <- findAgentByName agentName ;;
  created_at <- new_Date_iso rt ;;
  ret match agent with
      | Some a =>
          if truthy (agent_id a) then
            Some {| ntf_id := id;
                    ntf_agent_id := agent_id a;
                    ntf_room := msg_room message;
                    ntf_message :=
                      match msg_agentName message with
                      | Some n => n
                      | None => "undefined"
                      end ++ " mentioned you: "
                      ++ Js.substring0 100 (msg_content message) ++ "...";
                    ntf_type := "mention";
                    ntf_created_at := created_at |}
          else None
      | None => None
      end.

Definition notification_row (n : Notification) : NotificationRow :=
  {| nr_id := ntf_id n; nr_agent_id := ntf_agent_id n; nr_room := ntf_room n;
     nr_message := ntf_message n; nr_type := ntf_type n; nr_is_read := false;
     nr_created_at := ntf_created_at n |}.

(** The callback of [notifications.forEach]: insert the row, then emit
    to the recipient's socket if the agent has one. *)
Definition deliver_notification (n : Notification) : M unit :=
  db_run (Sql.insert_notification (notification_row n)) ;;
  agent <- gets (fun st => JsMap.get (agents st) (ntf_agent_id n)) ;;
  match agent with
  | Some a =>
      match agent_socketId a with
      | Some sock => if truthy sock then emit (EmitNotification sock n) else ret tt
      | None => ret tt
      end
  | None => ret tt
  end.

Definition kept {A} (built : list (option A)) : list A :=
  flat_map (fun o => match o with Some n => [n] | None => [] end) built.

(** [createNotifications] *)
Definition createNotifications (rt : Runtime) (message : Message)
    (mentions : list string) : M (list Notification) :=
  built <- mapM (build_notification rt message) mentions ;;
  let notifications := kept built in
  forEach deliver_notification notifications ;;
  ret notifications.

(** The statement of [POST /api/send] that calls it:
    [if (mentions.length > 0) createNotifications(message, mentions)]. *)
Definition notify_mentions (rt : Runtime) (message : Message)
    (mentions : list string) : M unit :=
  if (0 <? List.length mentions)%nat
  then createNotifications rt message mentions ;; ret tt
  else ret tt.

(** ** Request handlers *)

Record JoinBody := {
  jb_roomName : string;
  jb_agentId : string;
  jb_currentAgents : list (option Agent)
}.

(** [POST /api/join/:room] *)
Definition join (rt : Runtime) (roomName agentId agentName : string)
    (capabilities : Json) : M (Reply JoinBody) :=
  got <- getRoom rt roomName ;;
  match got with
  | None => ret Thrown
  | Some room =>
      (* room.agents.add(agentId), on the object the map holds *)
      let room' := {| room_name := room_name room;
                      room_agents := JsSet.add (room_agents room) agentId;
                      room_createdAt := room_createdAt room;
                      room_isActive := room_isActive room;
                      room_settings := room_settings room |} in
      modify (fun st => set_rooms (JsMap.set (rooms st) roomName room') st) ;;
      joinedAt <- new_Date_iso rt ;;
      lastActive <- new_Date_iso rt ;;
      let agent := {| agent_id := agentId; agent_name := agentName;
                      agent_room := roomName; agent_capabilities := capabilities;
                      agent_joinedAt := joinedAt; agent_lastActive := lastActive;
                      agent_socketId := None; agent_status := "active" |} in
      modify (fun st => set_agents (JsMap.set (agents st) agentId agent) st) ;;
      db_run (Sql.insert_or_replace_agent
                {| ar_id := agentId; ar_name := agentName; ar_room := roomName;
                   ar_capabilities := capabilities; ar_joined_at := joinedAt;
                   ar_last_active := lastActive; ar_status := "active" |}) ;;
      id <- uuidv4 rt ;;
      timestamp <- new_Date_iso rt ;;
      let joinMessage :=
        {| msg_id := id; msg_type := TSystem; msg_agentId := None;
           msg_agentName := Some "System";
           msg_content := agentName ++ " has joined the room";
           msg_mentions := Some []; msg_metadata := Some MetaJoin;
           msg_timestamp := timestamp; msg_room := roomName; msg_from := None |} in
      pushed <- push_message roomName joinMessage ;;
      if pushed then
        db_run (Sql.insert_message (message_row joinMessage "System" [] MetaJoin)) ;;
        emit (EmitMessage roomName joinMessage) ;;
        currentAgents <- gets (fun st =>
          map (JsMap.get (agents st)) (room_agents room')) ;;
        ret (Ok {| jb_roomName := roomName; jb_agentId := agentId;
                   jb_currentAgents := currentAgents |})
      else ret Thrown
  end.

(** [POST /api/leave/:agentId] *)
Definition leave (rt : Runtime) (agentId : string) : M (Reply unit) :=
  found <- gets (fun st => JsMap.get (agents st) agentId) ;;
  match found with
  | None => ret (Err 404 "Agent not found")
  | Some agent =>
      got <- gets (fun st => JsMap.get (rooms st) (agent_room agent)) ;;
      pushed <-
        match got with
        | Some room =>
            modify (fun st =>
              set_rooms
                (JsMap.set (rooms st) (agent_room agent)
                   {| room_name := room_name room;
                      room_agents := JsSet.delete (room_agents room) agentId;
                      room_createdAt := room_createdAt room;
                      room_isActive := room_isActive room;
                      room_settings := room_settings room |}) st) ;;
            id <- uuidv4 rt ;;
            timestamp <- new_Date_iso rt ;;
            let leaveMessage :=
              {| msg_id := id; msg_type := TSystem; msg_agentId := None;
                 msg_agentName := None;
                 msg_content := agent_name agent ++ " has left the room";
                 msg_mentions := None; msg_metadata := None;
                 msg_timestamp := timestamp; msg_room := agent_room agent;
                 msg_from := None |} in
            pushed <- push_message (agent_room agent) leaveMessage ;;
            (if pushed then emit (EmitMessage (agent_room agent) leaveMessage)
             else ret tt) ;;
            ret pushed
        | None => ret true
        end ;;
      if pushed then
        modify (fun st => set_agents (JsMap.delete (agents st) agentId) st) ;;
        ret (Ok tt)
      else ret Thrown
  end.

Record SendBody := {
  sb_messageId : string;
  sb_mentions : list string
}.

(** [POST /api/send] *)
Definition send (rt : Runtime) (agentId content : string) (metadata : Json)
    : M (Reply SendBody) :=
  found <- gets (fun st => JsMap.get (agents st) agentId) ;;
  match found with
  | None => ret (Err 404 "Agent not found")
  | Some agent =>
      let mentions := Mention.parseMentions content in
      id <- uuidv4 rt ;;
      timestamp <- new_Date_iso rt ;;
      let message :=
        {| msg_id := id; msg_type := TMessage; msg_agentId := Some agentId;
           msg_agentName := Some (agent_name agent); msg_content := content;
           msg_mentions := Some mentions;
           msg_metadata := Some (MetaClient metadata);
           msg_timestamp := timestamp; msg_room := agent_room agent;
           msg_from := None |} in
      pushed <- push_message (agent_room agent) message ;;
      if pushed then
        db_run (Sql.insert_message
                  (message_row message (agent_name agent) mentions
                     (MetaClient metadata))) ;;
        lastActive <- new_Date_iso rt ;;
        (* agent.lastActive = ..., on the object the map holds *)
        modify (fun st =>
          set_agents
            (JsMap.set (agents st) agentId
               {| agent_id := agent_id agent; agent_name := agent_name agent;
                  agent_room := agent_room agent;
                  agent_capabilities := agent_capabilities agent;
                  agent_joinedAt := agent_joinedAt agent;
                  agent_lastActive := lastActive;
                  agent_socketId := agent_socketId agent;
                  agent_status := agent_status agent |}) st) ;;
        db_run (Sql.update_agent_last_active lastActive agentId) ;;
        notify_mentions rt message mentions ;;
        emit (EmitMessage (agent_room agent) message) ;;
        ret (Ok {| sb_messageId := id; sb_mentions := mentions |})
      else ret Thrown
  end.

(** The first half of [GET /api/messages/:room]: the list of the room,
    or the empty list when there is none, cut down to the messages
    after [since] when that parameter is given and not empty.  A
    comparison with [NaN] is false. *)
Definition messages_since (rt : Runtime) (room : string) (since : option string)
    (st : Hub) : list Message :=
  let roomMessages :=
    match JsMap.get (messages st) room with Some l => l | None => [] end in
  match since with
  | Some text =>
      if truthy text then
        filter (fun m =>
                  match Date_getTime rt (msg_timestamp m), Date_getTime rt text with
                  | Some t, Some sinceTime => Z.ltb sinceTime t
                  | _, _ => false
                  end)
               roomMessages
      else roomMessages
  | None => roomMessages
  end.

(** [GET /api/messages/:room].  [since] and [limit] are the query
    parameters, [None] when absent; an absent [limit] is the number
    100, which [parseInt] reads back from its text.  The answer is
    [roomMessages.slice(-parseInt(limit))]. *)
Definition history (rt : Runtime) (room : string) (since limit : option string)
    : M (list Message) :=
  roomMessages <- gets (messages_since rt room since) ;;
  let limit := match limit with Some text => text | None => "100" end in
  ret (Js.slice_from (option_map Z.opp (Js.parseInt limit)) roomMessages).

Record RoomInfo := {
  ri_name : string;
  ri_agentCount : nat;
  ri_agents : list Agent;
  ri_createdAt : string
}.

(** [GET /api/rooms] *)
Definition listRooms : M (list RoomInfo) :=
  gets (fun st =>
    map (fun entry : string * Room =>
           let (name, room) := entry in
           {| ri_name := name;
              ri_agentCount := JsSet.size (room_agents room);
              ri_agents :=
                flat_map (fun id => match JsMap.get (agents st) id with
                                    | Some a => [a]
                                    | None => []
                                    end)
                         (room_agents room);
              ri_createdAt := room_createdAt room |})
        (rooms st)).

(** [POST /api/broadcast/:room]; [from] is ['Orchestrator'] when the
    body has none. *)
Definition broadcast (rt : Runtime) (roomName content : string)
    (from : option string) : M (Reply string) :=
  let from := match from with Some f => f | None => "Orchestrator" end in
  id <- uuidv4 rt ;;
  timestamp <- new_Date_iso rt ;;
  let message :=
    {| msg_id := id; msg_type := TBroadcast; msg_agentId := None;
       msg_agentName := None;
       msg_content := "[" ++ from ++ "] " ++ content;
       msg_mentions := None; msg_metadata := None;
       msg_timestamp := timestamp; msg_room := roomName;
       msg_from := Some from |} in
  push_message_if_any roomName message ;;
  emit (EmitMessage roomName message) ;;
  ret (Ok id).

(** [POST /api/memory/:agentId]; [expiresIn] is a number of seconds,
    [None] when the body has none; 0 counts as none. *)
Definition storeMemory (rt : Runtime) (agentId key value : string)
    (type : option string) (expiresIn : option Z) : M (Reply MemoryRow) :=
  let type := match type with Some t => t | None => "note" end in
  found <- gets (fun st => JsMap.get (agents st) agentId) ;;
  match found with
  | None => ret (Err 404 "Agent not found")
  | Some agent =>
      memoryId <- uuidv4 rt ;;
      expiresAt <-
        match expiresIn with
        | Some secs =>
            if Z.eqb secs 0 then ret None
            else now <- Date_now rt ;;
                 ret (Some (Time.toISOString (now + secs * 1000)))
        | None => ret None
        end ;;
      createdAt <- new_Date_iso rt ;;
      let memory :=
        {| mem_id := memoryId; mem_agent_id := agentId;
           mem_room := agent_room agent; mem_key := key; mem_value := value;
           mem_type := type; mem_created_at := createdAt;
           mem_expires_at := expiresAt |} in
      db_run (Sql.insert_memory memory) ;;
      ret (Ok memory)
  end.

(** A query parameter in a condition: absent and empty both count as
    not given. *)
Definition given (q : option string) : option string :=
  match q with
  | Some text => if truthy text then Some text else None
  | None => None
  end.

(** [GET /api/memory/:agentId]; the database looks at the clock when it
    evaluates [datetime('now')]. *)
Definition getMemory (rt : Runtime) (agentId : string) (key type : option string)
    : M (list MemoryRow) :=
  now <- Date_now rt ;;
  gets (fun st => Sql.select_memory agentId (given key) (given type) now (db st)).

(** [POST /api/notifications/:notificationId/read]; the body is the
    field [updated], computed as [this.changes > 0]. *)
Definition markNotificationRead (notificationId : string) : M (Reply bool) :=
  changes <- (fun st =>
    let (d, n) := Sql.update_notification_read notificationId (db st) in
    (n, set_db d st)) ;;
  ret (Ok (0 <? changes)%nat).

(** ** Socket and watcher events *)

(** [socket.on('register', ...)] on the socket [socketId]. *)
Definition register (socketId agentId : string) : M unit :=
  found <- gets (fun st => JsMap.get (agents st) agentId) ;;
  match found with
  | Some agent =>
      modify (fun st =>
        set_agents
          (JsMap.set (agents st) agentId
             {| agent_id := agent_id agent; agent_name := agent_name agent;
                agent_room := agent_room agent;
                agent_capabilities := agent_capabilities agent;
                agent_joinedAt := agent_joinedAt agent;
                agent_lastActive := agent_lastActive agent;
                agent_socketId := Some socketId;
                agent_status := agent_status agent |}) st)
  | None => ret tt
  end.

Definition file_verb (a : FileAction) : string :=
  match a with
  | FileChange => "File modified: "
  | FileAdd => "File created: "
  | FileDelete => "File deleted: "
  end.

(** What the watcher of room [roomName] does on a change, an addition
    or a removal of the file at [relativePath]; there is such a watcher
    only for the rooms in [fileWatcher]. *)
Definition file_event (rt : Runtime) (roomName : string) (action : FileAction)
    (relativePath : string) : M unit :=
  watching <- gets (fun st => existsb (String.eqb roomName) (fileWatcher st)) ;;
  if watching then
    id <- uuidv4 rt ;;
    timestamp <- new_Date_iso rt ;;
    let message :=
      {| msg_id := id; msg_type := TFileChange; msg_agentId := None;
         msg_agentName := None;
         msg_content := file_verb action ++ relativePath;
         msg_mentions := None;
         msg_metadata := Some (MetaFile relativePath action);
         msg_timestamp := timestamp; msg_room := roomName; msg_from := None |} in
    push_message_if_any roomName message ;;
    emit (EmitMessage roomName message)
  else ret tt.

(** ** Runs of the hub *)

(** One thing that happens to the process and changes the state
    modelled here.  The task endpoints and the echo of socket messages
    are not among them: they touch the map of tasks and the sockets
    only, neither of which the state holds. *)
Inductive Op :=
| OpJoin (roomName agentId agentName : string) (capabilities : Json)
| OpLeave (agentId : string)
| OpSend (agentId content : string) (metadata : Json)
| OpBroadcast (roomName content : string) (from : option string)
| OpStoreMemory (agentId key value : string) (type : option string)
                (expiresIn : option Z)
| OpGetMemory (agentId : string) (key type : option string)
| OpMarkRead (notificationId : string)
| OpRegister (socketId agentId : string)
| OpFileEvent (roomName : string) (action : FileAction) (relativePath : string)
| OpRestart.

Definition apply_op (rt : Runtime) (op : Op) (st : Hub) : Hub :=
  match op with
  | OpJoin r a n c => snd (join rt r a n c st)
  | OpLeave a => snd (leave rt a st)
  | OpSend a c m => snd (send rt a c m st)
  | OpBroadcast r c f => snd (broadcast rt r c f st)
  | OpStoreMemory a k v t e => snd (storeMemory rt a k v t e st)
  | OpGetMemory a k t => snd (getMemory rt a k t st)
  | OpMarkRead n => snd (markNotificationRead n st)
  | OpRegister s a => snd (register s a st)
  | OpFileEvent r a p => snd (file_event rt r a p st)
  | OpRestart => restart st
  end.

(** The state after a run: the operations in order, from [boot]. *)
Definition run (rt : Runtime) (ops : list Op) : Hub :=
  fold_left (fun st op => apply_op rt op st) ops boot.

(** A runtime to run examples with: identifiers in sequence, and a
    clock that starts on 2026-11-02 at 08:18:00 UTC and moves five
    seconds between two looks at it. *)
Definition demo_rt : Runtime :=
  {| uuid_of := fun n => ("uuid-" ++ Time.pad 4 (Z.of_nat n))%string;
     clock_ms := fun n => (1793607480000 + 5000 * Z.of_nat n)%Z;
     Date_getTime := fun _ => None |}.

(** Whom a mention of [agentName] reaches: the id of the first agent
    of that name, if there is one and its id is not empty. *)
Definition recipient_of (A : JsMap.t Agent) (agentName : string) : option string :=
  match find (fun a => String.eqb (agent_name a) agentName) (JsMap.values A) with
  | Some a => if truthy (agent_id a) then Some (agent_id a) else None
  | None => None
  end.

(** Alice ([a1]) and Bob ([a2]) join the room [lab]. *)
Definition lab_two_agents : list Op :=
  [OpJoin "lab" "a1" "Alice" "{}"; OpJoin "lab" "a2" "Bob" "{}"].

(** Then Alice says hello to Bob; Bob's notification gets the id
    [uuid-0004]. *)
Definition lab_hello : list Op :=
  lab_two_agents ++ [OpSend "a1" "hello @Bob" "{}"].

(** Alice joins [lab] and the operator broadcasts 101 times. *)
Definition lab_busy : list Op :=
  OpJoin "lab" "a1" "Alice" "{}" :: repeat (OpBroadcast "lab" "tick" None) 101.

(** Alice joins [lab] and stores a memory that expires after one
    second. *)
Definition lab_memory : list Op :=
  [OpJoin "lab" "a1" "Alice" "{}"; OpStoreMemory "a1" "k" "v" None (Some 1%Z)].

(** Every registered agent's room has a message list. *)
Definition housed (A : JsMap.t Agent) (L : JsMap.t (list Message)) : Prop :=
  forall id a, In (id, a) A -> JsMap.has L (agent_room a) = true.

(** Every room has a message list. *)
Definition logged (R : JsMap.t Room) (L : JsMap.t (list Message)) : Prop :=
  forall r, JsMap.has R r = true -> JsMap.has L r = true.

(** What every run of the hub maintains. *)
Definition hub_inv (st : Hub) : Prop :=
  housed (agents st) (messages st) /\ logged (rooms st) (messages st).

(** An action leaves the component [f] of the state alone. *)
Definition keeps {A X} (f : Hub -> X) (m : M A) : Prop :=
  forall st, f (snd (m st)) = f st.

(** ** Shared filesystem *)

Module SharedFs.

(** An absolute path in normal form: its segments, from the top. *)
Definition path : Type := list string.

Inductive node :=
| File (content : string)
| Dir
| Link (target : path).

(** The filesystem: what stands at each path that exists. *)
Definition tree : Type := list (path * node).

Fixpoint path_eqb (p q : path) : bool :=
  match p, q with
  | [], [] => true
  | a :: p', b :: q' => String.eqb a b && path_eqb p' q'
  | _, _ => false
  end.

Fixpoint lookup (t : tree) (p : path) : option node :=
  match t with
  | [] => None
  | (q, n) :: t' => if path_eqb q p then Some n else lookup t' p
  end.

Definition remove (t : tree) (p : path) : tree :=
  filter (fun e => negb (path_eqb (fst e) p)) t.

Definition store (t : tree) (p : path) (n : node) : tree :=
  (p, n) :: remove t p.

(** The text of a path cut at its slashes. *)
Fixpoint split_slash (s : chars) (cur : chars) : list string :=
  match s with
  | [] => [string_of_list_ascii (rev cur)]
  | c :: r =>
      if Ascii.eqb c "/" then string_of_list_ascii (rev cur) :: split_slash r []
      else split_slash r (c :: cur)
  end.

Definition segments (text : string) : list string :=
  split_slash (list_ascii_of_string text) [].

Definition is_absolute (text : string) : bool :=
  match text with
  | String c _ => Ascii.eqb c "/"
  | EmptyString => false
  end.

(** Normalization, one segment at a time: an empty segment and [.]
    stay in place, [..] goes up (and stays at the top when there), a
    name goes down. *)
Definition normal_step (at_ : path) (seg : string) : path :=
  if String.eqb seg "" || String.eqb seg "." then at_
  else if String.eqb seg ".." then removelast at_
  else at_ ++ [seg].

(** Modelled from the spec: the resolution of a path argument against
    the shared root, which no source file implements.  "Every path
    argument is resolved against the root" and normalized: an absolute
    argument is read from the top, any other from the root. *)
Definition resolve (root : path) (text : string) : path :=
  fold_left normal_step (segments text) (if is_absolute text then [] else root).

(** Following symbolic links along a path; [budget] bounds the number
    of links followed, and [None] means it ran out. *)
Fixpoint follow (budget : nat) (t : tree) (at_ : path) (todo : list string)
    {struct budget} : option path :=
  (fix walk (at_ : path) (todo : list string) {struct todo} : option path :=
     match todo with
     | [] => Some at_
     | seg :: rest =>
         match lookup t (at_ ++ [seg]) with
         | Some (Link target) =>
             match budget with
             | O => None
             | S budget' => follow budget' t [] (target ++ rest)
             end
         | _ => walk (at_ ++ [seg]) rest
         end
     end) at_ todo.

Definition link_budget : nat := 40.

(** Modelled from the spec: where a path leads once its symbolic links
    are followed, which no source file computes; the specification
    counts "symbolic links pointing outside" among the escapes. *)
Definition realpath (t : tree) (p : path) : option path :=
  follow link_budget t [] p.

(** [p] lies inside [root]: [root] is a prefix of [p]. *)
Fixpoint inside (root p : path) : bool :=
  match root, p with
  | [], _ => true
  | a :: root', b :: p' => String.eqb a b && inside root' p'
  | _ :: _, [] => false
  end.

Inductive error := PathEscape | TooManyLinks | NotFound.

(** Modelled from the spec: the check every operation starts with,
    which no source file implements.  The argument, resolved, with its
    links followed, "must lie inside [the root] after normalization";
    otherwise the operation fails "with a path-escape error". *)
Definition locate (root : path) (t : tree) (text : string) : error + path :=
  match realpath t (resolve root text) with
  | None => inl TooManyLinks
  | Some p => if inside root p then inr p else inl PathEscape
  end.

Inductive request :=
| Read (file : string)
| Write (file content : string)
| List (dir : string)
| Delete (file : string).

Definition argument (r : request) : string :=
  match r with
  | Read f => f
  | Write f _ => f
  | List d => d
  | Delete f => f
  end.

Inductive reply :=
| Failed (e : error)
| Content (c : string)
| Names (l : list string)
| Done.

(** The directories between [root] and [root ++ rel], top down. *)
Fixpoint parents (root : path) (rel : list string) : list path :=
  match rel with
  | [] => []
  | [_] => []
  | seg :: rest => (root ++ [seg]) :: parents (root ++ [seg]) rest
  end.

Definition make_dir (t : tree) (p : path) : tree :=
  match lookup t p with
  | Some _ => t
  | None => store t p Dir
  end.

(** The name of [q] when it stands directly in [p]. *)
Fixpoint child_name (p q : path) : option string :=
  match p, q with
  | [], [name] => Some name
  | a :: p', b :: q' => if String.eqb a b then child_name p' q' else None
  | _, _ => None
  end.

(** Modelled from the spec: the four operations on the shared
    directory, which no source file implements.  Each one locates its
    argument first.  "Write creates parent directories as needed." *)
Definition perform (root : path) (r : request) (t : tree) : reply * tree :=
  match locate root t (argument r) with
  | inl e => (Failed e, t)
  | inr p =>
      match r with
      | Read _ =>
          match lookup t p with
          | Some (File c) => (Content c, t)
          | _ => (Failed NotFound, t)
          end
      | Write _ content =>
          let rel := skipn (List.length root) p in
          (Done, store (fold_left make_dir (parents root rel) t) p (File content))
      | List _ =>
          (Names (flat_map (fun e => match child_name p (fst e) with
                                     | Some name => [name]
                                     | None => []
                                     end) t), t)
      | Delete _ =>
          match lookup t p with
          | Some _ => (Done, remove t p)
          | None => (Failed NotFound, t)
          end
      end
  end.

(** A shared root, with a welcome file and a link that leaves it. *)
Definition demo_root : path := ["srv"; "shared"].

Definition demo_tree : tree :=
  [ (["srv"], Dir);
    (["srv"; "shared"], Dir);
    (["srv"; "shared"; "welcome.md"], File "hello");
    (["srv"; "shared"; "out"], Link ["etc"]);
    (["etc"], Dir);
    (["etc"; "passwd"], File "root:x:0:0") ].

End SharedFs.

(** * The rest of the server, and its clients *)

(** ** Reading the state *)

(** The agents of a room as [join] finds them, and its message list. *)
Definition members_of (st : Hub) (r : string) : JsSet.t :=
  match JsMap.get (rooms st) r with
  | Some room => room_agents room
  | None => JsSet.empty
  end.

Definition log_of (st : Hub) (r : string) : list Message :=
  match JsMap.get (messages st) r with
  | Some l => l
  | None => []
  end.

(** The [agentCount] that [GET /api/rooms] reports for the room [r]. *)
Definition agentCount_in (infos : list RoomInfo) (r : string) : option nat :=
  option_map ri_agentCount (find (fun i => String.eqb (ri_name i) r) infos).

(** Every registered agent's room has an entry in [rooms], and no id is
    registered twice. *)
Definition agents_placed (st : Hub) : Prop :=
  (forall id a, In (id, a) (agents st) -> JsMap.has (rooms st) (agent_room a) = true)
  /\ NoDup (JsMap.keys (agents st)).

(** ** Listing notifications *)

(** The query of [GET /api/notifications/:agentId]:
    [SELECT * FROM notifications WHERE agent_id = ?], with
    [AND is_read = 0] when the handler appends it, then
    [ORDER BY created_at DESC LIMIT 50]. *)
Definition select_notifications (agentId : string) (unread : bool) (d : Db)
    : list NotificationRow :=
  firstn 50
    (Sql.order_desc nr_created_at
       (filter (fun n => String.eqb (nr_agent_id n) agentId
                         && (if unread then negb (nr_is_read n) else true))
               (tbl_notifications d))).

(** [GET /api/notifications/:agentId]; [unreadOnly] is the query
    parameter, [None] when absent.  The handler appends the condition
    only [if (unreadOnly === 'true')]. *)
Definition getNotifications (agentId : string) (unreadOnly : option string)
    : M (list NotificationRow) :=
  gets (fun st =>
    select_notifications agentId
      (match unreadOnly with
       | Some text => String.eqb text "true"
       | None => false
       end) (db st)).

(** [a] does not come before [b] in the order of [ORDER BY ... DESC]. *)
Definition text_ge (a b : string) : bool := Sql.text_gt a b || String.eqb a b.

(** [x] stands before [y] in a list sorted by [key], descending. *)
Definition newer_first {A} (key : A -> string) (x y : A) : Prop :=
  text_ge (key x) (key y) = true.

(** The rows of [agent_memory]. *)
Definition memory_table (st : Hub) : list MemoryRow := tbl_agent_memory (db st).

(** The state some further requests later. *)
Definition after (rt : Runtime) (ops : list Op) (st : Hub) : Hub :=
  fold_left (fun st op => apply_op rt op st) ops st.

(** Every registered agent is in the set of agents of its room. *)
Definition seated (st : Hub) : Prop :=
  forall id a, In (id, a) (agents st) -> In id (members_of st (agent_room a)).

(** ** Rooms and their rows *)

(** Two draws of [uuidv4] never give the same identifier. *)
Definition unique_ids (rt : Runtime) : Prop :=
  forall i j, uuid_of rt i = uuid_of rt j -> i = j.

(** The rows of [rooms], and the creation time of every room in memory. *)
Definition rooms_table (st : Hub) : list RoomRow := tbl_rooms (db st).

Definition room_dates (st : Hub) : list (string * string) :=
  map (fun entry : string * Room => (fst entry, room_createdAt (snd entry))) (rooms st).

(** Every room in memory has an active row of its name and creation
    time; the names of the rows are distinct, and their ids have been
    drawn. *)
Definition rooms_stored (rt : Runtime) (st : Hub) : Prop :=
  (forall name created, In (name, created) (room_dates st) ->
     exists row, In row (rooms_table st) /\ rr_name row = name
                 /\ rr_created_at row = created /\ rr_is_active row = 1%Z)
  /\ NoDup (map rr_name (rooms_table st))
  /\ (forall row, In row (rooms_table st) ->
        exists i, (i < uuid_draws st)%nat /\ rr_id row = uuid_of rt i).

(** What start-up makes of one row: the body of the loop in
    [loadDataFromDatabase]. *)
Definition room_of_row (row : RoomRow) : Room :=
  {| room_name := rr_name row; room_agents := JsSet.empty;
     room_createdAt := rr_created_at row;
     room_isActive := Z.eqb (rr_is_active row) 1;
     room_settings := if truthy (rr_settings row) then rr_settings row else "{}" |}.

Definition load_row (row : RoomRow) : M unit :=
  modify (fun st => set_rooms (JsMap.set (rooms st) (rr_name row) (room_of_row row)) st) ;;
  modify (fun st => set_messages (JsMap.set (messages st) (rr_name row) []) st).

(** An action never lowers the count of identifiers drawn. *)
Definition draws_on {A} (m : M A) : Prop :=
  forall st, (uuid_draws st <= uuid_draws (snd (m st)))%nat.

(** A runtime whose identifiers are told apart by their length. *)
Definition tally_rt : Runtime :=
  {| uuid_of := fun n => string_of_list_ascii (repeat "i"%char n);
     clock_ms := clock_ms demo_rt;
     Date_getTime := Date_getTime demo_rt |}.

(** [GET /api/agents/:room]: the agents registered under the ids of the
    room's set; an id that is registered no more is passed over. *)
Definition roomAgents (roomName : string) : M (Reply (list Agent)) :=
  found <- gets (fun st => JsMap.get (rooms st) roomName) ;;
  match found with
  | None => ret (Err 404 "Room not found")
  | Some room =>
      gets (fun st =>
        Ok (flat_map (fun id => match JsMap.get (agents st) id with
                                | Some a => [a]
                                | None => []
                                end)
                     (room_agents room)))
  end.

(** ** Tasks *)

(** A task as the hub keeps it.  The fields the handler copies from the
    body are [None] when the body has none ([undefined]). *)
Record Task := {
  task_id : string;
  task_room : option string;
  task_title : option string;
  task_description : option string;
  task_assignee : option string;
  task_creator : option string;
  task_priority : string;
  task_status : string;
  task_createdAt : string;
  task_updatedAt : string
}.

(** A row of the table [tasks]. *)
Record TaskRow := {
  tr_id : string;
  tr_room : option string;
  tr_title : option string;
  tr_description : option string;
  tr_assignee : option string;
  tr_creator : option string;
  tr_priority : string;
  tr_status : string;
  tr_created_at : string;
  tr_updated_at : string
}.

(** The payload of a ['task'] event. *)
Inductive TaskEvent :=
| TaskCreated (task : Task)
| TaskUpdated (task : Task).

(** The hub together with its map of tasks, the table [tasks], the
    ['task'] events it has emitted with the room each went to, and the
    directory it was configured with. *)
Record Server := {
  hub : Hub;
  tasks : JsMap.t Task;
  tbl_tasks : list TaskRow;
  task_emitted : list (option string * TaskEvent);
  SHARED_DIR : string
}.

(** [POST /api/tasks].  [priority] has the default ['medium'], which
    applies when the body has no such field. *)
Definition createTask (rt : Runtime)
    (roomName title description assignee creator priority : option string)
    (s : Server) : Task * Server :=
  let (id, h1) := uuidv4 rt (hub s) in
  let (createdAt, h2) := new_Date_iso rt h1 in
  let (updatedAt, h3) := new_Date_iso rt h2 in
  let task :=
    {| task_id := id; task_room := roomName; task_title := title;
       task_description := description; task_assignee := assignee;
       task_creator := creator;
       task_priority := match priority with Some p => p | None => "medium" end;
       task_status := "todo";
       task_createdAt := createdAt; task_updatedAt := updatedAt |} in
  (task,
   {| hub := h3; tasks := JsMap.set (tasks s) id task; tbl_tasks := tbl_tasks s;
      task_emitted := task_emitted s ++ [(roomName, TaskCreated task)];
      SHARED_DIR := SHARED_DIR s |}).

(** [GET /api/tasks/:room] *)
Definition listTasks (room : string) (s : Server) : list Task :=
  filter (fun t => match task_room t with
                   | Some r => String.eqb r room
                   | None => false
                   end)
         (JsMap.values (tasks s)).

(** [if (field) task.field = field]: a field of the body overwrites the
    task's only when it is there and not empty. *)
Definition overwrite (field : option string) (old : string) : string :=
  match field with
  | Some text => if truthy text then text else old
  | None => old
  end.

Definition overwrite_opt (field old : option string) : option string :=
  match field with
  | Some text => if truthy text then Some text else old
  | None => old
  end.

(** [UPDATE tasks SET status = ?, assignee = ?, priority = ?,
    updated_at = ? WHERE id = ?] *)
Definition update_task_row (task : Task) (taskId : string) (rows : list TaskRow)
    : list TaskRow :=
  map (fun r =>
         if String.eqb (tr_id r) taskId then
           {| tr_id := tr_id r; tr_room := tr_room r; tr_title := tr_title r;
              tr_description := tr_description r;
              tr_assignee := task_assignee task; tr_creator := tr_creator r;
              tr_priority := task_priority task; tr_status := task_status task;
              tr_created_at := tr_created_at r;
              tr_updated_at := task_updatedAt task |}
         else r)
      rows.

(** [POST /api/tasks/:taskId/update]; the task object in the map is
    changed in place, so it keeps its position among the tasks. *)
Definition updateTask (rt : Runtime) (taskId : string)
    (status assignee priority : option string) (s : Server)
    : Reply Task * Server :=
  match JsMap.get (tasks s) taskId with
  | None => (Err 404 "Task not found", s)
  | Some task =>
      let (updatedAt, h1) := new_Date_iso rt (hub s) in
      let task' :=
        {| task_id := task_id task; task_room := task_room task;
           task_title := task_title task;
           task_description := task_description task;
           task_assignee := overwrite_opt assignee (task_assignee task);
           task_creator := task_creator task;
           task_priority := overwrite priority (task_priority task);
           task_status := overwrite status (task_status task);
           task_createdAt := task_createdAt task;
           task_updatedAt := updatedAt |} in
      (Ok task',
       {| hub := h1; tasks := JsMap.set (tasks s) taskId task';
          tbl_tasks := update_task_row task' taskId (tbl_tasks s);
          task_emitted := task_emitted s ++ [(task_room task, TaskUpdated task')];
          SHARED_DIR := SHARED_DIR s |})
  end.

(** [GET /api/stats] *)
Record RoomStats := {
  rs_name : string;
  rs_agentCount : nat;
  rs_messageCount : nat;
  rs_isActive : bool
}.

Record Stats := {
  totalRooms : nat;
  totalAgents : nat;
  totalTasks : nat;
  sharedDirectory : string;
  stats_rooms : list RoomStats
}.

Definition stats (s : Server) : Stats :=
  {| totalRooms := JsMap.size (rooms (hub s));
     totalAgents := JsMap.size (agents (hub s));
     totalTasks := JsMap.size (tasks s);
     sharedDirectory := SHARED_DIR s;
     stats_rooms :=
       map (fun entry : string * Room =>
              let (name, room) := entry in
              {| rs_name := name;
                 rs_agentCount := JsSet.size (room_agents room);
                 rs_messageCount :=
                   match JsMap.get (messages (hub s)) name with
                   | Some l => List.length l
                   | None => 0
                   end;
                 rs_isActive := room_isActive room |})
           (rooms (hub s)) |}.

(** A request to the server: one of the hub's, or one about tasks.  A
    restart empties the map of tasks with the other maps; the table
    stays. *)
Inductive Request :=
| OfHub (op : Op)
| CreateTask (roomName title description assignee creator priority : option string)
| UpdateTask (taskId : string) (status assignee priority : option string).

Definition serve (rt : Runtime) (q : Request) (s : Server) : Server :=
  match q with
  | OfHub op =>
      {| hub := apply_op rt op (hub s);
         tasks := match op with OpRestart => JsMap.empty | _ => tasks s end;
         tbl_tasks := tbl_tasks s; task_emitted := task_emitted s;
         SHARED_DIR := SHARED_DIR s |}
  | CreateTask r t d a c p => snd (createTask rt r t d a c p s)
  | UpdateTask id st a p => snd (updateTask rt id st a p s)
  end.

(** The server on its first start, and after a sequence of requests. *)
Definition server_boot (dir : string) : Server :=
  {| hub := boot; tasks := JsMap.empty; tbl_tasks := []; task_emitted := [];
     SHARED_DIR := dir |}.

Definition server_run (rt : Runtime) (dir : string) (qs : list Request) : Server :=
  fold_left (fun s q => serve rt q s) qs (server_boot dir).

(** Alice joins [lab]; a task is created for [lab] and one for [den]. *)
Definition lab_tasks : list Request :=
  [OfHub (OpJoin "lab" "a1" "Alice" "{}");
   CreateTask (Some "lab") (Some "write tests") None None (Some "a1") None;
   CreateTask (Some "den") (Some "tidy up") None (Some "a2") (Some "a1") (Some "high")].

Definition lab_server : Server := server_run demo_rt "/srv/shared" lab_tasks.

(** What every run of the server maintains: the invariants of the hub,
    an empty table of tasks, and every task kept under its own id. *)
Definition server_inv (s : Server) : Prop :=
  hub_inv (hub s) /\ agents_placed (hub s) /\ seated (hub s)
  /\ tbl_tasks s = []
  /\ (forall k t, In (k, t) (tasks s) -> task_id t = k).

(** * The adapter of an agent

    [mcp-server.js] keeps, per agent process, what it has heard on its
    socket: the messages of the room and a list of notifications.  The
    handlers of the socket's events and the tools that work on these
    lists are modelled; the events and the arguments of the tools are
    the inputs. *)

Module Adapter.

(** What an entry of [notifications] is about: the fields next to
    [id], [type], [timestamp] and [read]. *)
Inductive About :=
| Mentioned (message : Message)
| Keyword (pattern : string) (message : Message)
| Pushed (notification : Notification)
| Assigned (task : Task) (message : string).

Record Note := {
  note_id : string;
  note_type : string;
  note_about : About;
  note_timestamp : string;
  note_read : bool
}.

(** The variables of the module, and how often it has drawn an
    identifier and looked at the clock. *)
Record State := {
  currentAgentId : option string;
  currentRoom : option string;
  agentName : string;
  notifications : list Note;
  messageHistory : list Message;
  watchPatterns : list string;
  uuid_drawn : nat;
  clock_looks : nat
}.

(** What the process takes from its surroundings: identifiers and the
    clock, and the built-in [String.prototype.toLowerCase]. *)
Record Env := {
  runtime : Runtime;
  toLowerCase : string -> string
}.

Definition set_notifications (v : list Note) (st : State) : State :=
  {| currentAgentId := currentAgentId st; currentRoom := currentRoom st;
     agentName := agentName st; notifications := v;
     messageHistory := messageHistory st; watchPatterns := watchPatterns st;
     uuid_drawn := uuid_drawn st; clock_looks := clock_looks st |}.

Definition set_messageHistory (v : list Message) (st : State) : State :=
  {| currentAgentId := currentAgentId st; currentRoom := currentRoom st;
     agentName := agentName st; notifications := notifications st;
     messageHistory := v; watchPatterns := watchPatterns st;
     uuid_drawn := uuid_drawn st; clock_looks := clock_looks st |}.

Definition set_watchPatterns (v : list string) (st : State) : State :=
  {| currentAgentId := currentAgentId st; currentRoom := currentRoom st;
     agentName := agentName st; notifications := notifications st;
     messageHistory := messageHistory st; watchPatterns := v;
     uuid_drawn := uuid_drawn st; clock_looks := clock_looks st |}.

(** [notifications.push({ id: uuidv4(), type, ..., timestamp: new
    Date().toISOString(), read: false })] *)
Definition push_note (env : Env) (type : string) (about : About) (st : State)
    : State :=
  {| currentAgentId := currentAgentId st; currentRoom := currentRoom st;
     agentName := agentName st;
     notifications :=
       notifications st
       ++ [{| note_id := uuid_of (runtime env) (uuid_drawn st);
              note_type := type; note_about := about;
              note_timestamp :=
                Time.toISOString (clock_ms (runtime env) (clock_looks st));
              note_read := false |}];
     messageHistory := messageHistory st; watchPatterns := watchPatterns st;
     uuid_drawn := S (uuid_drawn st); clock_looks := S (clock_looks st) |}.

(** [text.includes(pattern)] *)
Fixpoint includes (text pattern : string) : bool :=
  String.prefix pattern text
  || match text with
     | EmptyString => false
     | String _ rest => includes rest pattern
     end.

(** The last [k] elements: [list.slice(-k)] for a positive [k]. *)
Definition last_n {A} (k : nat) (l : list A) : list A :=
  Js.slice_from (Some (- Z.of_nat k)%Z) l.

(** The socket's ['message'] event. *)
Definition on_message (env : Env) (message : Message) (st : State) : State :=
  let pushed := messageHistory st ++ [message] in
  let st :=
    set_messageHistory
      (if (1000 <? List.length pushed)%nat then last_n 1000 pushed else pushed) st in
  let content := toLowerCase env (msg_content message) in
  let st :=
    if match msg_mentions message with
       | Some mentions => existsb (String.eqb (agentName st)) mentions
       | None => false
       end
    then push_note env "mention" (Mentioned message) st
    else st in
  match find (fun pattern => includes content (toLowerCase env pattern))
             (watchPatterns st) with
  | Some pattern => push_note env "keyword" (Keyword pattern message) st
  | None => st
  end.

(** The socket's ['notification'] event.  The fields of the hub's
    object are spread after [id] and [type], so its [id] and [type]
    are the ones kept; the identifier drawn is dropped. *)
Definition on_notification (env : Env) (notification : Notification) (st : State)
    : State :=
  {| currentAgentId := currentAgentId st; currentRoom := currentRoom st;
     agentName := agentName st;
     notifications :=
       notifications st
       ++ [{| note_id := ntf_id notification;
              note_type := ntf_type notification;
              note_about := Pushed notification;
              note_timestamp :=
                Time.toISOString (clock_ms (runtime env) (clock_looks st));
              note_read := false |}];
     messageHistory := messageHistory st; watchPatterns := watchPatterns st;
     uuid_drawn := S (uuid_drawn st); clock_looks := S (clock_looks st) |}.

(** The socket's ['task_assigned'] event. *)
Definition on_task_assigned (env : Env) (task : Task) (st : State) : State :=
  push_note env "task"
    (Assigned task
       ("Task assigned: "
        ++ match task_title task with Some t => t | None => "undefined" end))
    st.

(** The result of a tool: a value, or an [Error] thrown. *)
Inductive Outcome (A : Type) :=
| Return (value : A)
| Throw (message : string).
Arguments Return {A} value.
Arguments Throw {A} message.

(** [currentAgentId] in a condition. *)
Definition connected (st : State) : bool :=
  match currentAgentId st with
  | Some id => truthy id
  | None => false
  end.

(** [[...new Set(list)]] *)
Definition unique (l : list string) : list string :=
  fold_left JsSet.add l JsSet.empty.

(** [subscribeToAlerts]: [patterns] is [None] when the parameter is
    absent, [mentions] is [Some false] when it is the value [false].
    Returns [watchPatterns] and [mentionsEnabled]. *)
Definition subscribeToAlerts (patterns : option (list string))
    (mentions : option bool) (st : State)
    : Outcome (list string * bool) * State :=
  if negb (connected st) then
    (Throw "Not connected to a room. Use room_join first.", st)
  else
    let st :=
      match patterns with
      | Some ps => set_watchPatterns (unique (watchPatterns st ++ ps)) st
      | None => st
      end in
    (Return (watchPatterns st,
             match mentions with Some false => false | _ => true end),
     st).

Definition unread (l : list Note) : list Note :=
  filter (fun n => negb (note_read n)) l.

(** [getNotifications]: returns [notifications] and [unreadCount]. *)
Definition getNotifications (unreadOnly : bool) (type : option string)
    (st : State) : Outcome (list Note * nat) :=
  if negb (connected st) then
    Throw "Not connected to a room. Use room_join first."
  else
    let filtered := notifications st in
    let filtered := if unreadOnly then unread filtered else filtered in
    let filtered :=
      match type with
      | Some t =>
          if truthy t then filter (fun n => String.eqb (note_type n) t) filtered
          else filtered
      | None => filtered
      end in
    Return (filtered, List.length (unread (notifications st))).

Definition mark (n : Note) : Note :=
  {| note_id := note_id n; note_type := note_type n; note_about := note_about n;
     note_timestamp := note_timestamp n; note_read := true |}.

(** [notifications.find(n => n.id === id)], then [read = true] on the
    entry found: the first of that id. *)
Fixpoint mark_first (id : string) (l : list Note) : option (list Note) :=
  match l with
  | [] => None
  | n :: rest =>
      if String.eqb (note_id n) id then Some (mark n :: rest)
      else option_map (cons n) (mark_first id rest)
  end.

(** [markNotificationRead]: returns [notificationId]. *)
Definition markNotificationRead (notificationId : string) (st : State)
    : Outcome string * State :=
  match mark_first notificationId (notifications st) with
  | Some l => (Return notificationId, set_notifications l st)
  | None => (Throw "Notification not found", st)
  end.

(** [markAllNotificationsRead]: returns [markedCount]. *)
Definition markAllNotificationsRead (st : State) : nat * State :=
  (List.length (unread (notifications st)),
   set_notifications
     (map (fun n => if note_read n then n else mark n) (notifications st)) st).

(** [toLowerCase] on a text of ASCII characters. *)
Definition lower_char (c : ascii) : ascii :=
  if is_upper c then ascii_of_nat (nat_of_ascii c + 32) else c.

Fixpoint lower_ascii (text : string) : string :=
  match text with
  | EmptyString => EmptyString
  | String c rest => String (lower_char c) (lower_ascii rest)
  end.

(** An environment and a state to run examples with: the agent Bob,
    connected as [a2], who watches for "deploy" and "urgent" and has
    heard nothing yet. *)
Definition demo_env : Env := {| runtime := demo_rt; toLowerCase := lower_ascii |}.

Definition bob : State :=
  {| currentAgentId := Some "a2"; currentRoom := Some "lab"; agentName := "Bob";
     notifications := []; messageHistory := [];
     watchPatterns := ["deploy"; "urgent"]; uuid_drawn := 0; clock_looks := 0 |}.

(** A message as the hub sends it for Alice's text. *)
Definition heard (id content : string) : Message :=
  {| msg_id := id; msg_type := TMessage; msg_agentId := Some "a1";
     msg_agentName := Some "Alice"; msg_content := content;
     msg_mentions := Some (Mention.parseMentions content);
     msg_metadata := Some (MetaClient "{}");
     msg_timestamp := "2026-11-02T08:18:10.000Z"; msg_room := "lab";
     msg_from := None |}.

(** Bob after he has heard two messages of Alice's. *)
Definition bob_heard : State :=
  fold_left (fun s m => on_message demo_env m s)
            [heard "m1" "hello @Bob"; heard "m2" "URGENT: deploy at noon"] bob.

End Adapter.

(** * The operator's console

    [cli.js] reads lines from the operator; a line that starts with a
    slash is a command.  The dispatch of [handleCommand] and the
    commands that tag an agent and assign a task are modelled, up to
    the request each sends to the hub. *)

Module OrchestratorCLI.

(** [text.split(' ')]: the pieces between the spaces, empty pieces
    included; there is always at least one. *)
Fixpoint split (text : string) : list string :=
  match text with
  | EmptyString => [EmptyString]
  | String c rest =>
      if Ascii.eqb c " " then EmptyString :: split rest
      else match split rest with
           | piece :: pieces => String c piece :: pieces
           | [] => [String c EmptyString]
           end
  end.

(** [pieces.join(' ')] *)
Fixpoint join (pieces : list string) : string :=
  match pieces with
  | [] => EmptyString
  | [piece] => piece
  | piece :: rest => (piece ++ " " ++ join rest)%string
  end.

(** The fields of the console that the commands read. *)
Record Cli := {
  currentRoom : option string;
  agentId : string;
  agentName : string
}.










(** What a command sends to the hub. *)
Inductive Post :=
| PostSend (agentId content : string) (metadata : Json)
| PostTask (roomName title description assignee creator priority : option string).

(** [this.currentRoom] in a condition. *)
Definition in_room (cli : Cli) : option string :=
  match currentRoom cli with
  | Some room => if truthy room then Some room else None
  | None => None
  end.


(** [assignTask] *)
Definition assignTask (cli : Cli) (args : list string) : option Post :=
  match in_room cli with
  | None => None
  | Some room =>
      let taskDescription := join (tl args) in
      match hd_error args with
      | Some target =>
          if truthy target && truthy taskDescription then
            Some (PostTask (Some room) (Some ("Assigned to " ++ target)%string)
                           (Some taskDescription) (Some target)
                           (Some (agentName cli)) (Some "medium"))
          else None
      | None => None
      end
  end.


(** A text without a space. *)
Definition spaceless (text : string) : Prop :=
  Forall (fun c => Ascii.eqb c " " = false) (list_ascii_of_string text).

End OrchestratorCLI.

(** * Proofs *)

(** ** Mention parser *)

Module MentionFacts.
Import Mention.

Lemma is_at_eq c : is_at c = true -> c = "@"%char.
Proof. unfold is_at. apply Ascii.eqb_eq. Qed.

Lemma is_dash_eq c : is_dash c = true -> c = "-"%char.
Proof. unfold is_dash. apply Ascii.eqb_eq. Qed.

Lemma at_not_word c : is_at c = true -> is_word c = false.
Proof. intros H. apply is_at_eq in H. subst. reflexivity. Qed.

Lemma dash_not_word c : is_dash c = true -> is_word c = false.
Proof. intros H. apply is_dash_eq in H. subst. reflexivity. Qed.

(** [name_tail] splits its input. *)
Lemma name_tail_split s :
  forall t rest, name_tail s = (t, rest) -> s = t ++ rest.
Proof.
  functional induction (name_tail s); intros t0 rest0 E;
    try (injection E as <- <-; reflexivity).
  - injection E as <- <-. simpl. f_equal. now apply IHp.
  - injection E as <- <-. simpl. do 2 f_equal. now apply IHp.
Qed.

(** What it reads has the shape of a name tail. *)
Lemma name_tail_shape s :
  forall t rest, name_tail s = (t, rest) -> tail_ok t = true.
Proof.
  functional induction (name_tail s); intros t0 rest0 E;
    try (injection E as <- <-; reflexivity).
  - injection E as <- <-. simpl. rewrite e0. eauto.
  - injection E as <- <-. simpl. rewrite e0, e1, e3. simpl. eauto.
Qed.

(** And nothing of that shape at the same place is longer. *)
Lemma name_tail_longest s :
  forall t rest, name_tail s = (t, rest) ->
  forall u post, tail_ok u = true -> u ++ post = s ->
                 (List.length u <= List.length t)%nat.
Proof.
  functional induction (name_tail s); intros t0 rest0 E u post Hu Hs.
  - destruct u; [simpl; lia | discriminate].
  - injection E as <- <-.
    destruct u as [|a u]; [simpl; lia|].
    simpl in Hs. injection Hs as -> Hs. simpl in Hu. rewrite e0 in Hu.
    simpl. apply le_n_S. eapply IHp; eauto.
  - injection E as <- <-.
    destruct u as [|a u]; [simpl; lia|].
    simpl in Hs. injection Hs as -> Hs.
    apply app_eq_nil in Hs as [-> _].
    simpl in Hu. rewrite e0, e1 in Hu. discriminate.
  - injection E as <- <-.
    destruct u as [|a u]; [simpl; lia|].
    simpl in Hs. injection Hs as -> Hs. simpl in Hu. rewrite e0, e1 in Hu.
    destruct u as [|b u]; [discriminate|].
    simpl in Hs. injection Hs as -> Hs.
    apply andb_prop in Hu as [_ Hu].
    simpl. do 2 apply le_n_S. eapply IHp; eauto.
  - injection E as <- <-.
    destruct u as [|a u]; [simpl; lia|].
    simpl in Hs. injection Hs as -> Hs. simpl in Hu. rewrite e0, e1 in Hu.
    destruct u as [|b u]; [discriminate|].
    simpl in Hs. injection Hs as -> Hs.
    rewrite e3 in Hu. discriminate.
  - injection E as <- <-.
    destruct u as [|a u]; [simpl; lia|].
    simpl in Hs. injection Hs as -> Hs. simpl in Hu. rewrite e0, e1 in Hu.
    discriminate.
Qed.

Lemma tail_ok_words w rest :
  Forall (fun c => is_word c = true) w -> tail_ok rest = true ->
  tail_ok (w ++ rest) = true.
Proof.
  induction 1 as [|c w Hc _ IH]; intros Hr; simpl; [assumption|].
  rewrite Hc. auto.
Qed.

Lemma tail_ok_segments ws :
  Forall word_run ws ->
  tail_ok (flat_map (fun seg => "-"%char :: seg) ws) = true.
Proof.
  induction 1 as [|w ws [Hne Hw] _ IH]; simpl; [reflexivity|].
  destruct w as [|d w]; [congruence|].
  inversion Hw as [|? ? Hd Hw']; subst. simpl. rewrite Hd. simpl.
  now apply tail_ok_words.
Qed.

(** A name is a word character followed by a well-shaped tail. *)
Lemma mention_name_shape t :
  mention_name t ->
  exists c u, t = c :: u /\ is_word c = true /\ tail_ok u = true.
Proof.
  intros (w & ws & -> & [Hne Hw] & Hws).
  destruct w as [|c w]; [congruence|].
  inversion Hw as [|? ? Hc Hw']; subst.
  exists c, (w ++ flat_map (fun seg => "-"%char :: seg) ws).
  repeat split; auto.
  apply tail_ok_words; auto using tail_ok_segments.
Qed.

Lemma shape_mention_name u :
  tail_ok u = true -> forall c, is_word c = true -> mention_name (c :: u).
Proof.
  functional induction (tail_ok u); intros Hu a Ha; try discriminate.
  - exists [a], []. repeat split; auto; discriminate.
  - destruct (IHb Hu c e0) as (w & ws & E & [Hne Hw] & Hws).
    exists (a :: w), ws. repeat split; auto; try discriminate.
    simpl. now rewrite <- E.
  - apply andb_prop in Hu as [Hd Hu].
    destruct (IHb Hu d Hd) as (w & ws & E & Hw & Hws).
    exists [a], (w :: ws). repeat split; auto; try discriminate.
    simpl. rewrite (is_dash_eq _ e1).
    now rewrite <- E.
Qed.

Lemma app_same_length {A} (a b c d : list A) :
  a ++ b = c ++ d -> List.length a = List.length c -> a = c /\ b = d.
Proof.
  revert c. induction a as [|x a IH]; intros [|y c] E L; try discriminate.
  - auto.
  - simpl in *. injection E as -> E. injection L as L.
    destruct (IH _ E L) as [-> ->]. auto.
Qed.

(** After a word character, [name_tail] reads the longest name. *)
Lemma name_tail_longest_name d r t rest :
  is_word d = true -> name_tail r = (t, rest) -> longest_name (d :: t) rest.
Proof.
  intros Hd E. split.
  - apply shape_mention_name; eauto using name_tail_shape.
  - intros t' post' Hn Hs.
    apply mention_name_shape in Hn as (c & u & -> & _ & Hu).
    simpl in Hs. injection Hs as -> Hs.
    rewrite <- (name_tail_split _ _ _ E) in Hs.
    simpl. apply le_n_S. eapply name_tail_longest; eauto.
Qed.

Lemma longest_name_tail d u post :
  longest_name (d :: u) post -> name_tail (u ++ post) = (u, post).
Proof.
  intros [Hn Hmax].
  apply mention_name_shape in Hn as (c & u0 & [= <- <-] & Hd & Hu).
  destruct (name_tail (u ++ post)) as [t rest] eqn:E.
  pose proof (name_tail_split _ _ _ E) as Hs.
  pose proof (name_tail_longest _ _ _ E u post Hu eq_refl) as L1.
  pose proof (name_tail_longest_name d _ _ _ Hd E) as [Hn' _].
  assert (L2 : (List.length (d :: t) <= List.length (d :: u))%nat).
  { apply (Hmax (d :: t) rest Hn'). simpl. now rewrite <- Hs. }
  simpl in L2.
  destruct (app_same_length t rest u post) as [-> ->]; auto. lia.
Qed.

(** *** The search for the next match *)

Lemma no_mention_start_nil : no_mention_start [].
Proof. intros [|? ?] c q E; discriminate. Qed.

Lemma no_mention_start_tail c s :
  no_mention_start (c :: s) -> no_mention_start s.
Proof. intros H p d q E. apply (H (c :: p) d q). simpl. now rewrite E. Qed.

Lemma no_mention_start_cons c s :
  no_mention_start s ->
  (is_at c = true -> forall d r, s = d :: r -> is_word d = false) ->
  no_mention_start (c :: s).
Proof.
  intros Hs Hc [|x p] d q E; simpl in E; injection E as -> E.
  - apply (Hc eq_refl d q E).
  - apply (Hs p d q E).
Qed.

Lemma exec_none s : exec s = None -> no_mention_start s.
Proof.
  functional induction (exec s); intros E; try discriminate.
  - apply no_mention_start_nil.
  - apply no_mention_start_cons; [apply no_mention_start_nil|].
    intros _ d r0 H. discriminate.
  - apply no_mention_start_cons; auto. now intros _ ? ? [= <- <-].
  - apply no_mention_start_cons; auto. congruence.
Qed.

Lemma exec_some s t post :
  exec s = Some (t, post) ->
  exists pre,
    s = pre ++ "@"%char :: t ++ post
    /\ no_mention_start (pre ++ ["@"%char])
    /\ longest_name t post.
Proof.
  functional induction (exec s); intros E; try discriminate.
  - injection E as <- <-. exists []. simpl. split; [|split].
    + rewrite (is_at_eq _ e0). do 2 f_equal. eauto using name_tail_split.
    + apply no_mention_start_cons; [apply no_mention_start_nil|].
      intros _ x y H. discriminate.
    + eauto using name_tail_longest_name.
  - destruct (IHo E) as (pre & Hs & Hpre & Hl). exists (c :: pre).
    simpl. split; [|split]; auto.
    + now rewrite Hs.
    + apply no_mention_start_cons; auto. intros _ x y Hx.
      destruct pre as [|z pre]; simpl in Hs, Hx.
      * injection Hs as -> _. injection Hx as <- _. reflexivity.
      * injection Hs as -> _. injection Hx as <- _. assumption.
  - destruct (IHo E) as (pre & Hs & Hpre & Hl). exists (c :: pre).
    simpl. split; [|split]; auto.
    + now rewrite Hs.
    + apply no_mention_start_cons; auto. congruence.
Qed.

Lemma exec_no_start s : no_mention_start s -> exec s = None.
Proof.
  functional induction (exec s); intros H; auto.
  - rewrite (is_at_eq _ e0) in H.
    specialize (H [] d r' eq_refl). congruence.
  - eauto using no_mention_start_tail.
  - eauto using no_mention_start_tail.
Qed.

Lemma exec_found pre t post :
  no_mention_start (pre ++ ["@"%char]) -> longest_name t post ->
  exec (pre ++ "@"%char :: t ++ post) = Some (t, post).
Proof.
  intros Hpre Hl.
  pose proof Hl as [Hn _].
  apply mention_name_shape in Hn as (d & u & -> & Hd & Hu).
  induction pre as [|c pre IH]; simpl.
  - rewrite Hd. now rewrite (longest_name_tail _ _ _ Hl).
  - specialize (IH (no_mention_start_tail _ _ Hpre)).
    destruct (is_at c) eqn:Hc; [|exact IH].
    apply is_at_eq in Hc. subst c.
    destruct pre as [|x pre]; simpl in *.
    + specialize (Hpre [] "@"%char [] eq_refl). simpl. exact IH.
    + rewrite (Hpre [] x (pre ++ ["@"%char]) eq_refl). exact IH.
Qed.

Lemma exec_consumes s t post :
  exec s = Some (t, post) -> (List.length post < List.length s)%nat.
Proof.
  intros E. apply exec_some in E as (pre & -> & _ & _).
  rewrite !length_app. simpl. rewrite length_app. lia.
Qed.

(** *** The loop *)

Lemma loop_occurrences fuel :
  forall s, (List.length s <= fuel)%nat ->
  exists l, occurrences s l
            /\ forall acc, loop fuel s acc = acc ++ map string_of_list_ascii l.
Proof.
  induction fuel as [|fuel IH]; intros s Hlen.
  - destruct s; [|simpl in Hlen; lia]. exists []. split.
    + constructor. apply no_mention_start_nil.
    + intros acc. simpl. now rewrite app_nil_r.
  - simpl. destruct (exec s) as [[t post]|] eqn:E.
    + pose proof (exec_consumes _ _ _ E) as Hlt.
      destruct (IH post ltac:(lia)) as (l & Hocc & Hloop).
      apply exec_some in E as (pre & -> & Hpre & Hl).
      exists (t :: l). split; [now constructor|].
      intros acc. rewrite Hloop, <- app_assoc. reflexivity.
    + exists []. split; [constructor; now apply exec_none|].
      intros acc. simpl. now rewrite app_nil_r.
Qed.

Lemma occurrences_loop s l :
  occurrences s l ->
  forall fuel acc, (List.length s <= fuel)%nat ->
                   loop fuel s acc = acc ++ map string_of_list_ascii l.
Proof.
  induction 1 as [s Hs|pre t post l Hpre Hl _ IH]; intros fuel acc Hlen.
  - destruct fuel; simpl; [now rewrite app_nil_r|].
    rewrite (exec_no_start _ Hs). simpl. now rewrite app_nil_r.
  - destruct fuel as [|fuel].
    + rewrite length_app in Hlen. simpl in Hlen. lia.
    + simpl loop. rewrite (exec_found _ _ _ Hpre Hl).
      rewrite IH, <- app_assoc; [reflexivity|].
      rewrite !length_app in Hlen. simpl in Hlen. rewrite length_app in Hlen. lia.
Qed.

(** The length of the text is fuel enough: more changes nothing. *)
Lemma loop_fuel_enough s fuel acc :
  (List.length s <= fuel)%nat -> loop fuel s acc = loop (List.length s) s acc.
Proof.
  intros H. destruct (loop_occurrences (List.length s) s (le_n _)) as (l & Hocc & ->).
  now apply occurrences_loop.
Qed.

Lemma length_list_ascii_of_string s :
  List.length (list_ascii_of_string s) = String.length s.
Proof. induction s; simpl; congruence. Qed.

Lemma map_string_of_list_ascii_inj l1 l2 :
  map string_of_list_ascii l1 = map string_of_list_ascii l2 -> l1 = l2.
Proof.
  revert l2. induction l1 as [|a l1 IH]; intros [|b l2] E; try discriminate; auto.
  simpl in E. injection E as Ea E. f_equal; auto.
  rewrite <- (list_ascii_of_string_of_list_ascii a),
          <- (list_ascii_of_string_of_list_ascii b). now rewrite Ea.
Qed.

(** C7.  For every input string the mention parser returns exactly the
    mentions of the text: the occurrences, in order of appearance and
    with repetitions kept, of an [@] followed by one or more word
    characters optionally extended by [-word] segments, each returned
    without the [@] and with its characters as they stand in the text
    (no case folding).  The parser is a function of its argument
    alone. *)
Theorem parseMentions_exact (content : string) (names : list string) :
  parseMentions content = names <-> mentions_of content names.
Proof.
  unfold parseMentions, mentions_of.
  destruct (loop_occurrences (String.length content) (list_ascii_of_string content))
    as (l & Hocc & Hloop).
  { now rewrite length_list_ascii_of_string. }
  rewrite Hloop. simpl. split.
  - intros <-. eauto.
  - intros (l' & Hocc' & ->).
    pose proof (occurrences_loop _ _ Hocc' (String.length content) []) as H'.
    rewrite Hloop in H'. simpl in H'. apply H'.
    now rewrite length_list_ascii_of_string.
Qed.

Example parseMentions_examples :
  parseMentions "hello @Bob and @multi-part-name, not @-x or a@b--c @Bob"
  = ["Bob"; "multi-part-name"; "b"; "Bob"]
  /\ parseMentions "@bob is not @Bob; @a_1-2-" = ["bob"; "Bob"; "a_1-2"]
  /\ parseMentions "no mention: @ @- @@" = [].
Proof. repeat split. Qed.

End MentionFacts.

(** ** Maps *)

Module JsMapFacts.
Section WithValue.
Context {V : Type}.
Implicit Types (m : JsMap.t V) (k : string) (v : V).

Lemma get_set_same m k v : JsMap.get (JsMap.set m k v) k = Some v.
Proof.
  induction m as [|[k' v'] m IH]; simpl.
  - now rewrite String.eqb_refl.
  - destruct (String.eqb k' k) eqn:E; simpl; rewrite E; auto.
Qed.

Lemma get_set_other m k k' v :
  k <> k' -> JsMap.get (JsMap.set m k v) k' = JsMap.get m k'.
Proof.
  intros Hne. induction m as [|[k0 v0] m IH]; simpl.
  - destruct (String.eqb k k') eqn:E; auto.
    apply String.eqb_eq in E. contradiction.
  - destruct (String.eqb k0 k) eqn:E; simpl.
    + apply String.eqb_eq in E. subst k0.
      destruct (String.eqb k k') eqn:E'; auto.
      apply String.eqb_eq in E'. contradiction.
    + now rewrite IH.
Qed.

Lemma has_set m k k' v :
  JsMap.has (JsMap.set m k v) k' = String.eqb k k' || JsMap.has m k'.
Proof.
  unfold JsMap.has. destruct (String.eqb k k') eqn:E.
  - apply String.eqb_eq in E. subst. now rewrite get_set_same.
  - apply String.eqb_neq in E. now rewrite get_set_other.
Qed.

Lemma has_set_mono m k k' v :
  JsMap.has m k' = true -> JsMap.has (JsMap.set m k v) k' = true.
Proof. intros H. rewrite has_set, H. apply orb_true_r. Qed.

Lemma has_get m k : JsMap.has m k = true -> exists v, JsMap.get m k = Some v.
Proof. unfold JsMap.has. destruct (JsMap.get m k); eauto; discriminate. Qed.

Lemma get_has m k v : JsMap.get m k = Some v -> JsMap.has m k = true.
Proof. unfold JsMap.has. now intros ->. Qed.

Lemma get_In m k v : JsMap.get m k = Some v -> In (k, v) m.
Proof.
  induction m as [|[k' v'] m IH]; simpl; [discriminate|].
  destruct (String.eqb k' k) eqn:E.
  - apply String.eqb_eq in E. intros [= ->]. subst. auto.
  - auto.
Qed.

Lemma In_set m k v k' v' :
  In (k', v') (JsMap.set m k v) -> (k', v') = (k, v) \/ In (k', v') m.
Proof.
  induction m as [|[k0 v0] m IH]; simpl.
  - intros [H|[]]; auto.
  - destruct (String.eqb k0 k) eqn:E; simpl.
    + apply String.eqb_eq in E. subst k0. intros [H|H]; auto.
    + intros [H|H]; auto. destruct (IH H); auto.
Qed.

Lemma In_delete m k x : In x (JsMap.delete m k) -> In x m.
Proof.
  induction m as [|[k0 v0] m IH]; simpl; auto.
  destruct (String.eqb k0 k); simpl; intuition.
Qed.
End WithValue.
End JsMapFacts.

(** ** What the building blocks leave untouched *)

Section Frames.
Context {X : Type} (f : Hub -> X).

Lemma keeps_ret {A} (a : A) : keeps f (ret a).
Proof. intros st. reflexivity. Qed.

Lemma keeps_gets {A} (g : Hub -> A) : keeps f (gets g).
Proof. intros st. reflexivity. Qed.

Lemma keeps_bind {A B} (m : M A) (k : A -> M B) :
  keeps f m -> (forall a, keeps f (k a)) -> keeps f (bind m k).
Proof.
  intros Hm Hk st. unfold bind. specialize (Hm st).
  destruct (m st) as [a st']. simpl in Hm. now rewrite Hk.
Qed.

Lemma keeps_mapM {A B} (g : A -> M B) l :
  (forall a, keeps f (g a)) -> keeps f (mapM g l).
Proof.
  intros Hg. induction l as [|a l IH]; simpl.
  - apply keeps_ret.
  - apply keeps_bind; auto. intros b.
    apply keeps_bind; auto. intros bs. apply keeps_ret.
Qed.

Lemma keeps_forEach {A} (g : A -> M unit) l :
  (forall a, keeps f (g a)) -> keeps f (forEach g l).
Proof.
  intros Hg. induction l as [|a l IH]; simpl.
  - apply keeps_ret.
  - apply keeps_bind; auto.
Qed.

Lemma keeps_if {A} (b : bool) (m1 m2 : M A) :
  keeps f m1 -> keeps f m2 -> keeps f (if b then m1 else m2).
Proof. destruct b; auto. Qed.
End Frames.

Create HintDb frame.
#[export] Hint Resolve keeps_ret keeps_gets keeps_bind keeps_mapM keeps_forEach
  keeps_if : frame.

(** The primitives that touch one component each. *)
Ltac by_fields := intros st; reflexivity.

Lemma uuidv4_keeps_messages rt : keeps messages (uuidv4 rt).
Proof. by_fields. Qed.
Lemma uuidv4_keeps_agents rt : keeps agents (uuidv4 rt).
Proof. by_fields. Qed.
Lemma uuidv4_keeps_rooms rt : keeps rooms (uuidv4 rt).
Proof. by_fields. Qed.
Lemma clock_keeps_messages rt : keeps messages (new_Date_iso rt).
Proof. by_fields. Qed.
Lemma clock_keeps_agents rt : keeps agents (new_Date_iso rt).
Proof. by_fields. Qed.
Lemma clock_keeps_rooms rt : keeps rooms (new_Date_iso rt).
Proof. by_fields. Qed.
Lemma db_run_keeps_messages g : keeps messages (db_run g).
Proof. by_fields. Qed.
Lemma db_run_keeps_agents g : keeps agents (db_run g).
Proof. by_fields. Qed.
Lemma db_run_keeps_rooms g : keeps rooms (db_run g).
Proof. by_fields. Qed.
Lemma emit_keeps_messages e : keeps messages (emit e).
Proof. by_fields. Qed.
Lemma emit_keeps_agents e : keeps agents (emit e).
Proof. by_fields. Qed.
Lemma emit_keeps_rooms e : keeps rooms (emit e).
Proof. by_fields. Qed.
Lemma emit_keeps_db e : keeps db (emit e).
Proof. by_fields. Qed.

#[export] Hint Resolve uuidv4_keeps_messages uuidv4_keeps_agents uuidv4_keeps_rooms
  clock_keeps_messages clock_keeps_agents clock_keeps_rooms
  db_run_keeps_messages db_run_keeps_agents db_run_keeps_rooms
  emit_keeps_messages emit_keeps_agents emit_keeps_rooms emit_keeps_db : frame.

Ltac frame :=
  repeat first
    [ apply keeps_bind; [|intros ?]
    | apply keeps_mapM; intros ?
    | apply keeps_forEach; intros ?
    | match goal with
      | |- keeps _ (match ?x with _ => _ end) => destruct x
      end
    | solve [auto with frame]
    | by_fields ].

Lemma createNotifications_keeps_messages rt msg l :
  keeps messages (createNotifications rt msg l).
Proof.
  unfold createNotifications, build_notification, deliver_notification,
    findAgentByName.
  frame.
Qed.

Lemma createNotifications_keeps_agents rt msg l :
  keeps agents (createNotifications rt msg l).
Proof.
  unfold createNotifications, build_notification, deliver_notification,
    findAgentByName.
  frame.
Qed.

Lemma createNotifications_keeps_rooms rt msg l :
  keeps rooms (createNotifications rt msg l).
Proof.
  unfold createNotifications, build_notification, deliver_notification,
    findAgentByName.
  frame.
Qed.

Lemma notify_mentions_keeps_messages rt msg l :
  keeps messages (notify_mentions rt msg l).
Proof.
  unfold notify_mentions.
  auto using createNotifications_keeps_messages with frame.
Qed.

Lemma notify_mentions_keeps_agents rt msg l :
  keeps agents (notify_mentions rt msg l).
Proof.
  unfold notify_mentions.
  auto using createNotifications_keeps_agents with frame.
Qed.

Lemma notify_mentions_keeps_rooms rt msg l :
  keeps rooms (notify_mentions rt msg l).
Proof.
  unfold notify_mentions.
  auto using createNotifications_keeps_rooms with frame.
Qed.

(** Unfold the monad and the primitives, then the projections of the
    rebuilt state. *)
Ltac hub_fields :=
  cbn [rooms agents messages fileWatcher db emitted uuid_draws clock_reads
       set_rooms set_agents set_messages set_fileWatcher set_db set_emitted
       set_uuid_draws set_clock_reads fst snd] in *.

Ltac hub_step :=
  cbv [bind ret gets modify uuidv4 Date_now new_Date_iso db_run emit
       push_message push_message_if_any];
  hub_fields.

(** ** Sending *)

(** C8.  For every agent id that is not in [agents], [send] answers 404
    with the error "Agent not found" and leaves the whole state as it
    was: no message list grows, no notification is created, nothing is
    written to the database, nothing is emitted. *)
Theorem send_unknown_agent rt st agentId content metadata :
  JsMap.get (agents st) agentId = None ->
  send rt agentId content metadata st = (Err 404 "Agent not found", st).
Proof.
  intros H. unfold send, bind, gets. now rewrite H.
Qed.

Lemma send_unknown_agent_witness :
  JsMap.get (agents (run demo_rt lab_two_agents)) "ghost" = None
  /\ send demo_rt "ghost" "hello @Bob" "{}" (run demo_rt lab_two_agents)
     = (Err 404 "Agent not found", run demo_rt lab_two_agents).
Proof.
  split; [reflexivity|].
  apply (send_unknown_agent demo_rt (run demo_rt lab_two_agents) "ghost"
           "hello @Bob" "{}").
  reflexivity.
Defined.

(** [send] by a registered agent whose room has a message list. *)
Lemma send_known rt st agentId content metadata agent log :
  JsMap.get (agents st) agentId = Some agent ->
  JsMap.get (messages st) (agent_room agent) = Some log ->
  exists m st' agent',
    send rt agentId content metadata st
    = (Ok {| sb_messageId := msg_id m;
             sb_mentions := Mention.parseMentions content |}, st')
    /\ JsMap.get (messages st') (agent_room agent) = Some (log ++ [m])
    /\ (forall r, r <> agent_room agent ->
                  JsMap.get (messages st') r = JsMap.get (messages st) r)
    /\ msg_mentions m = Some (Mention.parseMentions content)
    /\ msg_content m = content
    /\ msg_agentId m = Some agentId
    /\ JsMap.get (agents st') agentId = Some agent'
    /\ agent_lastActive agent'
       = Time.toISOString (clock_ms rt (S (clock_reads st)))
    /\ agent_room agent' = agent_room agent
    /\ agent_name agent' = agent_name agent.
Proof.
  intros Ha Hl. unfold send. hub_step. rewrite Ha, Hl.
  match goal with
  | |- context [notify_mentions ?r ?m ?l ?s] =>
      pose proof (notify_mentions_keeps_messages r m l s) as Km;
      pose proof (notify_mentions_keeps_agents r m l s) as Ka;
      destruct (notify_mentions r m l s) as [u s2]
  end.
  hub_fields.
  match goal with |- context [EmitMessage _ ?m] => exists m end.
  eexists.
  match type of Ka with _ = JsMap.set _ _ ?a => exists a end.
  split; [reflexivity|]. hub_fields.
  rewrite Km, Ka.
  repeat split; try reflexivity.
  - apply JsMapFacts.get_set_same.
  - intros r Hr. apply JsMapFacts.get_set_other. congruence.
  - apply JsMapFacts.get_set_same.
Qed.

(** ** Broadcasting *)

(** C10.  For every room name that has no message list (a room that was
    never created has none), [broadcast] still answers success with the
    next identifier [uuidv4] hands out as [messageId]; no message list,
    room or agent changes and nothing is written to the database.  The
    message is only handed to the socket layer. *)
Theorem broadcast_unknown_room rt st roomName content from :
  JsMap.get (messages st) roomName = None ->
  exists m st',
    broadcast rt roomName content from st = (Ok (uuid_of rt (uuid_draws st)), st')
    /\ uuid_draws st' = S (uuid_draws st)
    /\ messages st' = messages st
    /\ db st' = db st
    /\ rooms st' = rooms st
    /\ agents st' = agents st
    /\ msg_id m = uuid_of rt (uuid_draws st)
    /\ emitted st' = emitted st ++ [EmitMessage roomName m].
Proof.
  intros H. unfold broadcast. hub_step. rewrite H.
  eexists _, _. split; [reflexivity|]. hub_fields. repeat split; reflexivity.
Qed.

Lemma broadcast_unknown_room_witness :
  JsMap.get (messages (run demo_rt lab_two_agents)) "attic" = None
  /\ exists m st',
       broadcast demo_rt "attic" "anyone?" None (run demo_rt lab_two_agents)
       = (Ok (uuid_of demo_rt (uuid_draws (run demo_rt lab_two_agents))), st')
       /\ uuid_draws st' = S (uuid_draws (run demo_rt lab_two_agents))
       /\ messages st' = messages (run demo_rt lab_two_agents)
       /\ db st' = db (run demo_rt lab_two_agents)
       /\ rooms st' = rooms (run demo_rt lab_two_agents)
       /\ agents st' = agents (run demo_rt lab_two_agents)
       /\ msg_id m = uuid_of demo_rt (uuid_draws (run demo_rt lab_two_agents))
       /\ emitted st' = emitted (run demo_rt lab_two_agents) ++ [EmitMessage "attic" m].
Proof.
  split; [reflexivity|].
  apply (broadcast_unknown_room demo_rt (run demo_rt lab_two_agents) "attic"
           "anyone?" None).
  reflexivity.
Defined.

(** ** What every run maintains *)

Lemma housed_push A L r l : housed A L -> housed A (JsMap.set L r l).
Proof. intros H id a Hin. apply JsMapFacts.has_set_mono. eapply H, Hin. Qed.

Lemma logged_push R L r l : logged R L -> logged R (JsMap.set L r l).
Proof. intros H x Hx. apply JsMapFacts.has_set_mono. apply H, Hx. Qed.

Lemma housed_agent A L id a :
  JsMap.has L (agent_room a) = true -> housed A L -> housed (JsMap.set A id a) L.
Proof.
  intros Hm H id' a' Hin.
  apply JsMapFacts.In_set in Hin as [[= -> ->]|Hin]; eauto.
Qed.

Lemma housed_agent_delete A L id : housed A L -> housed (JsMap.delete A id) L.
Proof. intros H id' a' Hin. apply JsMapFacts.In_delete in Hin. eauto. Qed.

Lemma logged_room R L r room :
  JsMap.has L r = true -> logged R L -> logged (JsMap.set R r room) L.
Proof.
  intros Hm H x Hx. rewrite JsMapFacts.has_set in Hx.
  destruct (String.eqb r x) eqn:E.
  - apply String.eqb_eq in E. now subst.
  - apply H, Hx.
Qed.

Lemma logged_new_room R L r room l :
  logged R L -> logged (JsMap.set R r room) (JsMap.set L r l).
Proof.
  intros H. apply logged_room.
  - rewrite JsMapFacts.has_set, String.eqb_refl. reflexivity.
  - now apply logged_push.
Qed.

Lemma setupFileWatcher_keeps_rooms r : keeps rooms (setupFileWatcher r).
Proof. intros st. unfold setupFileWatcher, modify. simpl. now destruct existsb. Qed.
Lemma setupFileWatcher_keeps_agents r : keeps agents (setupFileWatcher r).
Proof. intros st. unfold setupFileWatcher, modify. simpl. now destruct existsb. Qed.
Lemma setupFileWatcher_keeps_messages r : keeps messages (setupFileWatcher r).
Proof. intros st. unfold setupFileWatcher, modify. simpl. now destruct existsb. Qed.

(** Replace a call the proof does not look into by its result, keeping
    what it is known to preserve. *)
Ltac skip_setupFileWatcher :=
  match goal with
  | |- context [setupFileWatcher ?r ?s] =>
      let Kr := fresh "Kr" in let Ka := fresh "Ka" in let Km := fresh "Km" in
      pose proof (setupFileWatcher_keeps_rooms r s) as Kr;
      pose proof (setupFileWatcher_keeps_agents r s) as Ka;
      pose proof (setupFileWatcher_keeps_messages r s) as Km;
      destruct (setupFileWatcher r s) as [? ?]; hub_fields
  end.

Ltac skip_notify_mentions :=
  match goal with
  | |- context [notify_mentions ?r ?m ?l ?s] =>
      let Kr := fresh "Kr" in let Ka := fresh "Ka" in let Km := fresh "Km" in
      pose proof (notify_mentions_keeps_rooms r m l s) as Kr;
      pose proof (notify_mentions_keeps_agents r m l s) as Ka;
      pose proof (notify_mentions_keeps_messages r m l s) as Km;
      destruct (notify_mentions r m l s) as [? ?]; hub_fields
  end.

Ltac inv_goal := unfold hub_inv; hub_fields; split.

Create HintDb inv.
Local Hint Resolve housed_push logged_push housed_agent housed_agent_delete
  logged_room logged_new_room JsMapFacts.has_set_mono : inv.

Lemma hub_inv_join rt r a n c st : hub_inv st -> hub_inv (snd (join rt r a n c st)).
Proof.
  intros [Ha Hr]. unfold join, getRoom. hub_step.
  destruct (JsMap.has (rooms st) r) eqn:Hk.
  - destruct (JsMapFacts.has_get _ _ Hk) as [room ->].
    pose proof (Hr _ Hk) as Hm.
    destruct (JsMapFacts.has_get _ _ Hm) as [log ->].
    inv_goal; auto with inv.
  - skip_setupFileWatcher. rewrite Kr.
    rewrite JsMapFacts.get_set_same. hub_fields.
    rewrite Km. rewrite JsMapFacts.get_set_same. hub_fields.
    unfold hub_inv. hub_fields. rewrite ?Ka, ?Kr, ?Km.
    assert (Hm : JsMap.has (JsMap.set (messages st) r []) r = true).
    { rewrite JsMapFacts.has_set, String.eqb_refl. reflexivity. }
    inv_goal; auto 6 with inv.
Qed.

Lemma hub_inv_leave rt a st : hub_inv st -> hub_inv (snd (leave rt a st)).
Proof.
  intros [Ha Hr]. unfold leave. hub_step.
  destruct (JsMap.get (agents st) a) as [agent|] eqn:Eg; [|now split].
  destruct (JsMap.get (rooms st) (agent_room agent)) as [room|] eqn:Er.
  - destruct (JsMap.get (messages st) (agent_room agent)) as [log|] eqn:El.
    + pose proof (JsMapFacts.get_has _ _ _ El).
      inv_goal; auto with inv.
    + apply JsMapFacts.get_has in Er. apply Hr in Er.
      unfold JsMap.has in Er. rewrite El in Er. discriminate.
  - inv_goal; auto with inv.
Qed.

Lemma hub_inv_send rt a c m st : hub_inv st -> hub_inv (snd (send rt a c m st)).
Proof.
  intros [Ha Hr]. unfold send. hub_step.
  destruct (JsMap.get (agents st) a) as [agent|] eqn:Eg; [|now split].
  destruct (JsMap.get (messages st) (agent_room agent)) as [log|] eqn:El;
    [|now split].
  skip_notify_mentions. unfold hub_inv. hub_fields. rewrite Ka, Kr, Km.
  pose proof (JsMapFacts.get_has _ _ _ El).
  split; auto with inv.
Qed.

Lemma hub_inv_broadcast rt r c f st :
  hub_inv st -> hub_inv (snd (broadcast rt r c f st)).
Proof.
  intros [Ha Hr]. unfold broadcast. hub_step.
  destruct (JsMap.get (messages st) r); inv_goal; auto with inv.
Qed.

Lemma hub_inv_storeMemory rt a k v t e st :
  hub_inv st -> hub_inv (snd (storeMemory rt a k v t e st)).
Proof.
  intros H. unfold storeMemory. hub_step.
  destruct (JsMap.get (agents st) a); [|exact H].
  destruct e as [secs|]; [destruct (Z.eqb secs 0)|]; exact H.
Qed.

Lemma hub_inv_getMemory rt a k t st :
  hub_inv st -> hub_inv (snd (getMemory rt a k t st)).
Proof. intros H. exact H. Qed.

Lemma hub_inv_markNotificationRead n st :
  hub_inv st -> hub_inv (snd (markNotificationRead n st)).
Proof. intros H. exact H. Qed.

Lemma hub_inv_register s a st : hub_inv st -> hub_inv (snd (register s a st)).
Proof.
  intros [Ha Hr]. unfold register. hub_step.
  destruct (JsMap.get (agents st) a) as [agent|] eqn:Eg; [|now split].
  inv_goal; auto. apply housed_agent; auto.
  apply (Ha a agent). apply JsMapFacts.get_In, Eg.
Qed.

Lemma hub_inv_file_event rt r a p st :
  hub_inv st -> hub_inv (snd (file_event rt r a p st)).
Proof.
  intros [Ha Hr]. unfold file_event. hub_step.
  destruct (existsb (String.eqb r) (fileWatcher st)); [|now split].
  hub_fields. destruct (JsMap.get (messages st) r); inv_goal; auto with inv.
Qed.

(** Loading keeps rooms and message lists together and registers no
    agent. *)
Lemma loadDataFromDatabase_inv st :
  agents st = [] -> logged (rooms st) (messages st) ->
  hub_inv (snd (loadDataFromDatabase st)).
Proof.
  unfold loadDataFromDatabase. hub_step.
  generalize (Sql.select_active_rooms (db st)) as rows.
  intros rows. revert st. induction rows as [|row rows IH]; intros st Hag Hl.
  - simpl. split; auto. rewrite Hag. intros ? ? [].
  - simpl. hub_step.
    match goal with
    | |- context [forEach ?f rows ?s] =>
        specialize (IH s); destruct (forEach f rows s) as [u s']
    end.
    apply IH; hub_fields; auto with inv.
Qed.

Lemma hub_inv_boot : hub_inv boot.
Proof. apply loadDataFromDatabase_inv; [reflexivity|]. intros r H. discriminate. Qed.

Lemma hub_inv_restart st : hub_inv (restart st).
Proof. apply loadDataFromDatabase_inv; [reflexivity|]. intros r H. discriminate. Qed.

Lemma hub_inv_apply_op rt op st : hub_inv st -> hub_inv (apply_op rt op st).
Proof.
  destruct op; simpl;
    auto using hub_inv_join, hub_inv_leave, hub_inv_send, hub_inv_broadcast,
      hub_inv_storeMemory, hub_inv_getMemory, hub_inv_markNotificationRead,
      hub_inv_register, hub_inv_file_event, hub_inv_restart.
Qed.

Lemma hub_inv_run rt ops : hub_inv (run rt ops).
Proof.
  unfold run. generalize hub_inv_boot. generalize boot as st.
  induction ops as [|op ops IH]; intros st H; simpl; auto using hub_inv_apply_op.
Qed.

(** ** Sending, in any state a run can reach *)

(** C2.  In every state a run of the hub reaches, for every agent registered
    in [agents], [send] succeeds and appends exactly one message to the
    list of the agent's room and to no other list; that message is the
    last element of the list, its id is the [messageId] of the answer,
    its [mentions] are [parseMentions content], and the agent's
    [lastActive] becomes the time read after the message was built. *)
Theorem send_appends_one_message rt ops agentId content metadata agent :
  JsMap.get (agents (run rt ops)) agentId = Some agent ->
  exists log m st' agent',
    JsMap.get (messages (run rt ops)) (agent_room agent) = Some log
    /\ send rt agentId content metadata (run rt ops)
       = (Ok {| sb_messageId := msg_id m;
                sb_mentions := Mention.parseMentions content |}, st')
    /\ JsMap.get (messages st') (agent_room agent) = Some (log ++ [m])
    /\ (forall r, r <> agent_room agent ->
                  JsMap.get (messages st') r = JsMap.get (messages (run rt ops)) r)
    /\ msg_mentions m = Some (Mention.parseMentions content)
    /\ JsMap.get (agents st') agentId = Some agent'
    /\ agent_lastActive agent'
       = Time.toISOString (clock_ms rt (S (clock_reads (run rt ops)))).
Proof.
  intros Ha.
  destruct (hub_inv_run rt ops) as [Hh _].
  pose proof (Hh _ _ (JsMapFacts.get_In _ _ _ Ha)) as Hm.
  apply JsMapFacts.has_get in Hm as [log Hl].
  destruct (send_known rt _ _ content metadata _ _ Ha Hl)
    as (m & st' & agent' & E & H1 & H2 & H3 & _ & _ & H4 & H5 & _).
  exists log, m, st', agent'. auto 10.
Qed.

Lemma send_appends_one_message_witness :
  JsMap.get (agents (run demo_rt [OpJoin "lab" "a1" "Alice" "{}"])) "a1"
  = Some {| agent_id := "a1"; agent_name := "Alice"; agent_room := "lab";
            agent_capabilities := "{}";
            agent_joinedAt := "2026-11-02T08:18:05.000Z";
            agent_lastActive := "2026-11-02T08:18:10.000Z";
            agent_socketId := None; agent_status := "active" |}
  /\ exists log m st' agent',
    JsMap.get (messages (run demo_rt [OpJoin "lab" "a1" "Alice" "{}"])) "lab"
    = Some log
    /\ send demo_rt "a1" "hello @Bob" "{}" (run demo_rt [OpJoin "lab" "a1" "Alice" "{}"])
       = (Ok {| sb_messageId := msg_id m;
                sb_mentions := Mention.parseMentions "hello @Bob" |}, st')
    /\ JsMap.get (messages st') "lab" = Some (log ++ [m])
    /\ (forall r, r <> "lab" ->
          JsMap.get (messages st') r
          = JsMap.get (messages (run demo_rt [OpJoin "lab" "a1" "Alice" "{}"])) r)
    /\ msg_mentions m = Some (Mention.parseMentions "hello @Bob")
    /\ JsMap.get (agents st') "a1" = Some agent'
    /\ agent_lastActive agent'
       = Time.toISOString
           (clock_ms demo_rt
              (S (clock_reads (run demo_rt [OpJoin "lab" "a1" "Alice" "{}"])))).
Proof.
  split; [vm_compute; reflexivity|].
  apply (send_appends_one_message demo_rt [OpJoin "lab" "a1" "Alice" "{}"]
           "a1" "hello @Bob" "{}"
           {| agent_id := "a1"; agent_name := "Alice"; agent_room := "lab";
              agent_capabilities := "{}";
              agent_joinedAt := "2026-11-02T08:18:05.000Z";
              agent_lastActive := "2026-11-02T08:18:10.000Z";
              agent_socketId := None; agent_status := "active" |}).
  vm_compute; reflexivity.
Defined.

(** ** Notifications *)

Lemma kept_map {A B} (f : A -> B) (built : list (option A)) :
  map f (kept built) = kept (map (option_map f) built).
Proof.
  induction built as [|[a|] built IH]; simpl; auto. now rewrite IH.
Qed.

Lemma kept_count (id : string) (l : list (option string)) :
  List.length (filter (String.eqb id) (kept l))
  = List.length (filter (fun o => match o with
                                  | Some x => String.eqb id x
                                  | None => false
                                  end) l).
Proof.
  induction l as [|[x|] l IH]; simpl; auto.
  destruct (String.eqb id x); simpl; auto.
Qed.

(** The [map] step: one object per mention, in order, for the agent the
    mention resolves to; it reads [agents] and writes nothing. *)
Lemma build_notifications rt message l :
  forall st,
    agents (snd (mapM (build_notification rt message) l st)) = agents st
    /\ db (snd (mapM (build_notification rt message) l st)) = db st
    /\ map (option_map ntf_agent_id) (fst (mapM (build_notification rt message) l st))
       = map (recipient_of (agents st)) l
    /\ Forall (fun n => ntf_room n = msg_room message)
              (kept (fst (mapM (build_notification rt message) l st))).
Proof.
  induction l as [|name l IH]; intros st.
  - simpl. auto.
  - simpl. unfold build_notification at 1 3 5 7, findAgentByName. hub_step.
    match goal with
    | |- context [mapM ?f l ?s] =>
        destruct (IH s) as (Ha & Hd & Hm & Hr); revert Ha Hd Hm Hr;
        destruct (mapM f l s) as [built s']
    end.
    hub_fields. intros Ha Hd Hm Hr. repeat split; auto.
    + simpl. rewrite Hm. f_equal. unfold recipient_of.
      destruct (find _ _) as [a|]; auto. now destruct (truthy (agent_id a)).
    + simpl. destruct (find _ _) as [a|]; auto.
      destruct (truthy (agent_id a)); auto. simpl. constructor; auto.
Qed.

(** The [forEach] step: one row per object, appended in order. *)
Lemma deliver_notifications ns :
  forall st,
    tbl_notifications (db (snd (forEach deliver_notification ns st)))
    = tbl_notifications (db st) ++ map notification_row ns.
Proof.
  induction ns as [|n ns IH]; intros st.
  - simpl. now rewrite app_nil_r.
  - simpl. unfold deliver_notification at 1. hub_step.
    destruct (JsMap.get (agents st) (ntf_agent_id n)) as [a|];
      [destruct (agent_socketId a) as [sock|]; [destruct (truthy sock)|]|];
      hub_fields; rewrite IH; hub_fields; simpl;
      now rewrite <- app_assoc.
Qed.

(** C3, as the code has it.  [createNotifications] appends to the
    table exactly one row per entry of [mentions] that resolves to an
    agent with a non-empty id, in the order of the entries; the rows
    are unread and bear the room of the message.  Hence, for every
    recipient, as many rows as there are entries that resolve to it: a
    name written k times in the content gives k rows. *)
Theorem createNotifications_row_per_occurrence rt message mentions st :
  exists rows,
    tbl_notifications (db (snd (createNotifications rt message mentions st)))
    = tbl_notifications (db st) ++ rows
    /\ map nr_agent_id rows = kept (map (recipient_of (agents st)) mentions)
    /\ Forall (fun r => nr_room r = msg_room message /\ nr_is_read r = false) rows
    /\ forall id,
         List.length (filter (fun r => String.eqb id (nr_agent_id r)) rows)
         = List.length
             (filter (fun name => match recipient_of (agents st) name with
                                  | Some x => String.eqb id x
                                  | None => false
                                  end) mentions).
Proof.
  unfold createNotifications. cbv [bind ret].
  destruct (build_notifications rt message mentions st) as (Ha & Hd & Hm & Hr).
  destruct (mapM (build_notification rt message) mentions st) as [built s1].
  simpl in Ha, Hd, Hm, Hr.
  pose proof (deliver_notifications (kept built) s1) as Hrows.
  destruct (forEach deliver_notification (kept built) s1) as [u s2].
  simpl in Hrows |- *. rewrite Hd in Hrows.
  exists (map notification_row (kept built)).
  assert (Hids : map nr_agent_id (map notification_row (kept built))
                 = kept (map (recipient_of (agents st)) mentions)).
  { rewrite map_map. simpl. rewrite <- Hm. apply kept_map. }
  split; [exact Hrows|]. split; [exact Hids|]. split.
  - apply Forall_map. eapply Forall_impl; [|exact Hr]. simpl. auto.
  - intros id.
    assert (Hf : forall (l : list NotificationRow),
               map nr_agent_id (filter (fun r => String.eqb id (nr_agent_id r)) l)
               = filter (String.eqb id) (map nr_agent_id l)).
    { induction l as [|x l IH]; simpl; auto.
      destruct (String.eqb id (nr_agent_id x)); simpl; now rewrite IH. }
    assert (Hg : forall (l : list string),
               map (recipient_of (agents st))
                   (filter (fun name => match recipient_of (agents st) name with
                                        | Some x => String.eqb id x
                                        | None => false
                                        end) l)
               = filter (fun o => match o with
                                  | Some x => String.eqb id x
                                  | None => false
                                  end) (map (recipient_of (agents st)) l)).
    { induction l as [|x l IH]; simpl; auto.
      destruct (recipient_of (agents st) x) as [y|] eqn:E; simpl; auto.
      destruct (String.eqb id y); simpl; now rewrite ?E, IH. }
    rewrite <- (length_map nr_agent_id), Hf, Hids, kept_count.
    now rewrite <- Hg, length_map.
Qed.

(** C3 fails as stated: Alice mentions Bob twice in one message and Bob
    gets two rows. *)
Lemma mention_twice_two_rows :
  Mention.parseMentions "@Bob ping @Bob" = ["Bob"; "Bob"]
  /\ tbl_notifications (db (run demo_rt lab_two_agents)) = []
  /\ map nr_agent_id
       (tbl_notifications
          (db (run demo_rt (lab_two_agents ++ [OpSend "a1" "@Bob ping @Bob" "{}"]))))
     = ["a2"; "a2"].
Proof. vm_compute. repeat split. Qed.

(** ** Marking a notification read *)

Lemma update_read_rows id (l : list NotificationRow) :
  forall n, In n (map (fun n => if String.eqb (nr_id n) id then Sql.mark_read n else n) l) ->
            nr_id n = id -> nr_is_read n = true.
Proof.
  intros n Hin Hid. apply in_map_iff in Hin as (x & Hx & _).
  destruct (String.eqb (nr_id x) id) eqn:E; subst n; [reflexivity|].
  apply String.eqb_neq in E. contradiction.
Qed.

Lemma update_read_again id (l : list NotificationRow) :
  map (fun n => if String.eqb (nr_id n) id then Sql.mark_read n else n)
      (map (fun n => if String.eqb (nr_id n) id then Sql.mark_read n else n) l)
  = map (fun n => if String.eqb (nr_id n) id then Sql.mark_read n else n) l.
Proof.
  rewrite map_map. apply map_ext. intros n.
  destruct (String.eqb (nr_id n) id) eqn:E; simpl; now rewrite E.
Qed.

Lemma update_read_matches id (l : list NotificationRow) :
  filter (fun n => String.eqb (nr_id n) id)
         (map (fun n => if String.eqb (nr_id n) id then Sql.mark_read n else n) l)
  = map Sql.mark_read (filter (fun n => String.eqb (nr_id n) id) l).
Proof.
  induction l as [|n l IH]; simpl; auto.
  destruct (String.eqb (nr_id n) id) eqn:E; simpl; rewrite E; simpl; now rewrite IH.
Qed.

Lemma matches_positive id (l : list NotificationRow) :
  In id (map nr_id l) ->
  (0 <? List.length (filter (fun n => String.eqb (nr_id n) id) l))%nat = true.
Proof.
  intros Hin. apply in_map_iff in Hin as (n & Hid & Hn).
  assert (H : In n (filter (fun n => String.eqb (nr_id n) id) l)).
  { apply filter_In. split; auto. now apply String.eqb_eq. }
  destruct (filter _ l); [destruct H|reflexivity].
Qed.

(** C4, as the code has it.  For every id of a row of the table, a call
    answers [updated = true] and leaves every row of that id read; a
    second call changes nothing and answers [updated = true] again:
    [updated] tells whether a row bears the id, not whether the call
    changed it. *)
Theorem markNotificationRead_twice st id :
  In id (map nr_id (tbl_notifications (db st))) ->
  let st1 := snd (markNotificationRead id st) in
  let st2 := snd (markNotificationRead id st1) in
  fst (markNotificationRead id st) = Ok true
  /\ (forall n, In n (tbl_notifications (db st1)) -> nr_id n = id ->
                nr_is_read n = true)
  /\ fst (markNotificationRead id st1) = Ok true
  /\ st2 = st1.
Proof.
  intros Hin. unfold markNotificationRead, Sql.update_notification_read.
  hub_step. cbn [Sql.set_tbl_notifications tbl_notifications
                 tbl_rooms tbl_agents tbl_messages tbl_agent_memory].
  rewrite update_read_matches, length_map, update_read_again.
  rewrite (matches_positive _ _ Hin).
  repeat split. apply update_read_rows.
Qed.

Lemma markNotificationRead_twice_witness :
  In "uuid-0004" (map nr_id (tbl_notifications (db (run demo_rt lab_hello))))
  /\ let st1 := snd (markNotificationRead "uuid-0004" (run demo_rt lab_hello)) in
     let st2 := snd (markNotificationRead "uuid-0004" st1) in
     fst (markNotificationRead "uuid-0004" (run demo_rt lab_hello)) = Ok true
     /\ (forall n, In n (tbl_notifications (db st1)) -> nr_id n = "uuid-0004" ->
                   nr_is_read n = true)
     /\ fst (markNotificationRead "uuid-0004" st1) = Ok true
     /\ st2 = st1.
Proof.
  split; [vm_compute; auto|].
  apply (markNotificationRead_twice (run demo_rt lab_hello) "uuid-0004").
  vm_compute; auto.
Defined.

(** C4 fails as stated: the second call on Bob's notification reports
    [updated = true], not [false]. *)
Lemma second_read_reports_updated :
  let st1 := snd (markNotificationRead "uuid-0004" (run demo_rt lab_hello)) in
  map nr_is_read (tbl_notifications (db st1)) = [true]
  /\ fst (markNotificationRead "uuid-0004" st1) = Ok true
  /\ fst (markNotificationRead "uuid-0004" st1) <> Ok false.
Proof. vm_compute. repeat split. discriminate. Qed.

(** ** History *)

Lemma skipn_all_but {A} (l : list A) (n : Z) :
  (0 < n)%Z ->
  skipn (Z.to_nat (Z.max (Z.of_nat (List.length l) + - n) 0)) l
  = skipn (List.length l - Z.to_nat n) l.
Proof. intros H. f_equal. lia. Qed.

Lemma skipn_clamped {A} (l : list A) (n : Z) :
  (0 <= n)%Z ->
  skipn (Z.to_nat (Z.min n (Z.of_nat (List.length l)))) l = skipn (Z.to_nat n) l.
Proof.
  intros H. destruct (Z.le_gt_cases n (Z.of_nat (List.length l))).
  - now rewrite Z.min_l.
  - rewrite Z.min_r by lia. rewrite Nat2Z.id.
    rewrite !skipn_all2; auto; lia.
Qed.

(** C6, as the code has it.  The handler answers
    [roomMessages.slice(-parseInt(limit))] and nothing else looks at
    [limit].  So, for a limit that [parseInt] does not read as 0: a
    positive number k gives the last k messages; text that is not a
    number gives all the messages, not the last 100; a negative number
    -k gives all but the first k messages, not the last 100.  The
    default applies only when the parameter is absent. *)
Theorem history_limit_as_coded rt st room since text :
  Js.parseInt text <> Some 0%Z ->
  fst (history rt room since (Some text) st)
  = (let msgs := messages_since rt room since st in
     match Js.parseInt text with
     | Some k =>
         if (0 <? k)%Z then skipn (List.length msgs - Z.to_nat k) msgs
         else skipn (Z.to_nat (- k)) msgs
     | None => msgs
     end)
  /\ fst (history rt room since None st)
     = skipn (List.length (messages_since rt room since st) - 100)
             (messages_since rt room since st).
Proof.
  intros Hz. unfold history. hub_step. split.
  - destruct (Js.parseInt text) as [k|]; simpl.
    2:{ unfold Js.slice_from. simpl (_ <? _)%Z. cbv iota.
        rewrite Z.min_l by lia. reflexivity. }
    unfold Js.slice_from.
    destruct (0 <? k)%Z eqn:Hk.
    + apply Z.ltb_lt in Hk.
      replace (- k <? 0)%Z with true by (symmetry; apply Z.ltb_lt; lia).
      now apply skipn_all_but.
    + apply Z.ltb_ge in Hk. assert (k <> 0%Z) by congruence.
      replace (- k <? 0)%Z with false by (symmetry; apply Z.ltb_ge; lia).
      apply skipn_clamped. lia.
  - change (Js.parseInt "100") with (Some 100%Z). simpl.
    unfold Js.slice_from. simpl (_ <? _)%Z. cbv iota.
    apply (skipn_all_but _ 100%Z). lia.
Qed.

Lemma history_limit_as_coded_witness :
  Js.parseInt "-1" <> Some 0%Z
  /\ (fst (history demo_rt "lab" None (Some "-1") (run demo_rt lab_hello))
      = (let msgs := messages_since demo_rt "lab" None (run demo_rt lab_hello) in
         match Js.parseInt "-1" with
         | Some k =>
             if (0 <? k)%Z then skipn (List.length msgs - Z.to_nat k) msgs
             else skipn (Z.to_nat (- k)) msgs
         | None => msgs
         end)
      /\ fst (history demo_rt "lab" None None (run demo_rt lab_hello))
         = skipn (List.length (messages_since demo_rt "lab" None (run demo_rt lab_hello)) - 100)
                 (messages_since demo_rt "lab" None (run demo_rt lab_hello))).
Proof.
  split; [vm_compute; discriminate|].
  apply (history_limit_as_coded demo_rt (run demo_rt lab_hello) "lab" None "-1").
  vm_compute; discriminate.
Defined.

(** With [limit=0] the handler returns the whole list. *)
Lemma history_limit_zero rt st room since text :
  Js.parseInt text = Some 0%Z ->
  fst (history rt room since (Some text) st) = messages_since rt room since st.
Proof.
  intros H. unfold history. hub_step. rewrite H.
  unfold Js.slice_from. simpl. rewrite Z.min_l by lia. reflexivity.
Qed.

(** C6 fails as stated.  With three messages in the room, [limit=0]
    returns all three, and [limit=-1] returns two where the default
    returns three; with 102 messages, [limit=abc] returns all of them
    where the default returns 100. *)
Lemma history_limit_boundaries :
  List.length (fst (history demo_rt "lab" None (Some "0") (run demo_rt lab_hello))) = 3
  /\ List.length (fst (history demo_rt "lab" None (Some "-1") (run demo_rt lab_hello))) = 2
  /\ List.length (fst (history demo_rt "lab" None None (run demo_rt lab_hello))) = 3
  /\ List.length (fst (history demo_rt "lab" None (Some "abc") (run demo_rt lab_busy))) = 102
  /\ List.length (fst (history demo_rt "lab" None None (run demo_rt lab_busy))) = 100.
Proof. vm_compute. repeat split. Qed.

(** ** Restart *)

(** Loading gives every room it finds an empty message list and leaves
    the other lists as they are. *)
Lemma loaded_lists_empty rows :
  forall st r l,
    (forall r' l', JsMap.get (messages st) r' = Some l' -> l' = []) ->
    JsMap.get
      (messages
         (snd (forEach
                 (fun row =>
                    modify (fun st =>
                      set_rooms
                        (JsMap.set (rooms st) (rr_name row)
                           {| room_name := rr_name row;
                              room_agents := JsSet.empty;
                              room_createdAt := rr_created_at row;
                              room_isActive := Z.eqb (rr_is_active row) 1;
                              room_settings :=
                                if truthy (rr_settings row) then rr_settings row
                                else "{}" |}) st) ;;
                    modify (fun st =>
                      set_messages (JsMap.set (messages st) (rr_name row) []) st))
                 rows st))) r = Some l ->
    l = [].
Proof.
  induction rows as [|row rows IH]; intros st r l Hst; simpl.
  - apply Hst.
  - hub_step. apply IH. hub_fields. intros r' l'.
    destruct (String.eqb (rr_name row) r') eqn:E.
    + apply String.eqb_eq in E. subst r'. rewrite JsMapFacts.get_set_same.
      now intros [= <-].
    + apply String.eqb_neq in E. rewrite JsMapFacts.get_set_other by assumption.
      apply Hst.
Qed.

(** After a restart the history of every room is empty, whatever the
    table of messages holds. *)
Lemma restart_history_empty rt st room since limit :
  fst (history rt room since limit (restart st)) = [].
Proof.
  unfold history. hub_step.
  assert (H : messages_since rt room since (restart st) = []).
  { unfold messages_since.
    destruct (JsMap.get (messages (restart st)) room) as [l|] eqn:E.
    - unfold restart, loadDataFromDatabase in E. hub_step.
      apply loaded_lists_empty in E; [|intros ? ? [=]]. subst l.
      destruct since as [text|]; [destruct (truthy text)|]; reflexivity.
    - destruct since as [text|]; [destruct (truthy text)|]; reflexivity. }
  rewrite H. unfold Js.slice_from. apply skipn_nil.
Qed.

(** C1 at a failing input.  Alice and Bob join [lab] and Alice sends a
    message; the three messages are in the list of the room and in the
    table.  After a restart the room is still listed, the table still
    holds the three rows, and the history of the room is empty. *)
Lemma restart_forgets_history :
  let st := run demo_rt lab_hello in
  map msg_content (fst (history demo_rt "lab" None None st))
  = ["Alice has joined the room"; "Bob has joined the room"; "hello @Bob"]
  /\ map mr_content (tbl_messages (db st))
     = ["Alice has joined the room"; "Bob has joined the room"; "hello @Bob"]
  /\ map ri_name (fst (listRooms st)) = ["lab"]
  /\ map ri_name (fst (listRooms (restart st))) = ["lab"]
  /\ tbl_messages (db (restart st)) = tbl_messages (db st)
  /\ fst (history demo_rt "lab" None None (restart st)) = [].
Proof. vm_compute. repeat split. Qed.

(** ** Memory *)

Lemma ascii_compare_refl c : Ascii.compare c c = Eq.
Proof. unfold Ascii.compare. apply N.compare_refl. Qed.

Lemma compare_common_prefix d x y :
  String.compare (d ++ x) (d ++ y) = String.compare x y.
Proof. induction d as [|c d IH]; simpl; auto. now rewrite ascii_compare_refl. Qed.

(** On the day an entry expires the query of [GET /api/memory] never
    filters it out: the stored text of the expiry is greater than the
    text of [datetime('now')] at every instant of that day, before the
    expiry and after it. *)
Lemma same_day_never_expired (expiry now : Z) :
  (expiry / Time.ms_per_day = now / Time.ms_per_day)%Z ->
  Sql.text_gt (Time.toISOString expiry) (Time.sqlite_datetime now) = true.
Proof.
  intros Hday. unfold Sql.text_gt, String.ltb, Time.sqlite_datetime, Time.toISOString.
  assert (Hd : Time.date_text now = Time.date_text expiry).
  { unfold Time.date_text. now rewrite Hday. }
  rewrite Hd, compare_common_prefix. reflexivity.
Qed.

(** C5 at a failing input.  At 08:18:20 Alice stores a memory that
    expires one second later, at 08:18:21.  At 08:18:30 the query still
    returns it: the stored text has a [T] where the text of
    [datetime('now')] has a space, and [T] is the greater byte, so on
    the day of expiry the stored text is always the greater one. *)
Lemma expired_memory_returned :
  let st := run demo_rt lab_memory in
  map mem_expires_at (tbl_agent_memory (db st)) = [Some "2026-11-02T08:18:21.000Z"]
  /\ Time.sqlite_datetime (clock_ms demo_rt (clock_reads st)) = "2026-11-02 08:18:30"
  /\ Time.toISOString (clock_ms demo_rt (clock_reads st)) = "2026-11-02T08:18:30.000Z"
  /\ Sql.text_gt "2026-11-02T08:18:21.000Z" "2026-11-02 08:18:30" = true
  /\ map mem_key (fst (getMemory demo_rt "a1" None None st)) = ["k"].
Proof. vm_compute. repeat split. Qed.

(** ** The first scenario of the specification *)

(** Alice and Bob join [lab] and Alice sends "hello @Bob": the last
    message of the room is hers and mentions Bob, and Bob has one
    unread notification. *)
Example join_send_mention :
  let st := run demo_rt lab_hello in
  map (fun m => (msg_agentName m, msg_content m, msg_mentions m))
      (fst (history demo_rt "lab" None (Some "1") st))
  = [(Some "Alice", "hello @Bob", Some ["Bob"])]
  /\ map (fun n => (nr_agent_id n, nr_message n, nr_is_read n))
         (tbl_notifications (db st))
     = [("a2", "Alice mentioned you: hello @Bob...", false)].
Proof. vm_compute. split; reflexivity. Qed.

(** ** Shared filesystem *)

Module SharedFsFacts.
Import SharedFs.

Lemma path_eqb_eq p q : path_eqb p q = true <-> p = q.
Proof.
  revert q. induction p as [|a p IH]; intros [|b q]; simpl;
    try (split; [discriminate|congruence]); [tauto|].
  rewrite andb_true_iff, String.eqb_eq, IH. split.
  - now intros [-> ->].
  - now intros [= -> ->].
Qed.

Lemma path_eqb_refl p : path_eqb p p = true.
Proof. now apply path_eqb_eq. Qed.

Lemma inside_below root rel : inside root (root ++ rel) = true.
Proof. induction root as [|a root IH]; simpl; auto. now rewrite String.eqb_refl. Qed.

Lemma inside_differs root p q :
  inside root p = true -> inside root q = false -> path_eqb p q = false.
Proof.
  intros Hp Hq. destruct (path_eqb p q) eqn:E; auto.
  apply path_eqb_eq in E. congruence.
Qed.

Lemma lookup_remove_other t p q :
  path_eqb p q = false -> lookup (remove t p) q = lookup t q.
Proof.
  intros Hne. induction t as [|[k n] t IH]; simpl; auto.
  destruct (path_eqb k p) eqn:Ekp; simpl.
  - apply path_eqb_eq in Ekp. subst k. now rewrite Hne.
  - destruct (path_eqb k q); auto.
Qed.

Lemma lookup_store_other t p n q :
  path_eqb p q = false -> lookup (store t p n) q = lookup t q.
Proof. intros Hne. simpl. rewrite Hne. now apply lookup_remove_other. Qed.

Lemma lookup_make_dir_other t p q :
  path_eqb p q = false -> lookup (make_dir t p) q = lookup t q.
Proof.
  intros Hne. unfold make_dir. destruct (lookup t p); auto.
  now apply lookup_store_other.
Qed.

Lemma parents_below top mid rel :
  Forall (fun d => inside top d = true) (parents (top ++ mid) rel).
Proof.
  revert mid. induction rel as [|seg rest IH]; intros mid; simpl; auto.
  destruct rest as [|seg' rest]; auto.
  constructor.
  - rewrite <- app_assoc. apply inside_below.
  - rewrite <- app_assoc. apply IH.
Qed.

Lemma lookup_make_dirs_other root ds q :
  Forall (fun d => inside root d = true) ds -> inside root q = false ->
  forall t, lookup (fold_left make_dir ds t) q = lookup t q.
Proof.
  intros Hds Hq. induction Hds as [|d ds Hd _ IH]; intros t; simpl; auto.
  rewrite IH. apply lookup_make_dir_other. eauto using inside_differs.
Qed.

Lemma locate_inside root t text p :
  locate root t text = inr p -> inside root p = true.
Proof.
  unfold locate. destruct (realpath t (resolve root text)) as [p'|]; [|discriminate].
  destruct (inside root p') eqn:E; [|discriminate]. now intros [= <-].
Qed.

(** Whatever the argument, nothing outside the root changes. *)
Lemma outside_root_untouched root r t q :
  inside root q = false -> lookup (snd (perform root r t)) q = lookup t q.
Proof.
  intros Hq. unfold perform.
  destruct (locate root t (argument r)) as [e|p] eqn:El; [reflexivity|].
  apply locate_inside in El.
  pose proof (inside_differs _ _ _ El Hq) as Hne.
  destruct r; simpl.
  - destruct (lookup t p) as [[c| |target]|]; reflexivity.
  - rewrite Hne, lookup_remove_other by assumption.
    apply lookup_make_dirs_other with (root := root); auto.
    pose proof (parents_below root [] (skipn (List.length root) p)) as Hp.
    now rewrite app_nil_r in Hp.
  - reflexivity.
  - destruct (lookup t p); simpl; auto using lookup_remove_other.
Qed.

(** And what is read stands inside the root. *)
Lemma read_inside_root root file t c :
  fst (perform root (Read file) t) = Content c ->
  exists p, inside root p = true /\ lookup t p = Some (File c).
Proof.
  unfold perform. simpl.
  destruct (locate root t file) as [e|p] eqn:El; [discriminate|].
  apply locate_inside in El.
  destruct (lookup t p) as [[c'| |target]|] eqn:E; try discriminate.
  simpl. intros [= <-]. eauto.
Qed.

(** C9.  For every request (read, write, list, delete) whose path
    argument, resolved against the root and with its links followed,
    lies outside the root, the operation fails with the path-escape
    error and the filesystem is as it was. *)
Theorem escape_is_refused root t r p :
  realpath t (resolve root (argument r)) = Some p ->
  inside root p = false ->
  perform root r t = (Failed PathEscape, t).
Proof.
  intros Hp Hout. unfold perform, locate. now rewrite Hp, Hout.
Qed.

Lemma escape_is_refused_witness :
  (realpath demo_tree (resolve demo_root (argument (Write "../foo" "x")))
   = Some ["srv"; "foo"]
   /\ inside demo_root ["srv"; "foo"] = false)
  /\ perform demo_root (Write "../foo" "x") demo_tree = (Failed PathEscape, demo_tree).
Proof.
  split; [split; reflexivity|].
  apply (escape_is_refused demo_root demo_tree (Write "../foo" "x") ["srv"; "foo"]);
    reflexivity.
Defined.

(** The three ways out that the specification names: a path that
    climbs with [..], an absolute path, and a link that points
    outside. *)
Example escape_attempts :
  perform demo_root (Write "../foo" "x") demo_tree = (Failed PathEscape, demo_tree)
  /\ perform demo_root (Write "/etc/passwd" "x") demo_tree = (Failed PathEscape, demo_tree)
  /\ perform demo_root (Read "out/passwd") demo_tree = (Failed PathEscape, demo_tree)
  /\ perform demo_root (Delete "../../etc/passwd") demo_tree = (Failed PathEscape, demo_tree)
  /\ perform demo_root (List "..") demo_tree = (Failed PathEscape, demo_tree)
  /\ fst (perform demo_root (Read "a/../welcome.md") demo_tree) = Content "hello".
Proof. repeat split. Qed.

End SharedFsFacts.

(** * More of the code *)

(** ** Mention parser: what a mention looks like, and how texts compose *)

Module MentionLaws.
Import Mention MentionFacts.

Lemma occurrences_names s l :
  occurrences s l -> Forall mention_name l.
Proof.
  induction 1 as [|pre t post l _ [Hn _] _ IH]; constructor; auto.
Qed.

(** A name holds word characters and dashes only. *)
Lemma tail_ok_chars u :
  tail_ok u = true -> Forall (fun c => is_word c || is_dash c = true) u.
Proof.
  functional induction (tail_ok u); intros H; try discriminate.
  - constructor.
  - constructor; [now rewrite e0|auto].
  - apply andb_prop in H as [Hd H].
    constructor; [now rewrite e1, orb_true_r|].
    constructor; [now rewrite Hd|auto].
Qed.

Lemma mention_name_chars t :
  mention_name t -> Forall (fun c => is_word c || is_dash c = true) t.
Proof.
  intros H. apply mention_name_shape in H as (c & u & -> & Hc & Hu).
  constructor; [now rewrite Hc|now apply tail_ok_chars].
Qed.

(** X1.  Every name the parser returns is a name in the sense of the
    pattern: it is not empty, it starts with a word character, and it
    is made of runs of word characters joined by single dashes.  So it
    holds no [@], no space and no dot, and an agent whose display name
    holds one of these is never named in full by a mention. *)
Theorem parseMentions_names content name :
  In name (parseMentions content) ->
  mention_name (list_ascii_of_string name)
  /\ Forall (fun c => is_word c || is_dash c = true) (list_ascii_of_string name).
Proof.
  unfold parseMentions. intros Hin.
  destruct (loop_occurrences (String.length content) (list_ascii_of_string content))
    as (l & Hocc & Hloop).
  { now rewrite length_list_ascii_of_string. }
  rewrite Hloop in Hin. simpl in Hin.
  apply in_map_iff in Hin as (t & <- & Ht).
  rewrite list_ascii_of_string_of_list_ascii.
  pose proof (occurrences_names _ _ Hocc) as Hall.
  rewrite Forall_forall in Hall. specialize (Hall _ Ht).
  split; [exact Hall|now apply mention_name_chars].
Qed.

Lemma parseMentions_names_witness :
  In "multi-part-name" (parseMentions "ask @Bob or @multi-part-name.")
  /\ (mention_name (list_ascii_of_string "multi-part-name")
      /\ Forall (fun c => is_word c || is_dash c = true)
                (list_ascii_of_string "multi-part-name")).
Proof.
  split; [vm_compute; auto|].
  apply (parseMentions_names "ask @Bob or @multi-part-name." "multi-part-name").
  vm_compute; auto.
Defined.

(** Past a character that is neither a word character nor a dash a
    name does not go. *)
Lemma name_tail_sep sep b u :
  is_word sep = false -> is_dash sep = false ->
  name_tail (u ++ sep :: b) = (fst (name_tail u), snd (name_tail u) ++ sep :: b).
Proof.
  intros Hw Hd. functional induction (name_tail u); simpl.
  - now rewrite Hw, Hd.
  - rewrite e0, IHp, e1. reflexivity.
  - now rewrite e0, e1, Hw.
  - rewrite e0, e1, e3, IHp, e4. reflexivity.
  - now rewrite e0, e1, e3.
  - now rewrite e0, e1.
Qed.

Lemma exec_sep sep b a :
  is_word sep = false -> is_dash sep = false -> is_at sep = false ->
  exec (a ++ sep :: b)
  = match exec a with
    | Some (t, rest) => Some (t, rest ++ sep :: b)
    | None => exec b
    end.
Proof.
  intros Hw Hd Ha. functional induction (exec a); simpl.
  - now rewrite Ha.
  - now rewrite e0, Hw, Ha.
  - rewrite e0, e2, name_tail_sep, e3 by assumption. reflexivity.
  - rewrite e0, e2. exact IHo.
  - rewrite e0. exact IHo.
Qed.

(** One turn of the loop, with any fuel that is enough. *)
Lemma loop_step fuel s acc :
  (List.length s <= fuel)%nat ->
  loop fuel s acc
  = match exec s with
    | None => acc
    | Some (name, rest) =>
        loop (List.length rest) rest (acc ++ [string_of_list_ascii name])
    end.
Proof.
  intros H. destruct fuel as [|fuel].
  - destruct s; [reflexivity|simpl in H; lia].
  - simpl. destruct (exec s) as [[name rest]|] eqn:E; auto.
    apply loop_fuel_enough. apply exec_consumes in E. lia.
Qed.

Lemma loop_acc s acc :
  loop (List.length s) s acc = acc ++ loop (List.length s) s [].
Proof.
  destruct (loop_occurrences (List.length s) s (le_n _)) as (l & _ & H).
  now rewrite (H acc), (H []).
Qed.

Lemma loop_sep sep b :
  is_word sep = false -> is_dash sep = false -> is_at sep = false ->
  forall n a acc, (List.length a <= n)%nat ->
    loop (List.length (a ++ sep :: b)) (a ++ sep :: b) acc
    = loop (List.length b) b (loop (List.length a) a acc).
Proof.
  intros Hw Hd Ha. induction n as [|n IH]; intros a acc Hlen.
  - destruct a; [|simpl in Hlen; lia]. simpl app.
    rewrite (loop_step _ (sep :: b)) by auto. simpl exec. rewrite Ha.
    symmetry. apply loop_step. auto.
  - rewrite (loop_step _ (a ++ sep :: b)) by auto.
    rewrite exec_sep by assumption.
    rewrite (loop_step _ a acc) by auto.
    destruct (exec a) as [[t rest]|] eqn:E.
    + apply IH. apply exec_consumes in E. lia.
    + symmetry. apply loop_step. auto.
Qed.

Lemma list_ascii_of_string_app a b :
  list_ascii_of_string (a ++ b) = list_ascii_of_string a ++ list_ascii_of_string b.
Proof. induction a as [|c a IH]; simpl; congruence. Qed.

(** X2.  Two texts joined by a character that is neither a word
    character, nor a dash, nor an [@] (a space, a newline, a comma)
    have the mentions of the first followed by the mentions of the
    second: no mention is lost, made or changed at the seam. *)
Theorem parseMentions_joined (a b : string) (sep : ascii) :
  is_word sep = false -> is_dash sep = false -> is_at sep = false ->
  parseMentions (a ++ String sep b) = parseMentions a ++ parseMentions b.
Proof.
  intros Hw Hd Ha. unfold parseMentions.
  rewrite <- !length_list_ascii_of_string, list_ascii_of_string_app. simpl.
  rewrite (loop_sep sep _ Hw Hd Ha _ _ [] (le_n _)).
  apply loop_acc.
Qed.

Lemma parseMentions_joined_witness :
  (is_word " " = false /\ is_dash " " = false /\ is_at " " = false)
  /\ parseMentions ("see @Bob-" ++ String " " "@ann, @Bob")
     = parseMentions "see @Bob-" ++ parseMentions "@ann, @Bob".
Proof.
  split; [repeat split|].
  apply (parseMentions_joined "see @Bob-" "@ann, @Bob" " "); reflexivity.
Defined.

End MentionLaws.

(** ** Joining *)

Lemma JsSet_add_In s x : In x (JsSet.add s x).
Proof.
  unfold JsSet.add, JsSet.has. destruct (existsb (String.eqb x) s) eqn:E.
  - apply existsb_exists in E as (y & Hy & Exy).
    apply String.eqb_eq in Exy. now subst.
  - apply in_or_app. right. now left.
Qed.

Lemma JsSet_add_keeps s x y : In y s -> In y (JsSet.add s x).
Proof.
  unfold JsSet.add. destruct (JsSet.has s x); auto. intros H.
  apply in_or_app. now left.
Qed.

Lemma JsSet_add_size s x :
  JsSet.size (JsSet.add s x)
  = (JsSet.size s + if JsSet.has s x then 0 else 1)%nat.
Proof.
  unfold JsSet.add, JsSet.size. destruct (JsSet.has s x).
  - lia.
  - now rewrite length_app.
Qed.

(** What [join] does, in a state where every room has a message list. *)
Lemma join_effect rt r a n c st :
  logged (rooms st) (messages st) ->
  exists agent m,
    fst (join rt r a n c st)
    = Ok {| jb_roomName := r; jb_agentId := a;
            jb_currentAgents :=
              map (JsMap.get (agents (snd (join rt r a n c st))))
                  (JsSet.add (members_of st r) a) |}
    /\ agents (snd (join rt r a n c st)) = JsMap.set (agents st) a agent
    /\ (agent_id agent = a /\ agent_name agent = n /\ agent_room agent = r
        /\ agent_capabilities agent = c /\ agent_socketId agent = None
        /\ agent_status agent = "active")
    /\ members_of (snd (join rt r a n c st)) r = JsSet.add (members_of st r) a
    /\ (forall r', r' <> r ->
          JsMap.get (rooms (snd (join rt r a n c st))) r' = JsMap.get (rooms st) r')
    /\ JsMap.get (messages (snd (join rt r a n c st))) r
       = Some ((if JsMap.has (rooms st) r then log_of st r else []) ++ [m])
    /\ (forall r', r' <> r ->
          JsMap.get (messages (snd (join rt r a n c st))) r'
          = JsMap.get (messages st) r')
    /\ (msg_type m = TSystem /\ msg_content m = (n ++ " has joined the room")%string
        /\ msg_room m = r /\ msg_agentId m = None).
Proof.
  intros Hl. unfold join, getRoom, members_of, log_of. hub_step.
  destruct (JsMap.has (rooms st) r) eqn:Hk.
  - destruct (JsMapFacts.has_get _ _ Hk) as [room Er]. rewrite Er.
    destruct (JsMapFacts.has_get _ _ (Hl _ Hk)) as [log El]. rewrite El.
    hub_fields.
    match goal with |- context [@cons Message ?m nil] => set (jm := m) end.
    match goal with |- context [JsMap.set (agents st) a ?x] => set (ag := x) end.
    exists ag, jm. hub_fields.
    rewrite !JsMapFacts.get_set_same. simpl.
    repeat split; auto.
    + intros r' Hr. apply JsMapFacts.get_set_other. congruence.
    + intros r' Hr. apply JsMapFacts.get_set_other. congruence.
  - assert (Er : JsMap.get (rooms st) r = None).
    { unfold JsMap.has in Hk. destruct (JsMap.get (rooms st) r); [discriminate|auto]. }
    rewrite Er. skip_setupFileWatcher. rewrite Kr.
    rewrite JsMapFacts.get_set_same. hub_fields.
    rewrite Km. rewrite JsMapFacts.get_set_same. hub_fields.
    match goal with |- context [@cons Message ?m nil] => set (jm := m) end.
    match goal with |- context [JsMap.set (agents ?h) a ?x] => set (ag := x) end.
    exists ag, jm. hub_fields.
    rewrite ?Ka, ?Kr, ?Km. rewrite !JsMapFacts.get_set_same. simpl.
    repeat split; auto.
    + intros r' Hr. rewrite !JsMapFacts.get_set_other by congruence. reflexivity.
    + intros r' Hr. rewrite !JsMapFacts.get_set_other by congruence. reflexivity.
Qed.

(** X3.  In every state a run of the hub reaches, [join] succeeds for
    any room name, agent id and agent name.  Afterwards the agent is
    registered under its id with the given name and room and no socket,
    its id is in the room's set of agents, the answer's [currentAgents]
    holds it, and the message list of the room (empty if the room is
    new) has grown by exactly one system message
    "<name> has joined the room". *)
Theorem join_always_succeeds rt ops r a n c :
  exists agent m,
    fst (join rt r a n c (run rt ops))
    = Ok {| jb_roomName := r; jb_agentId := a;
            jb_currentAgents :=
              map (JsMap.get (agents (snd (join rt r a n c (run rt ops)))))
                  (JsSet.add (members_of (run rt ops) r) a) |}
    /\ JsMap.get (agents (snd (join rt r a n c (run rt ops)))) a = Some agent
    /\ (agent_id agent = a /\ agent_name agent = n /\ agent_room agent = r
        /\ agent_socketId agent = None)
    /\ In a (members_of (snd (join rt r a n c (run rt ops))) r)
    /\ In (Some agent)
          (map (JsMap.get (agents (snd (join rt r a n c (run rt ops)))))
               (JsSet.add (members_of (run rt ops) r) a))
    /\ JsMap.get (messages (snd (join rt r a n c (run rt ops)))) r
       = Some ((if JsMap.has (rooms (run rt ops)) r then log_of (run rt ops) r else [])
               ++ [m])
    /\ (msg_type m = TSystem /\ msg_content m = (n ++ " has joined the room")%string).
Proof.
  destruct (hub_inv_run rt ops) as [_ Hl].
  destruct (join_effect rt r a n c _ Hl)
    as (agent & m & E & Ha & (F1 & F2 & F3 & _ & F5 & _) & Hm & _ & Hlog & _ & (M1 & M2 & _)).
  exists agent, m. rewrite Ha, Hm.
  assert (Hg : JsMap.get (JsMap.set (agents (run rt ops)) a agent) a = Some agent)
    by apply JsMapFacts.get_set_same.
  repeat split; auto.
  - rewrite E, Ha. reflexivity.
  - apply JsSet_add_In.
  - apply in_map_iff. exists a. split; [exact Hg|apply JsSet_add_In].
Qed.

(** X4.  [join] touches the room that is joined and no other: the set
    of agents and the message list of every other room stay as they
    were.  In particular an agent that joins a second room is not taken
    out of the first one, which goes on counting it. *)
Theorem join_leaves_other_rooms rt ops r a n c r' :
  r' <> r ->
  members_of (snd (join rt r a n c (run rt ops))) r' = members_of (run rt ops) r'
  /\ JsMap.get (messages (snd (join rt r a n c (run rt ops)))) r'
     = JsMap.get (messages (run rt ops)) r'.
Proof.
  intros Hne. destruct (hub_inv_run rt ops) as [_ Hl].
  destruct (join_effect rt r a n c _ Hl)
    as (agent & m & _ & _ & _ & _ & Hr & _ & Hm & _).
  split; [|now apply Hm]. unfold members_of. now rewrite Hr.
Qed.

Lemma join_leaves_other_rooms_witness :
  "lab" <> "den"
  /\ (members_of (snd (join demo_rt "den" "a1" "Alice" "{}" (run demo_rt lab_two_agents))) "lab"
      = members_of (run demo_rt lab_two_agents) "lab"
      /\ JsMap.get (messages (snd (join demo_rt "den" "a1" "Alice" "{}"
                                        (run demo_rt lab_two_agents)))) "lab"
         = JsMap.get (messages (run demo_rt lab_two_agents)) "lab").
Proof.
  split; [discriminate|].
  apply (join_leaves_other_rooms demo_rt lab_two_agents "den" "a1" "Alice" "{}" "lab").
  discriminate.
Defined.

Lemma agentCount_in_listRooms st r :
  agentCount_in (fst (listRooms st)) r
  = option_map (fun room => JsSet.size (room_agents room)) (JsMap.get (rooms st) r).
Proof.
  unfold agentCount_in, listRooms, gets. simpl.
  induction (rooms st) as [|[k room] m IH]; simpl; auto.
  destruct (String.eqb k r); auto.
Qed.

(** X5.  The [agentCount] that [GET /api/rooms] reports for a room goes
    up by one when an agent joins whose id is not in the room's set,
    and stays the same when the id is already there (a second join of
    the same agent adds a message but no member); a room that is new
    starts at one. *)
Theorem join_agentCount rt ops r a n c :
  agentCount_in (fst (listRooms (snd (join rt r a n c (run rt ops))))) r
  = Some (match agentCount_in (fst (listRooms (run rt ops))) r with
          | Some k => k
          | None => 0
          end
          + (if JsSet.has (members_of (run rt ops) r) a then 0 else 1))%nat.
Proof.
  destruct (hub_inv_run rt ops) as [_ Hl].
  destruct (join_effect rt r a n c _ Hl)
    as (agent & m & _ & _ & _ & Hm & _).
  rewrite !agentCount_in_listRooms.
  unfold members_of in Hm |- *.
  destruct (JsMap.get (rooms (snd (join rt r a n c (run rt ops)))) r) as [room'|] eqn:E'.
  - simpl. rewrite Hm, JsSet_add_size.
    destruct (JsMap.get (rooms (run rt ops)) r); reflexivity.
  - exfalso. pose proof (JsSet_add_In
      (match JsMap.get (rooms (run rt ops)) r with
       | Some room => room_agents room
       | None => JsSet.empty
       end) a) as Hin.
    rewrite <- Hm in Hin. destruct Hin.
Qed.

(** ** Leaving *)

Module JsMapMore.
Section WithValue.
Context {V : Type}.
Implicit Types (m : JsMap.t V) (k : string) (v : V).

Lemma keys_set_In m k v x :
  In x (JsMap.keys (JsMap.set m k v)) <-> x = k \/ In x (JsMap.keys m).
Proof.
  unfold JsMap.keys. induction m as [|[k0 v0] m IH]; simpl.
  - intuition.
  - destruct (String.eqb k0 k) eqn:E; simpl.
    + apply String.eqb_eq in E. subst. intuition.
    + rewrite IH. intuition.
Qed.

Lemma keys_set_NoDup m k v :
  NoDup (JsMap.keys m) -> NoDup (JsMap.keys (JsMap.set m k v)).
Proof.
  unfold JsMap.keys. induction m as [|[k0 v0] m IH]; simpl; intros H.
  - constructor; [intros []|constructor].
  - inversion H as [|? ? Hn Hm]; subst.
    destruct (String.eqb k0 k) eqn:E; simpl.
    + now constructor.
    + constructor; auto. intros Hin.
      apply (keys_set_In m k v k0) in Hin as [->|Hin]; auto.
      now rewrite String.eqb_refl in E.
Qed.

Lemma keys_delete_In m k x : In x (JsMap.keys (JsMap.delete m k)) -> In x (JsMap.keys m).
Proof.
  unfold JsMap.keys. induction m as [|[k0 v0] m IH]; simpl; auto.
  destruct (String.eqb k0 k); simpl; intuition.
Qed.

Lemma keys_delete_NoDup m k :
  NoDup (JsMap.keys m) -> NoDup (JsMap.keys (JsMap.delete m k)).
Proof.
  unfold JsMap.keys. induction m as [|[k0 v0] m IH]; simpl; intros H; auto.
  inversion H as [|? ? Hn Hm]; subst.
  destruct (String.eqb k0 k); simpl; auto.
  constructor; auto. intros Hin. apply keys_delete_In in Hin. contradiction.
Qed.



Lemma get_delete_other m k k' :
  k <> k' -> JsMap.get (JsMap.delete m k) k' = JsMap.get m k'.
Proof.
  intros Hne. induction m as [|[k0 v0] m IH]; simpl; auto.
  destruct (String.eqb k0 k) eqn:E; simpl.
  - apply String.eqb_eq in E. subst.
    destruct (String.eqb k k') eqn:E'; auto.
    apply String.eqb_eq in E'. contradiction.
  - now rewrite IH.
Qed.
End WithValue.
End JsMapMore.


Lemma JsSet_delete_keeps s x y : x <> y -> In y s -> In y (JsSet.delete s x).
Proof.
  intros Hne H. unfold JsSet.delete. apply filter_In. split; auto.
  apply negb_true_iff. now apply String.eqb_neq.
Qed.

Lemma placed_agent_set (R : JsMap.t Room) (A : JsMap.t Agent) id a :
  JsMap.has R (agent_room a) = true ->
  (forall id' a', In (id', a') A -> JsMap.has R (agent_room a') = true) ->
  forall id' a', In (id', a') (JsMap.set A id a) -> JsMap.has R (agent_room a') = true.
Proof.
  intros Hr H id' a' Hin.
  apply JsMapFacts.In_set in Hin as [[= -> ->]|Hin]; eauto.
Qed.

Lemma placed_room_set (R : JsMap.t Room) (A : JsMap.t Agent) r room :
  (forall id' a', In (id', a') A -> JsMap.has R (agent_room a') = true) ->
  forall id' a', In (id', a') A -> JsMap.has (JsMap.set R r room) (agent_room a') = true.
Proof. intros H id' a' Hin. apply JsMapFacts.has_set_mono. eauto. Qed.

Lemma agents_placed_join rt r a n c st :
  hub_inv st -> agents_placed st -> agents_placed (snd (join rt r a n c st)).
Proof.
  intros [_ Hl] [Hp Hn].
  destruct (join_effect rt r a n c st Hl)
    as (agent & m & _ & Ha & (_ & _ & Hroom & _) & Hm & Hr & _).
  assert (Hhas : JsMap.has (rooms (snd (join rt r a n c st))) r = true).
  { pose proof (JsSet_add_In (members_of st r) a) as Hin. rewrite <- Hm in Hin.
    unfold members_of in Hin. unfold JsMap.has.
    destruct (JsMap.get (rooms (snd (join rt r a n c st))) r); [reflexivity|destruct Hin]. }
  split.
  - rewrite Ha. apply placed_agent_set; [now rewrite Hroom|].
    intros id' a' Hin. specialize (Hp _ _ Hin).
    destruct (String.eqb (agent_room a') r) eqn:E.
    + apply String.eqb_eq in E. now rewrite E.
    + apply String.eqb_neq in E. unfold JsMap.has in *. now rewrite Hr.
  - rewrite Ha. now apply JsMapMore.keys_set_NoDup.
Qed.

Lemma agents_placed_leave rt a st :
  agents_placed st -> agents_placed (snd (leave rt a st)).
Proof.
  intros [Hp Hn]. unfold leave. hub_step.
  destruct (JsMap.get (agents st) a) as [agent|] eqn:Eg; [|now split].
  destruct (JsMap.get (rooms st) (agent_room agent)) as [room|] eqn:Er.
  - destruct (JsMap.get (messages st) (agent_room agent)) as [log|] eqn:El.
    + unfold agents_placed. hub_fields. split.
      * intros id' a' Hin. apply JsMapFacts.In_delete in Hin.
        apply JsMapFacts.has_set_mono. eauto.
      * now apply JsMapMore.keys_delete_NoDup.
    + unfold agents_placed. hub_fields. split; auto.
      intros id' a' Hin. apply JsMapFacts.has_set_mono. eauto.
  - unfold agents_placed. hub_fields. split.
    + intros id' a' Hin. apply JsMapFacts.In_delete in Hin. eauto.
    + now apply JsMapMore.keys_delete_NoDup.
Qed.

Lemma agents_placed_send rt a c m st :
  agents_placed st -> agents_placed (snd (send rt a c m st)).
Proof.
  intros [Hp Hn]. unfold send. hub_step.
  destruct (JsMap.get (agents st) a) as [agent|] eqn:Eg; [|now split].
  destruct (JsMap.get (messages st) (agent_room agent)) as [log|] eqn:El;
    [|now split].
  skip_notify_mentions. unfold agents_placed. hub_fields. rewrite Ka, Kr.
  split.
  - apply placed_agent_set; auto. simpl.
    apply (Hp a agent). now apply JsMapFacts.get_In.
  - now apply JsMapMore.keys_set_NoDup.
Qed.

Lemma agents_placed_register s a st :
  agents_placed st -> agents_placed (snd (register s a st)).
Proof.
  intros [Hp Hn]. unfold register. hub_step.
  destruct (JsMap.get (agents st) a) as [agent|] eqn:Eg; [|now split].
  unfold agents_placed. hub_fields. split.
  - apply placed_agent_set; auto. simpl.
    apply (Hp a agent). now apply JsMapFacts.get_In.
  - now apply JsMapMore.keys_set_NoDup.
Qed.

Lemma agents_placed_ext st st' :
  rooms st' = rooms st -> agents st' = agents st ->
  agents_placed st -> agents_placed st'.
Proof. unfold agents_placed. now intros -> ->. Qed.

Lemma agents_placed_broadcast rt r c f st :
  agents_placed st -> agents_placed (snd (broadcast rt r c f st)).
Proof.
  apply agents_placed_ext; unfold broadcast; hub_step;
    destruct (JsMap.get (messages st) r); reflexivity.
Qed.

Lemma agents_placed_storeMemory rt a k v t e st :
  agents_placed st -> agents_placed (snd (storeMemory rt a k v t e st)).
Proof.
  apply agents_placed_ext; unfold storeMemory; hub_step;
    destruct (JsMap.get (agents st) a); try reflexivity;
    (destruct e as [secs|]; [destruct (Z.eqb secs 0)|]; reflexivity).
Qed.

Lemma agents_placed_file_event rt r a p st :
  agents_placed st -> agents_placed (snd (file_event rt r a p st)).
Proof.
  apply agents_placed_ext; unfold file_event; hub_step;
    destruct (existsb (String.eqb r) (fileWatcher st)); try reflexivity;
    hub_fields; destruct (JsMap.get (messages st) r); reflexivity.
Qed.

Lemma agents_of_loaded rows :
  forall st, agents (snd (forEach
                 (fun row =>
                    modify (fun st =>
                      set_rooms
                        (JsMap.set (rooms st) (rr_name row)
                           {| room_name := rr_name row;
                              room_agents := JsSet.empty;
                              room_createdAt := rr_created_at row;
                              room_isActive := Z.eqb (rr_is_active row) 1;
                              room_settings :=
                                if truthy (rr_settings row) then rr_settings row
                                else "{}" |}) st) ;;
                    modify (fun st =>
                      set_messages (JsMap.set (messages st) (rr_name row) []) st))
                 rows st)) = agents st.
Proof.
  induction rows as [|row rows IH]; intros st; simpl; auto.
  hub_step. now rewrite IH.
Qed.

Lemma agents_restart st : agents (restart st) = [].
Proof.
  unfold restart, loadDataFromDatabase. hub_step. now rewrite agents_of_loaded.
Qed.

Lemma agents_placed_restart st : agents_placed (restart st).
Proof.
  unfold agents_placed. rewrite agents_restart. split; [intros ? ? []|constructor].
Qed.

Lemma agents_placed_run rt ops : agents_placed (run rt ops).
Proof.
  unfold run.
  assert (H0 : hub_inv boot /\ agents_placed boot).
  { split; [apply hub_inv_boot|].
    unfold agents_placed. simpl. split; [intros ? ? []|constructor]. }
  revert H0. generalize boot as st.
  induction ops as [|op ops IH]; intros st [Hi Hp]; simpl; auto.
  apply IH. split; [now apply hub_inv_apply_op|].
  destruct op; simpl;
    auto using agents_placed_join, agents_placed_leave, agents_placed_send,
      agents_placed_broadcast, agents_placed_storeMemory, agents_placed_register,
      agents_placed_file_event, agents_placed_restart.
Qed.



(** ** Broadcasts and file events *)

(** X7.  A broadcast to a room that has a message list appends exactly
    one message to it, of type broadcast, with no sender id and the
    content "[<from>] <content>" ("Orchestrator" when the body names no
    sender).  The handler does not parse mentions and writes nothing to
    the database: a broadcast notifies nobody, whatever names its
    content holds, and no other list changes. *)
Theorem broadcast_known_room rt st roomName content from log :
  JsMap.get (messages st) roomName = Some log ->
  exists m,
    fst (broadcast rt roomName content from st) = Ok (msg_id m)
    /\ JsMap.get (messages (snd (broadcast rt roomName content from st))) roomName
       = Some (log ++ [m])
    /\ (forall r, r <> roomName ->
          JsMap.get (messages (snd (broadcast rt roomName content from st))) r
          = JsMap.get (messages st) r)
    /\ msg_content m
       = ("[" ++ match from with Some f => f | None => "Orchestrator" end
          ++ "] " ++ content)%string
    /\ (msg_type m = TBroadcast /\ msg_agentId m = None /\ msg_mentions m = None)
    /\ db (snd (broadcast rt roomName content from st)) = db st.
Proof.
  intros H. unfold broadcast. hub_step. rewrite H. hub_fields.
  match goal with |- context [@cons Message ?m nil] => exists m end.
  split; [reflexivity|]. simpl.
  repeat split.
  - apply JsMapFacts.get_set_same.
  - intros r Hr. apply JsMapFacts.get_set_other. congruence.
Qed.

Lemma broadcast_known_room_witness :
  JsMap.get (messages (run demo_rt [OpJoin "lab" "a1" "Alice" "{}"])) "lab"
  = Some (log_of (run demo_rt [OpJoin "lab" "a1" "Alice" "{}"]) "lab")
  /\ exists m,
    fst (broadcast demo_rt "lab" "stand up @Alice" None
                   (run demo_rt [OpJoin "lab" "a1" "Alice" "{}"])) = Ok (msg_id m)
    /\ JsMap.get (messages (snd (broadcast demo_rt "lab" "stand up @Alice" None
                                   (run demo_rt [OpJoin "lab" "a1" "Alice" "{}"])))) "lab"
       = Some (log_of (run demo_rt [OpJoin "lab" "a1" "Alice" "{}"]) "lab" ++ [m])
    /\ (forall r, r <> "lab" ->
          JsMap.get (messages (snd (broadcast demo_rt "lab" "stand up @Alice" None
                                      (run demo_rt [OpJoin "lab" "a1" "Alice" "{}"])))) r
          = JsMap.get (messages (run demo_rt [OpJoin "lab" "a1" "Alice" "{}"])) r)
    /\ msg_content m
       = ("[" ++ match @None string with Some f => f | None => "Orchestrator" end
          ++ "] " ++ "stand up @Alice")%string
    /\ (msg_type m = TBroadcast /\ msg_agentId m = None /\ msg_mentions m = None)
    /\ db (snd (broadcast demo_rt "lab" "stand up @Alice" None
                  (run demo_rt [OpJoin "lab" "a1" "Alice" "{}"])))
       = db (run demo_rt [OpJoin "lab" "a1" "Alice" "{}"]).
Proof.
  split; [vm_compute; reflexivity|].
  apply (broadcast_known_room demo_rt (run demo_rt [OpJoin "lab" "a1" "Alice" "{}"])
           "lab" "stand up @Alice" None
           (log_of (run demo_rt [OpJoin "lab" "a1" "Alice" "{}"]) "lab")).
  vm_compute; reflexivity.
Defined.

Lemma fileWatcher_of_loaded rows :
  forall st, fileWatcher (snd (forEach
                 (fun row =>
                    modify (fun st =>
                      set_rooms
                        (JsMap.set (rooms st) (rr_name row)
                           {| room_name := rr_name row;
                              room_agents := JsSet.empty;
                              room_createdAt := rr_created_at row;
                              room_isActive := Z.eqb (rr_is_active row) 1;
                              room_settings :=
                                if truthy (rr_settings row) then rr_settings row
                                else "{}" |}) st) ;;
                    modify (fun st =>
                      set_messages (JsMap.set (messages st) (rr_name row) []) st))
                 rows st)) = fileWatcher st.
Proof.
  induction rows as [|row rows IH]; intros st; simpl; auto.
  hub_step. now rewrite IH.
Qed.

Lemma fileWatcher_restart st : fileWatcher (restart st) = [].
Proof.
  unfold restart, loadDataFromDatabase. hub_step. now rewrite fileWatcher_of_loaded.
Qed.

(** X8.  Watchers are started by [getRoom] and only for a room it
    creates.  A room that start-up loaded from the database is in
    [rooms] already, so joining it after a restart starts no watcher:
    the room stays unwatched, and no change of a shared file puts a
    message into its list. *)
Theorem loaded_room_unwatched rt st r a n c action path :
  JsMap.has (rooms (restart st)) r = true ->
  fileWatcher (snd (join rt r a n c (restart st))) = []
  /\ messages (snd (file_event rt r action path (snd (join rt r a n c (restart st)))))
     = messages (snd (join rt r a n c (restart st))).
Proof.
  intros Hk.
  assert (Hw : fileWatcher (snd (join rt r a n c (restart st))) = []).
  { pose proof (fileWatcher_restart st) as Hf.
    destruct (hub_inv_restart st) as [_ Hl].
    destruct (JsMapFacts.has_get _ _ Hk) as [room Er].
    destruct (JsMapFacts.has_get _ _ (Hl _ Hk)) as [log El].
    unfold join, getRoom. hub_step. rewrite Hk, Er, El. hub_fields. exact Hf. }
  split; [exact Hw|].
  unfold file_event. hub_step. rewrite Hw. reflexivity.
Qed.

Lemma loaded_room_unwatched_witness :
  JsMap.has (rooms (restart (run demo_rt lab_hello))) "lab" = true
  /\ (fileWatcher (snd (join demo_rt "lab" "a1" "Alice" "{}"
                         (restart (run demo_rt lab_hello)))) = []
      /\ messages (snd (file_event demo_rt "lab" FileChange "notes.md"
                          (snd (join demo_rt "lab" "a1" "Alice" "{}"
                                  (restart (run demo_rt lab_hello))))))
         = messages (snd (join demo_rt "lab" "a1" "Alice" "{}"
                            (restart (run demo_rt lab_hello))))).
Proof.
  split; [vm_compute; reflexivity|].
  apply (loaded_room_unwatched demo_rt (run demo_rt lab_hello) "lab" "a1" "Alice" "{}"
           FileChange "notes.md").
  vm_compute; reflexivity.
Defined.

(** ** What [send] writes *)

Lemma notify_mentions_keeps_tbl_messages rt msg l :
  keeps (fun st => tbl_messages (db st)) (notify_mentions rt msg l).
Proof.
  unfold notify_mentions, createNotifications, build_notification,
    deliver_notification, findAgentByName.
  frame.
Qed.

(** X9.  In every state a run of the hub reaches, a [send] by a
    registered agent adds exactly one row to the table of messages, and
    the row agrees with the message appended in memory: same id (the
    [messageId] of the answer), room, sender id and name, content,
    mentions and timestamp. *)
Theorem send_persists_message rt ops a content metadata agent :
  JsMap.get (agents (run rt ops)) a = Some agent ->
  exists row m,
    tbl_messages (db (snd (send rt a content metadata (run rt ops))))
    = tbl_messages (db (run rt ops)) ++ [row]
    /\ JsMap.get (messages (snd (send rt a content metadata (run rt ops))))
                 (agent_room agent)
       = Some (log_of (run rt ops) (agent_room agent) ++ [m])
    /\ fst (send rt a content metadata (run rt ops))
       = Ok {| sb_messageId := mr_id row;
               sb_mentions := Mention.parseMentions content |}
    /\ (mr_id row = msg_id m /\ mr_timestamp row = msg_timestamp m
        /\ mr_room row = agent_room agent /\ mr_agent_id row = Some a
        /\ mr_agent_name row = agent_name agent /\ mr_content row = content
        /\ mr_mentions row = Mention.parseMentions content
        /\ mr_type row = TMessage /\ mr_metadata row = MetaClient metadata).
Proof.
  intros Ha.
  destruct (hub_inv_run rt ops) as [Hh _].
  pose proof (Hh _ _ (JsMapFacts.get_In _ _ _ Ha)) as Hm.
  apply JsMapFacts.has_get in Hm as [log Hl].
  unfold send, log_of. hub_step. rewrite Ha, Hl.
  match goal with
  | |- context [notify_mentions ?r ?m ?l ?s] =>
      pose proof (notify_mentions_keeps_messages r m l s) as Km;
      pose proof (notify_mentions_keeps_tbl_messages r m l s) as Kd;
      destruct (notify_mentions r m l s) as [u s2]
  end.
  hub_fields. simpl in Kd.
  match type of Km with _ = JsMap.set _ _ (_ ++ [?m]) =>
    exists (message_row m (agent_name agent) (Mention.parseMentions content)
                        (MetaClient metadata)), m
  end.
  rewrite Kd, Km, JsMapFacts.get_set_same. simpl.
  repeat split.
Qed.

Lemma send_persists_message_witness :
  JsMap.get (agents (run demo_rt lab_two_agents)) "a1"
  = Some {| agent_id := "a1"; agent_name := "Alice"; agent_room := "lab";
            agent_capabilities := "{}";
            agent_joinedAt := "2026-11-02T08:18:05.000Z";
            agent_lastActive := "2026-11-02T08:18:10.000Z";
            agent_socketId := None; agent_status := "active" |}
  /\ exists row m,
    tbl_messages (db (snd (send demo_rt "a1" "hello @Bob" "{}" (run demo_rt lab_two_agents))))
    = tbl_messages (db (run demo_rt lab_two_agents)) ++ [row]
    /\ JsMap.get (messages (snd (send demo_rt "a1" "hello @Bob" "{}"
                                      (run demo_rt lab_two_agents)))) "lab"
       = Some (log_of (run demo_rt lab_two_agents) "lab" ++ [m])
    /\ fst (send demo_rt "a1" "hello @Bob" "{}" (run demo_rt lab_two_agents))
       = Ok {| sb_messageId := mr_id row;
               sb_mentions := Mention.parseMentions "hello @Bob" |}
    /\ (mr_id row = msg_id m /\ mr_timestamp row = msg_timestamp m
        /\ mr_room row = "lab" /\ mr_agent_id row = Some "a1"
        /\ mr_agent_name row = "Alice" /\ mr_content row = "hello @Bob"
        /\ mr_mentions row = Mention.parseMentions "hello @Bob"
        /\ mr_type row = TMessage /\ mr_metadata row = MetaClient "{}").
Proof.
  split; [vm_compute; reflexivity|].
  apply (send_persists_message demo_rt lab_two_agents "a1" "hello @Bob" "{}"
           {| agent_id := "a1"; agent_name := "Alice"; agent_room := "lab";
              agent_capabilities := "{}";
              agent_joinedAt := "2026-11-02T08:18:05.000Z";
              agent_lastActive := "2026-11-02T08:18:10.000Z";
              agent_socketId := None; agent_status := "active" |}).
  vm_compute; reflexivity.
Defined.

(** ** Queries: order and content *)

Module QueryFacts.
Import Stdlib.Sorting.Sorted Stdlib.Sorting.Permutation Stdlib.Structures.OrderedTypeEx.

Section WithRows.
Context {A : Type} (key : A -> string).

Lemma insert_desc_perm x l : Permutation (x :: l) (Sql.insert_desc key x l).
Proof.
  induction l as [|y l IH]; simpl; auto.
  destruct (Sql.text_gt (key y) (key x) || String.eqb (key y) (key x)); auto.
  rewrite perm_swap. now constructor.
Qed.

Lemma order_desc_perm l : Permutation l (Sql.order_desc key l).
Proof.
  unfold Sql.order_desc.
  assert (H : forall acc, Permutation (l ++ acc)
                (fold_left (fun acc x => Sql.insert_desc key x acc) l acc)).
  { induction l as [|x l IH]; intros acc; simpl; auto.
    rewrite <- IH. rewrite <- insert_desc_perm.
    now rewrite Permutation_middle. }
  specialize (H []). now rewrite app_nil_r in H.
Qed.

Lemma order_desc_In l x : In x (Sql.order_desc key l) <-> In x l.
Proof.
  split; apply Permutation_in; [symmetry|]; apply order_desc_perm.
Qed.
End WithRows.

Lemma text_ge_total a b : text_ge a b = false -> text_ge b a = true.
Proof.
  unfold text_ge, Sql.text_gt, String.ltb. intros H.
  apply orb_false_iff in H as [H Hne].
  pose proof (String_as_OT.cmp_antisym a b) as Hop. unfold String_as_OT.cmp in Hop.
  rewrite Hop.
  destruct (String.compare b a) eqn:E; simpl in *; try discriminate; auto.
  apply String_as_OT.cmp_eq in E. subst. now rewrite String.eqb_refl in Hne.
Qed.

Lemma text_ge_spec a b :
  text_ge a b = true <-> String_as_OT.lt b a \/ a = b.
Proof.
  unfold text_ge, Sql.text_gt, String.ltb.
  rewrite orb_true_iff, String.eqb_eq. split; intros [H|H]; auto; left.
  - apply String_as_OT.cmp_lt. unfold String_as_OT.cmp.
    destruct (String.compare b a); auto; discriminate.
  - apply String_as_OT.cmp_lt in H. unfold String_as_OT.cmp in H. now rewrite H.
Qed.

Lemma text_ge_trans a b c :
  text_ge a b = true -> text_ge b c = true -> text_ge a c = true.
Proof.
  rewrite !text_ge_spec. intros [H1| ->] [H2| ->]; auto.
  left. eapply String_as_OT.lt_trans; eauto.
Qed.

Section Sorting.
Context {A : Type} (key : A -> string).

Lemma insert_desc_sorted x l :
  StronglySorted (newer_first key) l -> StronglySorted (newer_first key) (Sql.insert_desc key x l).
Proof.
  induction 1 as [|y l Hl IH Hy]; simpl.
  - repeat constructor.
  - fold (text_ge (key y) (key x)).
    destruct (text_ge (key y) (key x)) eqn:E.
    + constructor; auto.
      rewrite Forall_forall in *. intros z Hz.
      apply (Permutation_in _ (Permutation_sym (insert_desc_perm key x l))) in Hz.
      destruct Hz as [<-|Hz]; auto.
    + apply text_ge_total in E.
      constructor; [constructor; auto|].
      constructor; auto.
      rewrite Forall_forall in *. intros z Hz.
      eapply text_ge_trans; [exact E|]. now apply Hy.
Qed.

Lemma order_desc_sorted l : StronglySorted (newer_first key) (Sql.order_desc key l).
Proof.
  unfold Sql.order_desc.
  assert (H : forall acc, StronglySorted (newer_first key) acc ->
                StronglySorted (newer_first key)
                  (fold_left (fun acc x => Sql.insert_desc key x acc) l acc)).
  { induction l as [|x l IH]; intros acc Hacc; simpl; auto.
    apply IH. now apply insert_desc_sorted. }
  apply H. constructor.
Qed.
End Sorting.
End QueryFacts.

(** ** History: the [since] parameter *)

Lemma skipn_In {A} n (l : list A) x : In x (skipn n l) -> In x l.
Proof.
  revert l. induction n as [|n IH]; intros [|y l]; simpl; auto.
Qed.

Lemma slice_from_In {A} (start : option Z) (l : list A) x :
  In x (Js.slice_from start l) -> In x l.
Proof. unfold Js.slice_from. apply skipn_In. Qed.

(** X10.  With a [since] parameter that is not empty, every message
    the history returns is a message of the room whose timestamp the
    date parser reads and places strictly after the instant it reads
    from [since].  So a [since] the parser cannot read returns no
    message at all, not the whole history, and a [since] in the future
    returns none either. *)
Theorem history_since_filters rt st room text limit :
  truthy text = true ->
  (forall m, In m (fst (history rt room (Some text) limit st)) ->
     In m (log_of st room)
     /\ exists t sinceTime,
          Date_getTime rt (msg_timestamp m) = Some t
          /\ Date_getTime rt text = Some sinceTime
          /\ (sinceTime < t)%Z)
  /\ (Date_getTime rt text = None ->
      fst (history rt room (Some text) limit st) = []).
Proof.
  intros Ht. unfold history, messages_since, log_of. hub_step. rewrite Ht. split.
  - intros m Hin. apply slice_from_In in Hin. apply filter_In in Hin as [Hin Hc].
    split; [exact Hin|].
    destruct (Date_getTime rt (msg_timestamp m)) as [t|]; [|discriminate].
    destruct (Date_getTime rt text) as [s|]; [|discriminate].
    exists t, s. repeat split. now apply Z.ltb_lt.
  - intros Hnone.
    assert (E : filter
                  (fun m => match Date_getTime rt (msg_timestamp m), Date_getTime rt text with
                            | Some t, Some sinceTime => Z.ltb sinceTime t
                            | _, _ => false
                            end)
                  match JsMap.get (messages st) room with Some l => l | None => [] end
                = []).
    { rewrite Hnone. induction (match JsMap.get (messages st) room with
                                | Some l => l | None => [] end) as [|m l IH]; simpl; auto.
      destruct (Date_getTime rt (msg_timestamp m)); auto. }
    rewrite E. unfold Js.slice_from. apply skipn_nil.
Qed.

Lemma history_since_filters_witness :
  truthy "yesterday" = true
  /\ ((forall m, In m (fst (history demo_rt "lab" (Some "yesterday") None
                                    (run demo_rt lab_hello))) ->
         In m (log_of (run demo_rt lab_hello) "lab")
         /\ exists t sinceTime,
              Date_getTime demo_rt (msg_timestamp m) = Some t
              /\ Date_getTime demo_rt "yesterday" = Some sinceTime
              /\ (sinceTime < t)%Z)
      /\ (Date_getTime demo_rt "yesterday" = None ->
          fst (history demo_rt "lab" (Some "yesterday") None (run demo_rt lab_hello)) = [])).
Proof.
  split; [reflexivity|].
  apply (history_since_filters demo_rt (run demo_rt lab_hello) "lab" "yesterday" None).
  reflexivity.
Defined.

(** ** Notifications: reading and listing *)

Lemma map_unmatched id (l : list NotificationRow) :
  ~ In id (map nr_id l) ->
  map (fun n => if String.eqb (nr_id n) id then Sql.mark_read n else n) l = l.
Proof.
  induction l as [|n l IH]; simpl; intros H; auto.
  destruct (String.eqb (nr_id n) id) eqn:E.
  - apply String.eqb_eq in E. intuition.
  - f_equal. apply IH. intuition.
Qed.

Lemma filter_unmatched id (l : list NotificationRow) :
  ~ In id (map nr_id l) -> filter (fun n => String.eqb (nr_id n) id) l = [].
Proof.
  induction l as [|n l IH]; simpl; intros H; auto.
  destruct (String.eqb (nr_id n) id) eqn:E.
  - apply String.eqb_eq in E. intuition.
  - apply IH. intuition.
Qed.

(** X11.  Marking as read an id that no row of the table bears is not
    an error: the handler answers success with [updated = false], and
    the state is exactly as before. *)
Theorem markNotificationRead_unknown st id :
  ~ In id (map nr_id (tbl_notifications (db st))) ->
  markNotificationRead id st = (Ok false, st).
Proof.
  intros H. unfold markNotificationRead, Sql.update_notification_read. hub_step.
  rewrite (map_unmatched _ _ H), (filter_unmatched _ _ H). simpl.
  f_equal. destruct st as [r a m f d e u c]. destruct d. reflexivity.
Qed.

Lemma markNotificationRead_unknown_witness :
  (In "uuid-9999" (map nr_id (tbl_notifications (db (run demo_rt lab_hello)))) -> False)
  /\ markNotificationRead "uuid-9999" (run demo_rt lab_hello)
     = (Ok false, run demo_rt lab_hello).
Proof.
  assert (H : ~ In "uuid-9999" (map nr_id (tbl_notifications (db (run demo_rt lab_hello))))).
  { vm_compute. intros [H|[]]. discriminate. }
  split; [exact H|].
  apply (markNotificationRead_unknown (run demo_rt lab_hello) "uuid-9999"). exact H.
Defined.

Lemma firstn_In {A} n (l : list A) x : In x (firstn n l) -> In x l.
Proof.
  revert l. induction n as [|n IH]; intros [|y l]; simpl; intuition.
Qed.



Lemma filter_map_commute {A} (f : A -> A) (p : A -> bool) (l : list A) :
  (forall x, p (f x) = p x) -> filter p (map f l) = map f (filter p l).
Proof.
  intros H. induction l as [|x l IH]; simpl; auto.
  rewrite H. destruct (p x); simpl; now rewrite IH.
Qed.

Lemma insert_desc_map {A} (key : A -> string) (f : A -> A) x l :
  (forall y, key (f y) = key y) ->
  Sql.insert_desc key (f x) (map f l) = map f (Sql.insert_desc key x l).
Proof.
  intros H. induction l as [|y l IH]; simpl; auto.
  rewrite !H. destruct (Sql.text_gt (key y) (key x) || String.eqb (key y) (key x));
    simpl; now rewrite ?IH.
Qed.

Lemma order_desc_map {A} (key : A -> string) (f : A -> A) l :
  (forall y, key (f y) = key y) ->
  Sql.order_desc key (map f l) = map f (Sql.order_desc key l).
Proof.
  intros H. unfold Sql.order_desc.
  assert (G : forall acc,
             fold_left (fun acc x => Sql.insert_desc key x acc) (map f l) (map f acc)
             = map f (fold_left (fun acc x => Sql.insert_desc key x acc) l acc)).
  { induction l as [|x l IH]; intros acc; simpl; auto.
    rewrite insert_desc_map by assumption. apply IH. }
  apply (G []).
Qed.

(** X13.  Once a notification has been marked read, the list asked for
    with [unreadOnly=true] holds no row of that id, for any agent; the
    list asked for without the parameter still holds the same
    notifications in the same order. *)
Theorem read_notification_leaves_unread_list st id agentId :
  (forall n, In n (fst (getNotifications agentId (Some "true")
                          (snd (markNotificationRead id st)))) ->
             nr_id n <> id)
  /\ map nr_id (fst (getNotifications agentId None (snd (markNotificationRead id st))))
     = map nr_id (fst (getNotifications agentId None st)).
Proof.
  unfold getNotifications, select_notifications, markNotificationRead,
    Sql.update_notification_read.
  hub_step. cbn [Sql.set_tbl_notifications tbl_notifications]. split.
  - intros n Hin Hid. cbn [fst] in Hin. apply firstn_In in Hin.
    apply QueryFacts.order_desc_In in Hin.
    apply filter_In in Hin as [Hin Hc]. apply andb_prop in Hc as [_ Hu].
    apply negb_true_iff in Hu.
    pose proof (update_read_rows id _ n Hin Hid). congruence.
  - set (f := fun n => if String.eqb (nr_id n) id then Sql.mark_read n else n).
    assert (Hk : forall y, nr_created_at (f y) = nr_created_at y).
    { intros y. unfold f. now destruct (String.eqb (nr_id y) id). }
    assert (Hi : forall y, nr_id (f y) = nr_id y).
    { intros y. unfold f. now destruct (String.eqb (nr_id y) id). }
    rewrite filter_map_commute.
    2:{ intros y. unfold f. now destruct (String.eqb (nr_id y) id). }
    rewrite order_desc_map by assumption.
    rewrite firstn_map, map_map.
    apply map_ext. exact Hi.
Qed.

(** ** Stored memory *)

Ltac frame_cases :=
  frame;
  try (intros ?st; cbv [modify snd mapM forEach bind ret gets];
       repeat match goal with
              | |- context [if ?b then _ else _] => destruct b
              | |- context [match ?x with _ => _ end] => destruct x
              end;
       reflexivity).

(** Only [storeMemory] writes to the table of memories. *)

Lemma join_keeps_memory rt r a n c : keeps memory_table (join rt r a n c).
Proof.
  unfold join, getRoom, setupFileWatcher, push_message_if_any, push_message.
  frame_cases.
Qed.

Lemma leave_keeps_memory rt a : keeps memory_table (leave rt a).
Proof.
  unfold leave, push_message_if_any, push_message. frame_cases.
Qed.

Lemma send_keeps_memory rt a c m : keeps memory_table (send rt a c m).
Proof.
  unfold send, notify_mentions, createNotifications, build_notification,
    deliver_notification, findAgentByName, push_message_if_any, push_message.
  frame_cases.
Qed.

Lemma broadcast_keeps_memory rt r c f : keeps memory_table (broadcast rt r c f).
Proof.
  unfold broadcast, push_message_if_any, push_message. frame_cases.
Qed.

Lemma getMemory_keeps_memory rt a k t : keeps memory_table (getMemory rt a k t).
Proof. unfold getMemory. frame_cases. Qed.

Lemma markNotificationRead_keeps_memory n : keeps memory_table (markNotificationRead n).
Proof. unfold markNotificationRead. frame_cases. Qed.

Lemma register_keeps_memory s a : keeps memory_table (register s a).
Proof. unfold register. frame_cases. Qed.

Lemma file_event_keeps_memory rt r a p : keeps memory_table (file_event rt r a p).
Proof.
  unfold file_event, push_message_if_any, push_message. frame_cases.
Qed.

Lemma loadDataFromDatabase_keeps_memory : keeps memory_table loadDataFromDatabase.
Proof. unfold loadDataFromDatabase. frame_cases. Qed.

Lemma memory_table_apply_op rt op st :
  incl (memory_table st) (memory_table (apply_op rt op st)).
Proof.
  destruct op; cbn [apply_op];
    try (match goal with
         | |- incl _ (memory_table (snd (?m st))) =>
             let K := fresh in
             assert (K : keeps memory_table m)
               by auto using join_keeps_memory, leave_keeps_memory,
                    send_keeps_memory, broadcast_keeps_memory,
                    getMemory_keeps_memory, markNotificationRead_keeps_memory,
                    register_keeps_memory, file_event_keeps_memory;
             rewrite K; apply incl_refl
         end).
  - unfold storeMemory, memory_table. hub_step.
    destruct (JsMap.get (agents st) agentId); [|apply incl_refl].
    destruct expiresIn as [secs|]; [destruct (Z.eqb secs 0)|];
      hub_fields; cbn [Sql.insert_memory Sql.set_tbl_agent_memory tbl_agent_memory];
      apply incl_appl, incl_refl.
  - unfold restart. rewrite loadDataFromDatabase_keeps_memory. apply incl_refl.
Qed.

Lemma memory_table_after rt ops st :
  incl (memory_table st) (memory_table (after rt ops st)).
Proof.
  unfold after. revert st. induction ops as [|op ops IH]; intros st; simpl.
  - apply incl_refl.
  - eapply incl_tran; [apply memory_table_apply_op|apply IH].
Qed.

Lemma getMemory_returns rt st agentId key type m :
  In m (memory_table st) -> mem_agent_id m = agentId ->
  mem_expires_at m = None ->
  (key = None \/ key = Some "" \/ key = Some (mem_key m)) ->
  (type = None \/ type = Some "" \/ type = Some (mem_type m)) ->
  In m (fst (getMemory rt agentId key type st)).
Proof.
  unfold getMemory, Sql.select_memory, memory_table. hub_step.
  intros Hin Ha He Hk Ht. apply QueryFacts.order_desc_In.
  apply filter_In. split; auto.
  rewrite He. apply String.eqb_eq in Ha. rewrite Ha. simpl.
  apply andb_true_intro. split.
  - destruct Hk as [->|[->| ->]]; simpl; auto.
    unfold given. destruct (truthy (mem_key m)); auto. apply String.eqb_refl.
  - destruct Ht as [->|[->| ->]]; simpl; auto.
    unfold given. destruct (truthy (mem_type m)); auto. apply String.eqb_refl.
Qed.

(** X14.  What [GET /api/memory/:agentId] returns: only rows of the
    table that belong to the agent asked for, with the key and the type
    of the query when these are given and not empty, the newest first;
    every row of that agent that has no expiry and fits the query is
    among them.  The handler does not look the agent up, and an empty
    [key] or [type] parameter is the same as none. *)
Theorem getMemory_lists rt st agentId key type :
  (forall m, In m (fst (getMemory rt agentId key type st)) ->
     In m (memory_table st) /\ mem_agent_id m = agentId
     /\ (forall k, key = Some k -> k <> "" -> mem_key m = k)
     /\ (forall t, type = Some t -> t <> "" -> mem_type m = t))
  /\ (forall m, In m (memory_table st) -> mem_agent_id m = agentId ->
        mem_expires_at m = None ->
        (key = None \/ key = Some "" \/ key = Some (mem_key m)) ->
        (type = None \/ type = Some "" \/ type = Some (mem_type m)) ->
        In m (fst (getMemory rt agentId key type st)))
  /\ Stdlib.Sorting.Sorted.StronglySorted (newer_first mem_created_at)
       (fst (getMemory rt agentId key type st))
  /\ fst (getMemory rt agentId (Some "") type st)
     = fst (getMemory rt agentId None type st)
  /\ fst (getMemory rt agentId key (Some "") st)
     = fst (getMemory rt agentId key None st).
Proof.
  split; [|split; [|split; [|split]]];
    [| |unfold getMemory, Sql.select_memory, memory_table; hub_step ..].
  - unfold getMemory, Sql.select_memory, memory_table. hub_step.
    intros m Hin. apply QueryFacts.order_desc_In in Hin.
    apply filter_In in Hin as [Hin Hc].
    apply andb_prop in Hc as [Hc Ht]. apply andb_prop in Hc as [Hc Hk].
    apply andb_prop in Hc as [Ha _]. apply String.eqb_eq in Ha.
    repeat split; auto.
    + intros k -> Hne. unfold given, truthy in Hk.
      apply String.eqb_neq in Hne. rewrite Hne in Hk. simpl in Hk.
      now apply String.eqb_eq.
    + intros t -> Hne. unfold given, truthy in Ht.
      apply String.eqb_neq in Hne. rewrite Hne in Ht. simpl in Ht.
      now apply String.eqb_eq.
  - intros m. apply getMemory_returns.
  - apply QueryFacts.order_desc_sorted.
  - reflexivity.
  - reflexivity.
Qed.

(** X15.  A memory stored without expiry ([expiresIn] absent or 0) is
    never lost: whatever requests follow, a restart of the hub among
    them, every later [GET /api/memory] of that agent, with no filter or
    with the key or the type it was stored under, returns it. *)
Theorem permanent_memory_stays rt st agentId key value type expiresIn m ops k t :
  fst (storeMemory rt agentId key value type expiresIn st) = Ok m ->
  expiresIn = None \/ expiresIn = Some 0%Z ->
  k = None \/ k = Some key ->
  t = None \/ t = Some (mem_type m) ->
  In m (fst (getMemory rt agentId k t
               (after rt ops (snd (storeMemory rt agentId key value type expiresIn st))))).
Proof.
  intros Hok He Hk Ht.
  assert (Hm : In m (memory_table (snd (storeMemory rt agentId key value type expiresIn st)))
               /\ mem_agent_id m = agentId /\ mem_expires_at m = None
               /\ mem_key m = key).
  { revert Hok. unfold storeMemory, memory_table. hub_step.
    destruct (JsMap.get (agents st) agentId); [|discriminate].
    destruct He as [-> | ->]; hub_fields;
      cbn [Sql.insert_memory Sql.set_tbl_agent_memory tbl_agent_memory];
      intros [= <-]; cbn; (split; [apply in_or_app; right; left; reflexivity|auto]). }
  destruct Hm as (Hin & Ha & Hx & Hkey).
  apply getMemory_returns; auto.
  - now apply memory_table_after.
  - destruct Hk as [->| ->]; auto. rewrite Hkey. auto.
  - destruct Ht as [->| ->]; auto.
Qed.

Lemma permanent_memory_stays_witness :
  fst (storeMemory demo_rt "a1" "plan" "ship on friday" None (Some 0%Z)
         (run demo_rt lab_two_agents))
  = Ok {| mem_id := "uuid-0003"; mem_agent_id := "a1"; mem_room := "lab";
          mem_key := "plan"; mem_value := "ship on friday"; mem_type := "note";
          mem_created_at := "2026-11-02T08:18:35.000Z"; mem_expires_at := None |}
  /\ (@None Z = None \/ Some 0%Z = Some 0%Z)
  /\ (@None string = None \/ Some "plan" = Some "plan")
  /\ (Some "note" = @None string \/ Some "note" = Some "note")
  /\ In {| mem_id := "uuid-0003"; mem_agent_id := "a1"; mem_room := "lab";
           mem_key := "plan"; mem_value := "ship on friday"; mem_type := "note";
           mem_created_at := "2026-11-02T08:18:35.000Z"; mem_expires_at := None |}
        (fst (getMemory demo_rt "a1" (Some "plan") (Some "note")
                (after demo_rt [OpLeave "a1"; OpRestart; OpJoin "den" "a3" "Carol" "{}"]
                   (snd (storeMemory demo_rt "a1" "plan" "ship on friday" None
                           (Some 0%Z) (run demo_rt lab_two_agents)))))).
Proof.
  split; [vm_compute; reflexivity|].
  split; [right; reflexivity|].
  split; [right; reflexivity|].
  split; [right; reflexivity|].
  apply (permanent_memory_stays demo_rt (run demo_rt lab_two_agents) "a1" "plan"
           "ship on friday" None (Some 0%Z)
           {| mem_id := "uuid-0003"; mem_agent_id := "a1"; mem_room := "lab";
              mem_key := "plan"; mem_value := "ship on friday"; mem_type := "note";
              mem_created_at := "2026-11-02T08:18:35.000Z"; mem_expires_at := None |}
           [OpLeave "a1"; OpRestart; OpJoin "den" "a3" "Carol" "{}"]
           (Some "plan") (Some "note")).
  - vm_compute; reflexivity.
  - right; reflexivity.
  - right; reflexivity.
  - right; reflexivity.
Defined.




(** ** The agents of a room *)

Lemma roomAgents_In st r room x :
  JsMap.get (rooms st) r = Some room ->
  (exists l, fst (roomAgents r st) = Ok l
             /\ (In x l <-> exists id, In id (room_agents room)
                                       /\ JsMap.get (agents st) id = Some x)).
Proof.
  intros Hr. unfold roomAgents. hub_step. rewrite Hr. hub_fields.
  eexists. split; [reflexivity|].
  rewrite in_flat_map. split.
  - intros (id & Hin & Hx). exists id. split; auto.
    destruct (JsMap.get (agents st) id); simpl in Hx; [|contradiction].
    destruct Hx as [->|[]]. reflexivity.
  - intros (id & Hin & Hx). exists id. split; auto. rewrite Hx. now left.
Qed.

(** X17.  An agent that joins a second room under the same id is still
    listed by [GET /api/agents/:room] of the first one, now with the
    second room as its [room]; the list of the room it joined holds it
    too.  So the lists of two rooms can share an agent, and an agent in
    the list of a room need not have that room as its own. *)
Theorem roomAgents_after_second_join rt ops r1 r2 a n c :
  In a (members_of (run rt ops) r1) ->
  r1 <> r2 ->
  exists agent l1 l2,
    JsMap.get (agents (snd (join rt r2 a n c (run rt ops)))) a = Some agent
    /\ agent_room agent = r2
    /\ fst (roomAgents r1 (snd (join rt r2 a n c (run rt ops)))) = Ok l1
    /\ In agent l1
    /\ fst (roomAgents r2 (snd (join rt r2 a n c (run rt ops)))) = Ok l2
    /\ In agent l2.
Proof.
  intros Hin Hne.
  destruct (hub_inv_run rt ops) as [_ Hl].
  destruct (join_effect rt r2 a n c _ Hl)
    as (agent & m & _ & Ha & (_ & _ & Hroom & _) & Hm2 & Hr & _).
  assert (Hg : JsMap.get (agents (snd (join rt r2 a n c (run rt ops)))) a = Some agent).
  { rewrite Ha. apply JsMapFacts.get_set_same. }
  unfold members_of in Hin, Hm2.
  destruct (JsMap.get (rooms (run rt ops)) r1) as [room1|] eqn:E1; [|contradiction].
  assert (E1' : JsMap.get (rooms (snd (join rt r2 a n c (run rt ops)))) r1 = Some room1).
  { rewrite Hr; auto. }
  destruct (JsMap.get (rooms (snd (join rt r2 a n c (run rt ops)))) r2)
    as [room2|] eqn:E2.
  2:{ exfalso. pose proof (JsSet_add_In (match JsMap.get (rooms (run rt ops)) r2 with
                                         | Some room => room_agents room
                                         | None => JsSet.empty end) a) as K.
      rewrite <- Hm2 in K. exact K. }
  destruct (roomAgents_In _ r1 room1 agent E1') as (l1 & Hl1 & H1).
  destruct (roomAgents_In _ r2 room2 agent E2) as (l2 & Hl2 & H2).
  exists agent, l1, l2. repeat split; auto.
  - apply H1. exists a. split; auto.
  - apply H2. exists a. split; auto. rewrite Hm2. apply JsSet_add_In.
Qed.

Lemma roomAgents_after_second_join_witness :
  In "a1" (members_of (run demo_rt lab_two_agents) "lab")
  /\ "lab" <> "den"
  /\ exists agent l1 l2,
       JsMap.get (agents (snd (join demo_rt "den" "a1" "Alice" "{}"
                                 (run demo_rt lab_two_agents)))) "a1" = Some agent
       /\ agent_room agent = "den"
       /\ fst (roomAgents "lab" (snd (join demo_rt "den" "a1" "Alice" "{}"
                                        (run demo_rt lab_two_agents)))) = Ok l1
       /\ In agent l1
       /\ fst (roomAgents "den" (snd (join demo_rt "den" "a1" "Alice" "{}"
                                        (run demo_rt lab_two_agents)))) = Ok l2
       /\ In agent l2.
Proof.
  split; [vm_compute; left; reflexivity|].
  split; [discriminate|].
  apply (roomAgents_after_second_join demo_rt lab_two_agents "lab" "den" "a1"
           "Alice" "{}").
  - vm_compute; left; reflexivity.
  - discriminate.
Defined.

(** ** Registered agents and the sets of the rooms *)

Lemma In_delete_ne {V} (m : JsMap.t V) k k' v :
  NoDup (JsMap.keys m) -> In (k', v) (JsMap.delete m k) -> k' <> k.
Proof.
  unfold JsMap.keys. induction m as [|[k0 v0] m IH]; simpl; intros Hn Hin.
  - destruct Hin.
  - inversion Hn as [|? ? Hk Hm]; subst.
    destruct (String.eqb k0 k) eqn:E.
    + apply String.eqb_eq in E. subst k0. intros ->.
      apply Hk. apply in_map_iff. exists (k, v). auto.
    + destruct Hin as [[= <- <-]|Hin]; [now apply String.eqb_neq|auto].
Qed.

Lemma members_of_set st st' r room :
  rooms st' = JsMap.set (rooms st) r room ->
  forall r', members_of st' r' = if String.eqb r r' then room_agents room
                                else members_of st r'.
Proof.
  intros E r'. unfold members_of. rewrite E.
  destruct (String.eqb r r') eqn:Er.
  - apply String.eqb_eq in Er. subst. now rewrite JsMapFacts.get_set_same.
  - apply String.eqb_neq in Er. now rewrite JsMapFacts.get_set_other.
Qed.

Lemma seated_join rt r a n c st :
  hub_inv st -> seated st -> seated (snd (join rt r a n c st)).
Proof.
  intros [_ Hl] Hs.
  destruct (join_effect rt r a n c st Hl)
    as (agent & m & _ & Ha & (_ & _ & Hroom & _) & Hm & Hr & _).
  intros id' a' Hin. rewrite Ha in Hin.
  apply JsMapFacts.In_set in Hin as [[= -> ->]|Hin].
  - rewrite Hroom, Hm. apply JsSet_add_In.
  - specialize (Hs _ _ Hin).
    destruct (String.eqb (agent_room a') r) eqn:E.
    + apply String.eqb_eq in E. rewrite E in *. rewrite Hm.
      now apply JsSet_add_keeps.
    + apply String.eqb_neq in E. unfold members_of in *. now rewrite Hr.
Qed.

Lemma seated_leave rt a st :
  hub_inv st -> agents_placed st -> seated st -> seated (snd (leave rt a st)).
Proof.
  intros [_ Hl] [Hp Hn] Hs. unfold leave. hub_step.
  destruct (JsMap.get (agents st) a) as [agent|] eqn:Eg; [|exact Hs].
  destruct (JsMap.get (rooms st) (agent_room agent)) as [room|] eqn:Er.
  - destruct (JsMapFacts.has_get _ _ (Hl _ (JsMapFacts.get_has _ _ _ Er)))
      as [log El].
    rewrite El. hub_fields.
    intros id' a' Hin.
    pose proof (In_delete_ne _ _ _ _ Hn Hin) as Hne.
    apply JsMapFacts.In_delete in Hin. specialize (Hs _ _ Hin).
    erewrite members_of_set by (hub_fields; reflexivity).
    destruct (String.eqb (agent_room agent) (agent_room a')) eqn:E; auto.
    apply String.eqb_eq in E. cbn [room_agents].
    apply JsSet_delete_keeps; [congruence|].
    unfold members_of in Hs. now rewrite <- E, Er in Hs.
  - hub_fields. intros id' a' Hin.
    apply JsMapFacts.In_delete in Hin. apply (Hs _ _ Hin).
Qed.

Lemma seated_agent_set st st' id a a' :
  rooms st' = rooms st -> agents st' = JsMap.set (agents st) id a' ->
  JsMap.get (agents st) id = Some a -> agent_room a' = agent_room a ->
  seated st -> seated st'.
Proof.
  intros Hr Ha Hg Hroom Hs id' x Hin. rewrite Ha in Hin.
  unfold members_of. rewrite Hr. fold (members_of st (agent_room x)).
  apply JsMapFacts.In_set in Hin as [[= -> ->]|Hin]; auto.
  rewrite Hroom. apply Hs. now apply JsMapFacts.get_In.
Qed.

Lemma seated_send rt a c m st : seated st -> seated (snd (send rt a c m st)).
Proof.
  intros Hs. unfold send. hub_step.
  destruct (JsMap.get (agents st) a) as [agent|] eqn:Eg; [|exact Hs].
  destruct (JsMap.get (messages st) (agent_room agent)) as [log|] eqn:El;
    [|exact Hs].
  skip_notify_mentions.
  eapply seated_agent_set; [| |exact Eg| |exact Hs]; hub_fields;
    [rewrite Kr|rewrite Ka|]; reflexivity.
Qed.

Lemma seated_register s a st : seated st -> seated (snd (register s a st)).
Proof.
  intros Hs. unfold register. hub_step.
  destruct (JsMap.get (agents st) a) as [agent|] eqn:Eg; [|exact Hs].
  eapply seated_agent_set; [| |exact Eg| |exact Hs]; hub_fields; reflexivity.
Qed.

Lemma seated_ext st st' :
  rooms st' = rooms st -> agents st' = agents st -> seated st -> seated st'.
Proof. unfold seated, members_of. now intros -> ->. Qed.

Lemma seated_restart st : seated (restart st).
Proof. unfold seated. rewrite agents_restart. intros ? ? []. Qed.

Lemma agents_placed_apply_op rt op st :
  hub_inv st -> agents_placed st -> agents_placed (apply_op rt op st).
Proof.
  intros Hi Hp. destruct op; simpl;
    auto using agents_placed_join, agents_placed_leave, agents_placed_send,
      agents_placed_broadcast, agents_placed_storeMemory, agents_placed_register,
      agents_placed_file_event, agents_placed_restart.
Qed.

Lemma seated_apply_op rt op st :
  hub_inv st -> agents_placed st -> seated st -> seated (apply_op rt op st).
Proof.
  intros Hi Hp Hs. destruct op; cbn [apply_op];
    auto using seated_join, seated_leave, seated_send, seated_register,
      seated_restart;
    try exact Hs; revert Hs; apply seated_ext.
  - unfold broadcast; hub_step;
      destruct (JsMap.get (messages st) roomName); reflexivity.
  - unfold broadcast; hub_step;
      destruct (JsMap.get (messages st) roomName); reflexivity.
  - unfold storeMemory; hub_step;
      destruct (JsMap.get (agents st) agentId); try reflexivity;
      (destruct expiresIn as [secs|]; [destruct (Z.eqb secs 0)|]; reflexivity).
  - unfold storeMemory; hub_step;
      destruct (JsMap.get (agents st) agentId); try reflexivity;
      (destruct expiresIn as [secs|]; [destruct (Z.eqb secs 0)|]; reflexivity).
  - unfold file_event; hub_step;
      destruct (existsb (String.eqb roomName) (fileWatcher st)); try reflexivity;
      hub_fields; destruct (JsMap.get (messages st) roomName); reflexivity.
  - unfold file_event; hub_step;
      destruct (existsb (String.eqb roomName) (fileWatcher st)); try reflexivity;
      hub_fields; destruct (JsMap.get (messages st) roomName); reflexivity.
Qed.

(** ** Tasks *)

Lemma JsMap_set_fresh {V} (m : JsMap.t V) k v :
  JsMap.get m k = None -> JsMap.set m k v = m ++ [(k, v)].
Proof.
  induction m as [|[k0 v0] m IH]; simpl; auto.
  destruct (String.eqb k0 k); [discriminate|]. intros H. now rewrite IH.
Qed.

Lemma JsMap_set_replaces {V B} (f : V -> option B) (m : JsMap.t V) k v v' :
  JsMap.get m k = Some v -> f v' = f v ->
  map f (JsMap.values (JsMap.set m k v')) = map f (JsMap.values m).
Proof.
  unfold JsMap.values. intros Hg Hf.
  induction m as [|[k0 v0] m IH]; simpl in *; [discriminate|].
  destruct (String.eqb k0 k); simpl.
  - injection Hg as ->. now rewrite Hf.
  - now rewrite IH.
Qed.

Lemma filter_map_option {V B} (p : V -> bool) (g : V -> B) (l l' : list V) :
  map (fun v => if p v then Some (g v) else None) l
  = map (fun v => if p v then Some (g v) else None) l' ->
  map g (filter p l) = map g (filter p l').
Proof.
  revert l'. induction l as [|x l IH]; intros [|y l']; simpl; try discriminate; auto.
  intros [= Hx Hl]. specialize (IH _ Hl).
  destruct (p x), (p y); simpl; try discriminate; auto.
  injection Hx as ->. now rewrite IH.
Qed.

(** X18.  A task created for a room, under an id no task has yet,
    comes last in the list [GET /api/tasks/:room] returns for that
    room, and the lists of the other rooms stay as they were; the count
    of tasks goes up by one.  The task starts with status "todo" and
    with the priority of the body, "medium" when the body has none; the
    table of tasks is not written to. *)
Theorem createTask_then_listed rt s r title description assignee creator priority :
  JsMap.get (tasks s) (uuid_of rt (uuid_draws (hub s))) = None ->
  listTasks r (snd (createTask rt (Some r) title description assignee creator priority s))
  = listTasks r s
    ++ [fst (createTask rt (Some r) title description assignee creator priority s)]
  /\ (forall r', r' <> r ->
        listTasks r' (snd (createTask rt (Some r) title description assignee creator
                             priority s))
        = listTasks r' s)
  /\ totalTasks (stats (snd (createTask rt (Some r) title description assignee creator
                               priority s)))
     = S (totalTasks (stats s))
  /\ task_status (fst (createTask rt (Some r) title description assignee creator
                         priority s)) = "todo"
  /\ task_priority (fst (createTask rt (Some r) title description assignee creator
                           priority s))
     = match priority with Some p => p | None => "medium" end
  /\ task_assignee (fst (createTask rt (Some r) title description assignee creator
                           priority s)) = assignee
  /\ tbl_tasks (snd (createTask rt (Some r) title description assignee creator
                       priority s)) = tbl_tasks s.
Proof.
  intros Hfresh. unfold createTask, listTasks, stats. hub_step.
  cbn [fst snd tasks tbl_tasks totalTasks task_status task_priority task_assignee].
  rewrite (JsMap_set_fresh _ _ _ Hfresh).
  unfold JsMap.values, JsMap.size. rewrite !map_app, !length_app. simpl map.
  repeat split.
  - rewrite filter_app. simpl. now rewrite String.eqb_refl.
  - intros r' Hne. rewrite filter_app. simpl.
    apply not_eq_sym, String.eqb_neq in Hne. rewrite Hne. apply app_nil_r.
  - simpl. lia.
Qed.

Lemma createTask_then_listed_witness :
  JsMap.get (tasks lab_server) (uuid_of demo_rt (uuid_draws (hub lab_server))) = None
  /\ (listTasks "lab" (snd (createTask demo_rt (Some "lab") (Some "review") None (Some "a2") (Some "a1") None
           lab_server)) = listTasks "lab" lab_server ++ [fst (createTask demo_rt (Some "lab") (Some "review") None (Some "a2") (Some "a1") None
           lab_server)]
      /\ (forall r', r' <> "lab" -> listTasks r' (snd (createTask demo_rt (Some "lab") (Some "review") None (Some "a2") (Some "a1") None
           lab_server)) = listTasks r' lab_server)
      /\ totalTasks (stats (snd (createTask demo_rt (Some "lab") (Some "review") None (Some "a2") (Some "a1") None
           lab_server))) = S (totalTasks (stats lab_server))
      /\ task_status (fst (createTask demo_rt (Some "lab") (Some "review") None (Some "a2") (Some "a1") None
           lab_server)) = "todo"
      /\ task_priority (fst (createTask demo_rt (Some "lab") (Some "review") None (Some "a2") (Some "a1") None
           lab_server)) = match @None string with Some p => p | None => "medium" end
      /\ task_assignee (fst (createTask demo_rt (Some "lab") (Some "review") None (Some "a2") (Some "a1") None
           lab_server)) = Some "a2"
      /\ tbl_tasks (snd (createTask demo_rt (Some "lab") (Some "review") None (Some "a2") (Some "a1") None
           lab_server)) = tbl_tasks lab_server).
Proof.
  split; [vm_compute; reflexivity|].
  apply (createTask_then_listed demo_rt lab_server "lab" (Some "review") None
           (Some "a2") (Some "a1") None).
  vm_compute; reflexivity.
Defined.

(** X19.  [POST /api/tasks/:taskId/update] of a task that exists
    overwrites [status], [assignee] and [priority] with the fields of
    the body that are there and not empty, and leaves each of the three
    as it was otherwise, so an assignee cannot be taken off a task; id,
    room, title, description, creator and creation time never change,
    the task keeps its place in the list of its room, and the number of
    tasks stays the same. *)
Theorem updateTask_merges rt s taskId status assignee priority task :
  JsMap.get (tasks s) taskId = Some task ->
  exists task',
    fst (updateTask rt taskId status assignee priority s) = Ok task'
    /\ JsMap.get (tasks (snd (updateTask rt taskId status assignee priority s))) taskId
       = Some task'
    /\ (task_id task' = task_id task /\ task_room task' = task_room task
        /\ task_title task' = task_title task
        /\ task_description task' = task_description task
        /\ task_creator task' = task_creator task
        /\ task_createdAt task' = task_createdAt task)
    /\ (forall x, status = Some x -> x <> "" -> task_status task' = x)
    /\ (status = None \/ status = Some "" -> task_status task' = task_status task)
    /\ (forall x, assignee = Some x -> x <> "" -> task_assignee task' = Some x)
    /\ (assignee = None \/ assignee = Some "" ->
        task_assignee task' = task_assignee task)
    /\ (forall x, priority = Some x -> x <> "" -> task_priority task' = x)
    /\ (priority = None \/ priority = Some "" ->
        task_priority task' = task_priority task)
    /\ (forall r, map task_id (listTasks r (snd (updateTask rt taskId status assignee
                                                   priority s)))
                  = map task_id (listTasks r s))
    /\ totalTasks (stats (snd (updateTask rt taskId status assignee priority s)))
       = totalTasks (stats s).
Proof.
  intros Hg. unfold updateTask. rewrite Hg. hub_step.
  cbn [fst snd tasks]. eexists. split; [reflexivity|].
  split; [apply JsMapFacts.get_set_same|].
  split; [cbn; auto 10|].
  cbn [task_status task_assignee task_priority].
  assert (Hne : forall x, x <> "" -> truthy x = true).
  { intros x Hx. unfold truthy. apply String.eqb_neq in Hx. now rewrite Hx. }
  split; [intros x -> Hx; unfold overwrite; now rewrite Hne|].
  split; [intros [->| ->]; reflexivity|].
  split; [intros x -> Hx; unfold overwrite_opt; now rewrite Hne|].
  split; [intros [->| ->]; reflexivity|].
  split; [intros x -> Hx; unfold overwrite; now rewrite Hne|].
  split; [intros [->| ->]; reflexivity|].
  split.
  - intros r. unfold listTasks. apply filter_map_option.
    eapply JsMap_set_replaces; [exact Hg|]. reflexivity.
  - unfold stats, JsMap.size. cbn [totalTasks tasks].
    rewrite <- !(length_map snd).
    fold (JsMap.values (JsMap.set (tasks s) taskId
      {| task_id := task_id task; task_room := task_room task;
         task_title := task_title task; task_description := task_description task;
         task_assignee := overwrite_opt assignee (task_assignee task);
         task_creator := task_creator task;
         task_priority := overwrite priority (task_priority task);
         task_status := overwrite status (task_status task);
         task_createdAt := task_createdAt task;
         task_updatedAt := Time.toISOString (clock_ms rt (clock_reads (hub s))) |})).
    fold (JsMap.values (tasks s)).
    rewrite <- (length_map (fun _ : Task => Some tt)).
    rewrite <- (length_map (fun _ : Task => Some tt) (JsMap.values (tasks s))).
    f_equal. eapply JsMap_set_replaces; [exact Hg|reflexivity].
Qed.

Lemma updateTask_merges_witness :
  JsMap.get (tasks lab_server) "uuid-0003" = Some {| task_id := "uuid-0003"; task_room := Some "den";
       task_title := Some "tidy up"; task_description := None;
       task_assignee := Some "a2"; task_creator := Some "a1";
       task_priority := "high"; task_status := "todo";
       task_createdAt := "2026-11-02T08:18:30.000Z";
       task_updatedAt := "2026-11-02T08:18:35.000Z" |}
  /\ exists task',
    fst (updateTask demo_rt "uuid-0003" (Some "done") (Some "") None lab_server) = Ok task'
    /\ JsMap.get (tasks (snd (updateTask demo_rt "uuid-0003" (Some "done") (Some "") None lab_server))) "uuid-0003" = Some task'
    /\ (task_id task' = "uuid-0003" /\ task_room task' = Some "den"
        /\ task_title task' = Some "tidy up"
        /\ task_description task' = None
        /\ task_creator task' = Some "a1"
        /\ task_createdAt task' = "2026-11-02T08:18:30.000Z")
    /\ (forall x, Some "done" = Some x -> x <> "" -> task_status task' = x)
    /\ (Some "done" = None \/ Some "done" = Some "" -> task_status task' = "todo")
    /\ (forall x, Some "" = Some x -> x <> "" -> task_assignee task' = Some x)
    /\ (Some "" = None \/ Some "" = Some "" -> task_assignee task' = Some "a2")
    /\ (forall x, @None string = Some x -> x <> "" -> task_priority task' = x)
    /\ (@None string = None \/ @None string = Some "" -> task_priority task' = "high")
    /\ (forall r, map task_id (listTasks r (snd (updateTask demo_rt "uuid-0003" (Some "done") (Some "") None lab_server))) = map task_id (listTasks r lab_server))
    /\ totalTasks (stats (snd (updateTask demo_rt "uuid-0003" (Some "done") (Some "") None lab_server))) = totalTasks (stats lab_server).
Proof.
  split; [vm_compute; reflexivity|].
  apply (updateTask_merges demo_rt lab_server "uuid-0003" (Some "done") (Some "") None
           {| task_id := "uuid-0003"; task_room := Some "den";
       task_title := Some "tidy up"; task_description := None;
       task_assignee := Some "a2"; task_creator := Some "a1";
       task_priority := "high"; task_status := "todo";
       task_createdAt := "2026-11-02T08:18:30.000Z";
       task_updatedAt := "2026-11-02T08:18:35.000Z" |}).
  vm_compute; reflexivity.
Defined.

Lemma server_inv_boot dir : server_inv (server_boot dir).
Proof.
  unfold server_inv, server_boot. cbn [hub tasks tbl_tasks].
  split; [apply hub_inv_boot|].
  split; [apply (agents_placed_run demo_rt [])|].
  split; [intros ? ? []|]. split; [reflexivity|intros ? ? []].
Qed.

Lemma server_inv_serve rt q s : server_inv s -> server_inv (serve rt q s).
Proof.
  intros (Hi & Hp & Hs & Ht & Hk). destruct q as [op| |]; cbn [serve].
  - unfold server_inv. cbn [hub tasks tbl_tasks].
    split; [now apply hub_inv_apply_op|].
    split; [now apply agents_placed_apply_op|].
    split; [now apply seated_apply_op|].
    split; [assumption|]. destruct op; auto. intros ? ? [].
  - unfold createTask. hub_step. unfold server_inv. cbn [snd hub tasks tbl_tasks].
    split; [exact Hi|]. split; [exact Hp|]. split; [exact Hs|].
    split; [assumption|].
    intros k t Hin. apply JsMapFacts.In_set in Hin as [[= -> ->]|Hin]; auto.
  - unfold updateTask.
    destruct (JsMap.get (tasks s) taskId) as [task|] eqn:Eg;
      [|cbn [snd]; unfold server_inv; tauto].
    hub_step. unfold server_inv. cbn [snd hub tasks tbl_tasks].
    split; [exact Hi|]. split; [exact Hp|]. split; [exact Hs|].
    split; [now rewrite Ht|].
    intros k t Hin. apply JsMapFacts.In_set in Hin as [[= -> ->]|Hin]; auto.
    cbn [task_id]. apply Hk. now apply JsMapFacts.get_In.
Qed.

Lemma server_inv_run rt dir qs : server_inv (server_run rt dir qs).
Proof.
  unfold server_run. generalize (server_inv_boot dir).
  generalize (server_boot dir) as s.
  induction qs as [|q qs IH]; intros s Hs; simpl; auto.
  apply IH. now apply server_inv_serve.
Qed.

(** X20.  Tasks live in memory only.  No request writes a row to the
    table of tasks: it is empty after every sequence of requests, and
    the [UPDATE] of the update handler finds no row to change.  After a
    restart the server has no task: every room's list is empty, the
    count is 0, and an update of whatever id is answered 404. *)
Theorem tasks_not_persisted rt dir qs :
  tbl_tasks (server_run rt dir qs) = []
  /\ (forall r, listTasks r (serve rt (OfHub OpRestart) (server_run rt dir qs)) = [])
  /\ totalTasks (stats (serve rt (OfHub OpRestart) (server_run rt dir qs))) = 0%nat
  /\ (forall taskId status assignee priority,
        fst (updateTask rt taskId status assignee priority
               (serve rt (OfHub OpRestart) (server_run rt dir qs)))
        = Err 404 "Task not found").
Proof.
  destruct (server_inv_run rt dir qs) as (_ & _ & _ & Ht & _).
  repeat split; auto.
Qed.

(** ** Statistics *)

Lemma seated_count (R : JsMap.t Room) (A : JsMap.t Agent) :
  NoDup (JsMap.keys A) ->
  (forall id a, In (id, a) A ->
     exists room, JsMap.get R (agent_room a) = Some room /\ In id (room_agents room)) ->
  (List.length A
   <= list_sum (map (fun e : string * Room => JsSet.size (room_agents (snd e))) R))%nat.
Proof.
  intros Hn Hs.
  set (F := flat_map (fun e : string * Room => map (pair (fst e)) (room_agents (snd e))) R).
  set (P := map (fun e : string * Agent => (agent_room (snd e), fst e)) A).
  assert (HF : List.length F
               = list_sum (map (fun e : string * Room =>
                                  JsSet.size (room_agents (snd e))) R)).
  { unfold F. clear. induction R as [|e R IH]; simpl; auto.
    now rewrite length_app, length_map, IH. }
  assert (HP : NoDup P).
  { apply (NoDup_map_inv snd). unfold P. rewrite map_map. exact Hn. }
  assert (HI : incl P F).
  { intros [r id] Hin. unfold P in Hin. apply in_map_iff in Hin as ([id' a] & [= <- <-] & Hin).
    destruct (Hs _ _ Hin) as (room & Hg & Hm).
    apply in_flat_map. exists (agent_room a, room).
    split; [now apply JsMapFacts.get_In|]. simpl. now apply in_map. }
  rewrite <- HF. replace (List.length A) with (List.length P)
    by (unfold P; apply length_map).
  now apply NoDup_incl_length.
Qed.

(** X21.  In the statistics of [GET /api/stats], after every sequence
    of requests, the agent counts of the rooms add up to at least the
    total of agents (they can add up to more: a room goes on counting
    an agent that has joined another room); the rooms listed are those
    of [GET /api/rooms], in the same order and with the same counts,
    and [totalRooms] is their number. *)
Theorem stats_agent_counts rt dir qs :
  (totalAgents (stats (server_run rt dir qs))
   <= list_sum (map rs_agentCount (stats_rooms (stats (server_run rt dir qs)))))%nat
  /\ map (fun x => (rs_name x, rs_agentCount x))
         (stats_rooms (stats (server_run rt dir qs)))
     = map (fun i => (ri_name i, ri_agentCount i))
           (fst (listRooms (hub (server_run rt dir qs))))
  /\ totalRooms (stats (server_run rt dir qs))
     = List.length (stats_rooms (stats (server_run rt dir qs))).
Proof.
  destruct (server_inv_run rt dir qs) as (_ & [_ Hn] & Hs & _).
  unfold stats, listRooms. hub_step.
  cbn [totalAgents totalRooms stats_rooms]. split; [|split].
  - rewrite map_map.
    erewrite map_ext; [apply seated_count; [exact Hn|]|].
    + intros id a Hin. specialize (Hs _ _ Hin). unfold members_of in Hs.
      destruct (JsMap.get (rooms (hub (server_run rt dir qs))) (agent_room a))
        as [room|]; [eauto|destruct Hs].
    + intros [name room]. reflexivity.
  - rewrite !map_map. apply map_ext. intros [name room]. reflexivity.
  - unfold JsMap.size. now rewrite length_map.
Qed.

(** * The adapter *)

Module AdapterFacts.
Import Adapter.

Lemma last_n_skipn {A} k (l : list A) :
  (0 < k)%nat -> last_n k l = skipn (List.length l - k) l.
Proof.
  intros Hk. unfold last_n, Js.slice_from.
  destruct (Z.ltb_spec (- Z.of_nat k) 0) as [_|H]; [|lia].
  f_equal. lia.
Qed.

Lemma last_n_short {A} k (l : list A) :
  (0 < k)%nat -> (List.length l <= k)%nat -> last_n k l = l.
Proof.
  intros Hk Hl. rewrite last_n_skipn by assumption.
  replace (List.length l - k)%nat with 0%nat by lia. reflexivity.
Qed.

Lemma last_n_length {A} k (l : list A) :
  (0 < k)%nat -> (List.length (last_n k l) <= k)%nat.
Proof.
  intros Hk. rewrite last_n_skipn by assumption. rewrite length_skipn. lia.
Qed.

Lemma last_n_app {A} k (a b : list A) :
  (0 < k)%nat -> last_n k (last_n k a ++ b) = last_n k (a ++ b).
Proof.
  intros Hk. rewrite !last_n_skipn by assumption.
  destruct (Nat.le_gt_cases (List.length a) k) as [H|H].
  - replace (List.length a - k)%nat with 0%nat by lia. reflexivity.
  - rewrite !skipn_app, !length_app, !length_skipn, skipn_skipn.
    f_equal; f_equal; lia.
Qed.

Lemma on_message_history env m st :
  messageHistory (on_message env m st) = last_n 1000 (messageHistory st ++ [m]).
Proof.
  unfold on_message.
  assert (E : (if (1000 <? List.length (messageHistory st ++ [m]))%nat
               then last_n 1000 (messageHistory st ++ [m])
               else messageHistory st ++ [m])
              = last_n 1000 (messageHistory st ++ [m])).
  { destruct (Nat.ltb_spec 1000 (List.length (messageHistory st ++ [m]))); auto.
    symmetry. apply last_n_short; lia. }
  rewrite E.
  repeat match goal with
         | |- context [if ?b then _ else _] => destruct b
         | |- context [match find ?f ?l with _ => _ end] => destruct (find f l)
         end; reflexivity.
Qed.

(** X22.  The adapter's cache of messages holds the last 1000 of the
    messages it has heard, in the order heard, whatever their number:
    older ones are dropped, none is kept twice, and the cache never
    holds more than 1000. *)
Theorem history_keeps_last_1000 env msgs st :
  (List.length (messageHistory st) <= 1000)%nat ->
  messageHistory (fold_left (fun s m => on_message env m s) msgs st)
  = last_n 1000 (messageHistory st ++ msgs)
  /\ (List.length (messageHistory (fold_left (fun s m => on_message env m s) msgs st))
      <= 1000)%nat.
Proof.
  intros Hlen.
  assert (H : messageHistory (fold_left (fun s m => on_message env m s) msgs st)
              = last_n 1000 (messageHistory st ++ msgs)).
  { revert st Hlen. induction msgs as [|m msgs IH]; intros st Hlen; simpl.
    - rewrite app_nil_r. symmetry. apply last_n_short; lia.
    - rewrite IH.
      + rewrite on_message_history, last_n_app by lia. now rewrite <- app_assoc.
      + rewrite on_message_history. apply last_n_length. lia. }
  split; [exact H|]. rewrite H. apply last_n_length. lia.
Qed.

Lemma find_first {A} (f : A -> bool) l x :
  find f l = Some x ->
  exists before after,
    l = before ++ x :: after /\ f x = true
    /\ Forall (fun y => f y = false) before.
Proof.
  induction l as [|y l IH]; simpl; [discriminate|].
  destruct (f y) eqn:E.
  - intros [= ->]. exists [], l. auto.
  - intros H. destruct (IH H) as (b & a & -> & Hx & Hb).
    exists (y :: b), a. auto.
Qed.

(** X23.  One message heard adds at most two notifications, all
    unread: one of type "mention" exactly when the message's mentions
    hold the agent's name, and at most one of type "keyword" however
    many of the watched patterns the content holds, namely for the
    first pattern of the watch list that occurs in it. *)
Theorem on_message_notes env m st :
  exists mention keyword,
    notifications (on_message env m st) = notifications st ++ mention ++ keyword
    /\ (List.length mention <= 1 /\ List.length keyword <= 1)%nat
    /\ Forall (fun n => note_read n = false) (mention ++ keyword)
    /\ (forall n, In n mention ->
          note_type n = "mention" /\ note_about n = Mentioned m)
    /\ (mention <> [] <->
        exists l, msg_mentions m = Some l /\ In (agentName st) l)
    /\ (forall n, In n keyword ->
          note_type n = "keyword"
          /\ exists p before after,
               note_about n = Keyword p m
               /\ watchPatterns st = before ++ p :: after
               /\ includes (toLowerCase env (msg_content m)) (toLowerCase env p) = true
               /\ Forall (fun q => includes (toLowerCase env (msg_content m))
                                            (toLowerCase env q) = false) before)
    /\ (keyword <> [] <->
        exists p, In p (watchPatterns st)
                  /\ includes (toLowerCase env (msg_content m)) (toLowerCase env p) = true).
Proof.
  unfold on_message.
  set (h := if (1000 <? _)%nat then _ else _).
  set (named := match msg_mentions m with
                | Some mentions => existsb (String.eqb (agentName (set_messageHistory h st))) mentions
                | None => false
                end).
  assert (Hnamed : named = true <-> exists l, msg_mentions m = Some l /\ In (agentName st) l).
  { unfold named. cbn [agentName set_messageHistory].
    destruct (msg_mentions m) as [l|].
    - rewrite existsb_exists. split.
      + intros (x & Hx & E). apply String.eqb_eq in E. subst. eauto.
      + intros (l' & [= <-] & Hin). exists (agentName st). split; auto.
        apply String.eqb_refl.
    - split; [discriminate|]. intros (l & [=] & _). }
  set (f := fun pattern => includes (toLowerCase env (msg_content m)) (toLowerCase env pattern)).
  assert (Hw : forall b : bool,
             watchPatterns (if b then push_note env "mention" (Mentioned m)
                                        (set_messageHistory h st)
                            else set_messageHistory h st) = watchPatterns st).
  { intros []; reflexivity. }
  rewrite Hw.
  assert (Hfind : forall (P : Prop), (P <-> exists p, find f (watchPatterns st) = Some p) ->
                  (P <-> exists p, In p (watchPatterns st) /\ f p = true)).
  { intros P HP. rewrite HP. split.
    - intros (p & Hp). apply find_some in Hp. eauto.
    - intros (p & Hin & Hp). destruct (find f (watchPatterns st)) eqn:E; eauto.
      eapply find_none in E; eauto. congruence. }
  destruct named eqn:En; destruct (find f (watchPatterns st)) as [p|] eqn:Ef;
    cbn [notifications push_note set_messageHistory uuid_drawn clock_looks];
    rewrite <- ?app_assoc;
    (eexists; eexists; split; [reflexivity|]) || idtac.
  - split; [simpl; lia|]. split; [repeat constructor|].
    split; [intros n [<-|[]]; auto|].
    split; [rewrite <- Hnamed; split; auto; discriminate|].
    split.
    + intros n [<-|[]]. split; auto.
      destruct (find_first _ _ _ Ef) as (b & a & Hl & Hp & Hb). exists p, b, a. auto.
    + apply Hfind. split; eauto. discriminate.
  - exists [{| note_id := uuid_of (runtime env) (uuid_drawn st);
               note_type := "mention"; note_about := Mentioned m;
               note_timestamp := Time.toISOString (clock_ms (runtime env) (clock_looks st));
               note_read := false |}], [].
    split; [reflexivity|]. split; [simpl; lia|]. split; [repeat constructor|].
    split; [intros n [<-|[]]; auto|].
    split; [rewrite <- Hnamed; split; auto; discriminate|].
    split; [intros n []|].
    apply Hfind. split; [congruence|intros (q & [=])].
  - exists [], [{| note_id := uuid_of (runtime env) (uuid_drawn st);
                   note_type := "keyword"; note_about := Keyword p m;
                   note_timestamp := Time.toISOString (clock_ms (runtime env) (clock_looks st));
                   note_read := false |}].
    split; [reflexivity|]. split; [simpl; lia|]. split; [repeat constructor|].
    split; [intros n []|].
    split; [rewrite <- Hnamed; split; [congruence|discriminate]|].
    split.
    + intros n [<-|[]]. split; auto.
      destruct (find_first _ _ _ Ef) as (b & a & Hl & Hp & Hb). exists p, b, a. auto.
    + apply Hfind. split; eauto. discriminate.
  - exists [], []. split; [now rewrite app_nil_r|].
    split; [simpl; lia|]. split; [constructor|].
    split; [intros n []|].
    split; [rewrite <- Hnamed; split; [congruence|discriminate]|].
    split; [intros n []|].
    apply Hfind. split; [congruence|intros (q & [=])].
Qed.

Lemma history_keeps_last_1000_witness :
  (List.length (messageHistory bob) <= 1000)%nat
  /\ (messageHistory
        (fold_left (fun s m => on_message demo_env m s)
                   [heard "m1" "hello @Bob"; heard "m2" "URGENT: deploy at noon"] bob)
      = last_n 1000 (messageHistory bob
                     ++ [heard "m1" "hello @Bob"; heard "m2" "URGENT: deploy at noon"])
      /\ (List.length
            (messageHistory
               (fold_left (fun s m => on_message demo_env m s)
                          [heard "m1" "hello @Bob"; heard "m2" "URGENT: deploy at noon"]
                          bob))
          <= 1000)%nat).
Proof.
  split; [simpl; lia|].
  apply (history_keeps_last_1000 demo_env
           [heard "m1" "hello @Bob"; heard "m2" "URGENT: deploy at noon"] bob).
  simpl; lia.
Defined.

Lemma filter_all_false {A} (f : A -> bool) l :
  Forall (fun x => f x = false) l -> filter f l = [].
Proof.
  induction 1 as [|x l Hx _ IH]; simpl; auto. now rewrite Hx.
Qed.

(** X24.  [markAllNotificationsRead] leaves no notification unread and
    changes nothing else: the list keeps its entries, in order, with
    their ids, types and contents.  A second call marks none and
    reports 0, and the list of unread notifications asked for next is
    empty, with [unreadCount] 0. *)
Theorem markAll_reads_all st :
  unread (notifications (snd (markAllNotificationsRead st))) = []
  /\ map (fun n => (note_id n, note_type n, note_about n, note_timestamp n))
         (notifications (snd (markAllNotificationsRead st)))
     = map (fun n => (note_id n, note_type n, note_about n, note_timestamp n))
           (notifications st)
  /\ markAllNotificationsRead (snd (markAllNotificationsRead st))
     = (0%nat, snd (markAllNotificationsRead st))
  /\ (connected st = true ->
      forall type, getNotifications true type (snd (markAllNotificationsRead st))
                   = Return ([], 0%nat)).
Proof.
  unfold markAllNotificationsRead. cbn [fst snd notifications set_notifications].
  set (f := fun n => if note_read n then n else mark n).
  assert (Hall : Forall (fun n => negb (note_read n) = false) (map f (notifications st))).
  { apply Forall_forall. intros n Hin. apply in_map_iff in Hin as (x & <- & _).
    unfold f. destruct (note_read x) eqn:E; simpl; now rewrite ?E. }
  assert (Hun : unread (map f (notifications st)) = []).
  { apply filter_all_false, Hall. }
  split; [exact Hun|]. split; [|split].
  - rewrite map_map. apply map_ext. intros n. unfold f.
    now destruct (note_read n).
  - rewrite Hun. cbn [List.length]. f_equal. unfold set_notifications.
    cbn [notifications currentAgentId currentRoom agentName messageHistory
         watchPatterns uuid_drawn clock_looks]. f_equal.
    rewrite map_map. apply map_ext_in. intros n Hn. unfold f at 1.
    destruct (note_read (f n)) eqn:E; auto.
    unfold f in E |- *. destruct (note_read n) eqn:E'; simpl in E; congruence.
  - intros Hc type. unfold getNotifications, connected in *.
    cbn [notifications currentAgentId set_notifications]. rewrite Hc.
    cbn [negb]. rewrite Hun.
    destruct type as [t|]; [destruct (truthy t)|]; reflexivity.
Qed.

Lemma unique_fold l acc :
  NoDup acc ->
  NoDup (fold_left JsSet.add l acc)
  /\ (forall x, In x (fold_left JsSet.add l acc) <-> In x acc \/ In x l).
Proof.
  revert acc. induction l as [|y l IH]; intros acc Hn; simpl.
  - split; [assumption|]. intuition.
  - assert (Hadd : NoDup (JsSet.add acc y)
                   /\ forall x, In x (JsSet.add acc y) <-> In x acc \/ x = y).
    { unfold JsSet.add, JsSet.has. destruct (existsb (String.eqb y) acc) eqn:E.
      - split; [assumption|]. intros x. split; [auto|].
        intros [H| ->]; auto. apply existsb_exists in E as (z & Hz & Ez).
        apply String.eqb_eq in Ez. now subst.
      - split.
        + apply NoDup_app; [assumption|repeat constructor; intros []|].
          intros x Hx [<-|[]].
          assert (existsb (String.eqb y) acc = true); [|congruence].
          apply existsb_exists. exists y. split; auto. apply String.eqb_refl.
        + intros x. rewrite in_app_iff. simpl. intuition. }
    destruct Hadd as [Hn' Hin]. destruct (IH _ Hn') as [H1 H2].
    split; [assumption|]. intros x. rewrite H2, Hin. intuition.
Qed.

Lemma fold_add_known l acc :
  (forall x, In x l -> In x acc) -> fold_left JsSet.add l acc = acc.
Proof.
  revert acc. induction l as [|y l IH]; intros acc H; simpl; auto.
  assert (E : JsSet.add acc y = acc).
  { unfold JsSet.add, JsSet.has.
    assert (existsb (String.eqb y) acc = true) as ->; auto.
    apply existsb_exists. exists y. split; [apply H; now left|apply String.eqb_refl]. }
  rewrite E. apply IH. intros x Hx. apply H. now right.
Qed.

Lemma fold_add_fresh l acc :
  NoDup (acc ++ l) -> fold_left JsSet.add l acc = acc ++ l.
Proof.
  revert acc. induction l as [|y l IH]; intros acc H; simpl.
  - now rewrite app_nil_r.
  - assert (E : JsSet.add acc y = acc ++ [y]).
    { unfold JsSet.add, JsSet.has.
      destruct (existsb (String.eqb y) acc) eqn:Ex; auto.
      apply existsb_exists in Ex as (z & Hz & Ez). apply String.eqb_eq in Ez. subst z.
      apply NoDup_remove_2 in H. exfalso. apply H. apply in_or_app. now left. }
    rewrite E, IH; rewrite <- app_assoc; auto.
Qed.

Lemma unique_of_unique w ps :
  NoDup w -> (forall x, In x ps -> In x w) -> unique (w ++ ps) = w.
Proof.
  intros Hn Hin. unfold unique, JsSet.empty. rewrite fold_left_app.
  rewrite (fold_add_fresh w []) by exact Hn.
  now apply fold_add_known.
Qed.

(** X25.  For a connected agent, [subscribeToAlerts] makes the watch
    list the patterns watched before together with the new ones, each
    once, and returns it.  Subscribing once more to the same patterns
    changes nothing. *)
Theorem subscribe_merges ps mentions st :
  connected st = true ->
  exists w,
    subscribeToAlerts (Some ps) mentions st
    = (Return (w, match mentions with Some false => false | _ => true end),
       set_watchPatterns w st)
    /\ NoDup w
    /\ (forall p, In p w <-> In p (watchPatterns st) \/ In p ps)
    /\ subscribeToAlerts (Some ps) mentions (set_watchPatterns w st)
       = (Return (w, match mentions with Some false => false | _ => true end),
          set_watchPatterns w st).
Proof.
  intros Hc. unfold subscribeToAlerts. rewrite Hc. cbn [negb].
  exists (unique (watchPatterns st ++ ps)).
  destruct (unique_fold (watchPatterns st ++ ps) [] (NoDup_nil _)) as [Hn Hin].
  fold (unique (watchPatterns st ++ ps)) in Hn, Hin.
  split; [reflexivity|]. split; [exact Hn|]. split.
  - intros p. rewrite Hin, in_app_iff. simpl. intuition.
  - assert (Hc' : connected (set_watchPatterns (unique (watchPatterns st ++ ps)) st) = true)
      by exact Hc.
    rewrite Hc'. cbn [negb watchPatterns set_watchPatterns].
    rewrite unique_of_unique; [reflexivity|exact Hn|].
    intros x Hx. apply Hin. right. apply in_or_app. now right.
Qed.

Lemma subscribe_merges_witness :
  connected bob = true
  /\ exists w,
       subscribeToAlerts (Some ["urgent"; "review"; "review"]) None bob
       = (Return (w, match @None bool with Some false => false | _ => true end),
          set_watchPatterns w bob)
       /\ NoDup w
       /\ (forall p, In p w <-> In p (watchPatterns bob)
                                \/ In p ["urgent"; "review"; "review"])
       /\ subscribeToAlerts (Some ["urgent"; "review"; "review"]) None
            (set_watchPatterns w bob)
          = (Return (w, match @None bool with Some false => false | _ => true end),
             set_watchPatterns w bob).
Proof.
  split; [reflexivity|].
  apply (subscribe_merges ["urgent"; "review"; "review"] None bob).
  reflexivity.
Defined.

Lemma mark_first_ids id l l' :
  mark_first id l = Some l' -> map note_id l' = map note_id l.
Proof.
  revert l'. induction l as [|n l IH]; intros l'; simpl; [discriminate|].
  destruct (String.eqb (note_id n) id).
  - intros [= <-]. reflexivity.
  - destruct (mark_first id l) as [r|]; [|discriminate].
    intros [= <-]. simpl. now rewrite (IH r).
Qed.

Lemma mark_first_known id l :
  In id (map note_id l) -> exists l', mark_first id l = Some l'.
Proof.
  induction l as [|n l IH]; simpl; [intros []|].
  destruct (String.eqb (note_id n) id) eqn:E; eauto.
  intros [H|H]; [apply String.eqb_neq in E; contradiction|].
  destruct (IH H) as (l' & ->). simpl. eauto.
Qed.

Lemma mark_first_unknown id l :
  ~ In id (map note_id l) -> mark_first id l = None.
Proof.
  induction l as [|n l IH]; simpl; auto.
  intros H. destruct (String.eqb (note_id n) id) eqn:E.
  - apply String.eqb_eq in E. intuition.
  - rewrite IH; auto.
Qed.

(** X26.  When the notifications have distinct ids,
    [markNotificationRead] of an id in the list returns it and marks
    that notification read: the unread notifications that remain are
    those of the other ids, unchanged, and the list keeps its ids in
    order.  An id that is not in the list is answered with an error and
    changes nothing. *)
Theorem mark_read_by_id id st :
  NoDup (map note_id (notifications st)) ->
  (In id (map note_id (notifications st)) ->
   fst (markNotificationRead id st) = Return id
   /\ map note_id (notifications (snd (markNotificationRead id st)))
      = map note_id (notifications st)
   /\ unread (notifications (snd (markNotificationRead id st)))
      = filter (fun n => negb (String.eqb (note_id n) id)) (unread (notifications st)))
  /\ (~ In id (map note_id (notifications st)) ->
      markNotificationRead id st = (Throw "Notification not found", st)).
Proof.
  intros Hn. unfold markNotificationRead. split.
  - intros Hin. destruct (mark_first_known _ _ Hin) as (l' & E). rewrite E.
    cbn [fst snd notifications set_notifications].
    split; [reflexivity|]. split; [now apply (mark_first_ids id)|].
    clear Hin. revert l' E Hn.
    induction (notifications st) as [|x l IH]; intros l' E Hn; simpl in E;
      [discriminate|].
    inversion Hn as [|? ? Hx Hl]; subst.
    destruct (String.eqb (note_id x) id) eqn:Ex.
    + injection E as <-. apply String.eqb_eq in Ex.
      unfold unread. simpl.
      assert (Hrest : filter (fun n => negb (String.eqb (note_id n) id))
                        (filter (fun n => negb (note_read n)) l)
                      = filter (fun n => negb (note_read n)) l).
      { apply forallb_filter_id. apply forallb_forall. intros n Hin.
        apply filter_In in Hin as [Hin _]. apply negb_true_iff, String.eqb_neq.
        intros Heq. apply Hx. rewrite Ex, <- Heq. now apply in_map. }
      destruct (note_read x); simpl; [|rewrite Ex, String.eqb_refl; simpl]; now rewrite Hrest.
    + destruct (mark_first id l) as [r|] eqn:Er; [|discriminate].
      injection E as <-. unfold unread in *. simpl.
      destruct (note_read x); simpl; rewrite ?Ex; simpl; now rewrite (IH r eq_refl Hl).
  - intros Hout. now rewrite mark_first_unknown.
Qed.

Lemma mark_read_by_id_witness :
  NoDup (map note_id (notifications bob_heard))
  /\ (In "uuid-0001" (map note_id (notifications bob_heard)) ->
      fst (markNotificationRead "uuid-0001" bob_heard) = Return "uuid-0001"
      /\ map note_id (notifications (snd (markNotificationRead "uuid-0001" bob_heard)))
         = map note_id (notifications bob_heard)
      /\ unread (notifications (snd (markNotificationRead "uuid-0001" bob_heard)))
         = filter (fun n => negb (String.eqb (note_id n) "uuid-0001"))
                  (unread (notifications bob_heard)))
  /\ (~ In "uuid-0001" (map note_id (notifications bob_heard)) ->
      markNotificationRead "uuid-0001" bob_heard
      = (Throw "Notification not found", bob_heard)).
Proof.
  assert (H : NoDup (map note_id (notifications bob_heard))).
  { vm_compute. repeat constructor; simpl; intuition discriminate. }
  split; [exact H|].
  apply (mark_read_by_id "uuid-0001" bob_heard H).
Defined.

End AdapterFacts.

(** * The operator's console *)

Module CliFacts.
Import Mention.


Lemma split_spaceless w :
  OrchestratorCLI.spaceless w -> OrchestratorCLI.split w = [w].
Proof.
  unfold OrchestratorCLI.spaceless. induction w as [|c w IH]; simpl; intros H; auto.
  inversion H as [|? ? Hc Hw]; subst. rewrite Hc, IH; auto.
Qed.










End CliFacts.

(** * Rooms across a restart *)

Section Draws.
Lemma draws_ret {A} (a : A) : draws_on (ret a).
Proof. intros st. simpl. lia. Qed.

Lemma draws_gets {A} (g : Hub -> A) : draws_on (gets g).
Proof. intros st. simpl. lia. Qed.

Lemma draws_bind {A B} (m : M A) (k : A -> M B) :
  draws_on m -> (forall a, draws_on (k a)) -> draws_on (bind m k).
Proof.
  intros Hm Hk st. unfold bind. specialize (Hm st).
  destruct (m st) as [a st']. simpl in Hm. specialize (Hk a st'). lia.
Qed.

Lemma draws_mapM {A B} (g : A -> M B) l :
  (forall a, draws_on (g a)) -> draws_on (mapM g l).
Proof.
  intros Hg. induction l as [|a l IH]; simpl.
  - apply draws_ret.
  - apply draws_bind; auto. intros b.
    apply draws_bind; auto. intros bs. apply draws_ret.
Qed.

Lemma draws_forEach {A} (g : A -> M unit) l :
  (forall a, draws_on (g a)) -> draws_on (forEach g l).
Proof.
  intros Hg. induction l as [|a l IH]; simpl.
  - apply draws_ret.
  - apply draws_bind; auto.
Qed.
End Draws.

Ltac draws_base :=
  intros ?st;
  cbv [modify gets ret uuidv4 Date_now new_Date_iso db_run emit bind];
  hub_fields;
  repeat match goal with
         | |- context [if ?b then _ else _] => destruct b
         end;
  hub_fields; lia.

Ltac draws :=
  repeat first
    [ apply draws_bind; [|intros ?]
    | apply draws_mapM; intros ?
    | apply draws_forEach; intros ?
    | match goal with
      | |- draws_on (match ?x with _ => _ end) => destruct x
      | |- draws_on (if ?x then _ else _) => destruct x
      end
    | apply draws_ret
    | apply draws_gets
    | draws_base ].

Lemma draws_join rt r a n c : draws_on (join rt r a n c).
Proof.
  unfold join, getRoom, setupFileWatcher, push_message_if_any, push_message. draws.
Qed.

Lemma draws_leave rt a : draws_on (leave rt a).
Proof. unfold leave, push_message_if_any, push_message. draws. Qed.

Lemma draws_send rt a c m : draws_on (send rt a c m).
Proof.
  unfold send, notify_mentions, createNotifications, build_notification,
    deliver_notification, findAgentByName, push_message_if_any, push_message.
  draws.
Qed.

Lemma draws_broadcast rt r c f : draws_on (broadcast rt r c f).
Proof. unfold broadcast, push_message_if_any, push_message. draws. Qed.

Lemma draws_storeMemory rt a k v t e : draws_on (storeMemory rt a k v t e).
Proof. unfold storeMemory. draws. Qed.

Lemma draws_getMemory rt a k t : draws_on (getMemory rt a k t).
Proof. unfold getMemory. draws. Qed.

Lemma draws_markNotificationRead n : draws_on (markNotificationRead n).
Proof.
  unfold markNotificationRead. draws.
  intros st. cbv [bind ret]. destruct (Sql.update_notification_read n (db st)).
  hub_fields. lia.
Qed.

Lemma draws_register s a : draws_on (register s a).
Proof. unfold register. draws. Qed.

Lemma draws_file_event rt r a p : draws_on (file_event rt r a p).
Proof. unfold file_event, push_message_if_any, push_message. draws. Qed.

Lemma draws_loadDataFromDatabase : draws_on loadDataFromDatabase.
Proof. unfold loadDataFromDatabase. draws. Qed.

(** Only [getRoom] writes to the table of rooms. *)
Lemma leave_keeps_rooms_table rt a : keeps rooms_table (leave rt a).
Proof. unfold leave, push_message_if_any, push_message. frame_cases. Qed.

Lemma send_keeps_rooms_table rt a c m : keeps rooms_table (send rt a c m).
Proof.
  unfold send, notify_mentions, createNotifications, build_notification,
    deliver_notification, findAgentByName, push_message_if_any, push_message.
  frame_cases.
Qed.

Lemma broadcast_keeps_rooms_table rt r c f : keeps rooms_table (broadcast rt r c f).
Proof. unfold broadcast, push_message_if_any, push_message. frame_cases. Qed.

Lemma storeMemory_keeps_rooms_table rt a k v t e :
  keeps rooms_table (storeMemory rt a k v t e).
Proof. unfold storeMemory. frame_cases. Qed.

Lemma getMemory_keeps_rooms_table rt a k t : keeps rooms_table (getMemory rt a k t).
Proof. unfold getMemory. frame_cases. Qed.

Lemma markNotificationRead_keeps_rooms_table n :
  keeps rooms_table (markNotificationRead n).
Proof. unfold markNotificationRead. frame_cases. Qed.

Lemma register_keeps_rooms_table s a : keeps rooms_table (register s a).
Proof. unfold register. frame_cases. Qed.

Lemma file_event_keeps_rooms_table rt r a p :
  keeps rooms_table (file_event rt r a p).
Proof. unfold file_event, push_message_if_any, push_message. frame_cases. Qed.

Lemma loadDataFromDatabase_keeps_rooms_table : keeps rooms_table loadDataFromDatabase.
Proof. unfold loadDataFromDatabase. frame_cases. Qed.

(** Only [getRoom] and the start-up give a room its creation time. *)
Lemma send_keeps_room_dates rt a c m : keeps room_dates (send rt a c m).
Proof.
  unfold send, notify_mentions, createNotifications, build_notification,
    deliver_notification, findAgentByName, push_message_if_any, push_message.
  frame_cases.
Qed.

Lemma broadcast_keeps_room_dates rt r c f : keeps room_dates (broadcast rt r c f).
Proof. unfold broadcast, push_message_if_any, push_message. frame_cases. Qed.

Lemma storeMemory_keeps_room_dates rt a k v t e :
  keeps room_dates (storeMemory rt a k v t e).
Proof. unfold storeMemory. frame_cases. Qed.

Lemma getMemory_keeps_room_dates rt a k t : keeps room_dates (getMemory rt a k t).
Proof. unfold getMemory. frame_cases. Qed.

Lemma markNotificationRead_keeps_room_dates n :
  keeps room_dates (markNotificationRead n).
Proof. unfold markNotificationRead. frame_cases. Qed.

Lemma register_keeps_room_dates s a : keeps room_dates (register s a).
Proof. unfold register. frame_cases. Qed.

Lemma file_event_keeps_room_dates rt r a p :
  keeps room_dates (file_event rt r a p).
Proof. unfold file_event, push_message_if_any, push_message. frame_cases. Qed.

Lemma dates_set_same (R : JsMap.t Room) r room room' :
  JsMap.get R r = Some room -> room_createdAt room' = room_createdAt room ->
  map (fun entry : string * Room => (fst entry, room_createdAt (snd entry)))
      (JsMap.set R r room')
  = map (fun entry : string * Room => (fst entry, room_createdAt (snd entry))) R.
Proof.
  intros Hg Hd. induction R as [|[k v] R IH]; simpl in *; [discriminate|].
  destruct (String.eqb k r) eqn:E; simpl.
  - injection Hg as ->. now rewrite Hd.
  - now rewrite IH.
Qed.

Lemma dates_set_new (R : JsMap.t Room) r room :
  JsMap.get R r = None ->
  map (fun entry : string * Room => (fst entry, room_createdAt (snd entry)))
      (JsMap.set R r room)
  = map (fun entry : string * Room => (fst entry, room_createdAt (snd entry))) R
    ++ [(r, room_createdAt room)].
Proof.
  intros Hg. rewrite (JsMap_set_fresh _ _ _ Hg). now rewrite map_app.
Qed.

Lemma leave_keeps_room_dates rt a : keeps room_dates (leave rt a).
Proof.
  intros st. unfold leave, room_dates. hub_step.
  destruct (JsMap.get (agents st) a) as [agent|]; [|reflexivity].
  destruct (JsMap.get (rooms st) (agent_room agent)) as [room|] eqn:Er;
    [|reflexivity].
  destruct (JsMap.get (messages st) (agent_room agent)) as [log|];
    hub_fields; now apply (dates_set_same _ _ room).
Qed.

Lemma join_rooms rt r a n c st :
  logged (rooms st) (messages st) ->
  (JsMap.has (rooms st) r = true
   /\ rooms_table (snd (join rt r a n c st)) = rooms_table st
   /\ room_dates (snd (join rt r a n c st)) = room_dates st)
  \/ (JsMap.has (rooms st) r = false
      /\ exists created,
           rooms_table (snd (join rt r a n c st))
           = filter (fun x => negb (String.eqb (rr_id x) (uuid_of rt (uuid_draws st))
                                    || String.eqb (rr_name x) r))
                    (rooms_table st)
             ++ [{| rr_id := uuid_of rt (uuid_draws st); rr_name := r;
                    rr_created_at := created; rr_is_active := 1;
                    rr_settings := "{}" |}]
           /\ room_dates (snd (join rt r a n c st)) = room_dates st ++ [(r, created)]
           /\ (uuid_draws st < uuid_draws (snd (join rt r a n c st)))%nat).
Proof.
  intros Hl. unfold join, getRoom, setupFileWatcher, rooms_table, room_dates. hub_step.
  destruct (JsMap.has (rooms st) r) eqn:Hk.
  - left. split; [reflexivity|].
    destruct (JsMapFacts.has_get _ _ Hk) as [room Er]. rewrite Er.
    destruct (JsMapFacts.has_get _ _ (Hl _ Hk)) as [log El]. rewrite El.
    hub_fields. split; [reflexivity|].
    now apply (dates_set_same _ _ room).
  - right. split; [reflexivity|].
    assert (Er : JsMap.get (rooms st) r = None).
    { unfold JsMap.has in Hk. destruct (JsMap.get (rooms st) r); [discriminate|auto]. }
    exists (Time.toISOString (clock_ms rt (clock_reads st))).
    destruct (existsb (String.eqb r) (fileWatcher st)); hub_fields;
      repeat (rewrite JsMapFacts.get_set_same; hub_fields);
      (split; [reflexivity|]); (split; [|lia]);
      rewrite (dates_set_same _ r
                 {| room_name := r; room_agents := JsSet.empty;
                    room_createdAt := Time.toISOString (clock_ms rt (clock_reads st));
                    room_isActive := true; room_settings := "{}" |})
        by (try apply JsMapFacts.get_set_same; reflexivity);
      now apply dates_set_new.
Qed.

Lemma room_dates_get st name created :
  In (name, created) (room_dates st) -> JsMap.has (rooms st) name = true.
Proof.
  unfold room_dates, JsMap.has. intros H.
  apply in_map_iff in H as ([k v] & [= <- <-] & Hin). simpl.
  induction (rooms st) as [|[k0 v0] R IH]; simpl in *; [destruct Hin|].
  destruct (String.eqb k0 k) eqn:E; auto.
  destruct Hin as [[= -> ->]|Hin]; [now rewrite String.eqb_refl in E|auto].
Qed.

Lemma get_room_dates st name room :
  JsMap.get (rooms st) name = Some room ->
  In (name, room_createdAt room) (room_dates st).
Proof.
  intros H. apply JsMapFacts.get_In in H. unfold room_dates.
  apply in_map_iff. exists (name, room). auto.
Qed.

Lemma NoDup_map_filter {A B} (f : A -> B) (p : A -> bool) l :
  NoDup (map f l) -> NoDup (map f (filter p l)).
Proof.
  induction l as [|x l IH]; simpl; intros H; auto.
  inversion H as [|? ? Hx Hl]; subst.
  destruct (p x); simpl; auto. constructor; auto.
  intros Hin. apply Hx. apply in_map_iff in Hin as (y & <- & Hy).
  apply filter_In in Hy as [Hy _]. now apply in_map.
Qed.

Lemma rooms_stored_ext rt st st' :
  rooms_table st' = rooms_table st -> room_dates st' = room_dates st ->
  (uuid_draws st <= uuid_draws st')%nat ->
  rooms_stored rt st -> rooms_stored rt st'.
Proof.
  intros Ht Hd Hu (Ha & Hb & Hc). unfold rooms_stored. rewrite Ht, Hd.
  split; [exact Ha|]. split; [exact Hb|].
  intros row Hin. destruct (Hc row Hin) as (i & Hi & E). exists i. split; [lia|exact E].
Qed.

Lemma rooms_stored_join rt r a n c st :
  unique_ids rt -> logged (rooms st) (messages st) ->
  rooms_stored rt st -> rooms_stored rt (snd (join rt r a n c st)).
Proof.
  intros Hu Hl Hs.
  destruct (join_rooms rt r a n c st Hl)
    as [(_ & Ht & Hd)|(Hk & created & Ht & Hd & Hlt)].
  - eapply rooms_stored_ext; eauto. apply draws_join.
  - destruct Hs as (Ha & Hb & Hc). unfold rooms_stored. rewrite Ht, Hd.
    split; [|split].
    + intros name cr Hin. apply in_app_or in Hin as [Hin|[[= <- <-]|[]]].
      * destruct (Ha _ _ Hin) as (row & Hrow & Hn & Hcr & Hact).
        exists row. split; [|auto]. apply in_or_app. left.
        apply filter_In. split; [exact Hrow|].
        apply negb_true_iff, orb_false_iff. split.
        -- apply String.eqb_neq. intros E.
           destruct (Hc _ Hrow) as (i & Hi & Ei). rewrite Ei in E.
           apply Hu in E. lia.
        -- apply String.eqb_neq. intros E. rewrite Hn in E. subst name.
           apply room_dates_get in Hin. congruence.
      * eexists. split; [apply in_or_app; right; left; reflexivity|]. auto.
    + rewrite map_app. simpl. apply NoDup_app.
      * now apply NoDup_map_filter.
      * repeat constructor. intros [].
      * intros x Hx [<-|[]]. apply in_map_iff in Hx as (row & Hn & Hrow).
        apply filter_In in Hrow as [_ Hp].
        apply negb_true_iff, orb_false_iff in Hp as [_ Hp].
        apply String.eqb_neq in Hp. contradiction.
    + intros row Hin. apply in_app_or in Hin as [Hin|[<-|[]]].
      * apply filter_In in Hin as [Hin _].
        destruct (Hc _ Hin) as (i & Hi & Ei). exists i. split; [lia|exact Ei].
      * exists (uuid_draws st). split; [exact Hlt|reflexivity].
Qed.

Lemma loaded_dates rows :
  forall st name created,
    In (name, created) (room_dates (snd (forEach load_row rows st))) ->
    In (name, created) (room_dates st)
    \/ exists row, In row rows /\ rr_name row = name /\ rr_created_at row = created.
Proof.
  induction rows as [|row rows IH]; intros st name created; simpl; auto.
  unfold load_row at 1. hub_step. intros Hin.
  apply IH in Hin as [Hin|(row' & Hr & Hn & Hc)]; [|right; eauto].
  unfold room_dates in Hin |- *. hub_fields.
  apply in_map_iff in Hin as ([k v] & [= <- <-] & Hin).
  apply JsMapFacts.In_set in Hin as [[= -> ->]|Hin].
  - right. exists row. auto.
  - left. apply in_map_iff. exists (k, v). auto.
Qed.

Lemma loaded_other rows :
  forall st name,
    ~ In name (map rr_name rows) ->
    JsMap.get (rooms (snd (forEach load_row rows st))) name = JsMap.get (rooms st) name.
Proof.
  induction rows as [|row rows IH]; intros st name Hout; simpl; auto.
  unfold load_row at 1. hub_step. rewrite IH by (simpl in Hout; intuition).
  hub_fields. apply JsMapFacts.get_set_other. simpl in Hout. intuition.
Qed.

Lemma loaded_get rows :
  forall st row,
    NoDup (map rr_name rows) -> In row rows ->
    JsMap.get (rooms (snd (forEach load_row rows st))) (rr_name row)
    = Some (room_of_row row).
Proof.
  induction rows as [|x rows IH]; intros st row Hn Hin; simpl; [destruct Hin|].
  inversion Hn as [|? ? Hx Hrest]; subst.
  unfold load_row at 1. hub_step. destruct Hin as [->|Hin].
  - rewrite loaded_other by assumption. hub_fields. apply JsMapFacts.get_set_same.
  - now apply IH.
Qed.

Lemma loadDataFromDatabase_rows st :
  loadDataFromDatabase st = forEach load_row (Sql.select_active_rooms (db st)) st.
Proof. reflexivity. Qed.

Lemma rooms_stored_restart rt st : rooms_stored rt st -> rooms_stored rt (restart st).
Proof.
  intros (Ha & Hb & Hc). unfold rooms_stored, restart.
  pose proof (loadDataFromDatabase_keeps_rooms_table
                (fresh_process (db st) (emitted st) (uuid_draws st) (clock_reads st)))
    as E.
  change (rooms_table (fresh_process (db st) (emitted st) (uuid_draws st) (clock_reads st)))
    with (rooms_table st) in E.
  split; [|split].
  - intros name created Hin. rewrite E. rewrite loadDataFromDatabase_rows in Hin.
    apply loaded_dates in Hin as [[]|(row & Hrow & Hn & Hcr)].
    cbn [db fresh_process] in Hrow. apply filter_In in Hrow as [Hrow Hact].
    exists row. split; [exact Hrow|]. split; [exact Hn|]. split; [exact Hcr|].
    now apply Z.eqb_eq.
  - rewrite E. exact Hb.
  - intros row Hin. rewrite E in Hin.
    destruct (Hc row Hin) as (i & Hi & Ei). exists i. split; [|exact Ei].
    pose proof (draws_loadDataFromDatabase
                  (fresh_process (db st) (emitted st) (uuid_draws st) (clock_reads st))) as H.
    cbn [uuid_draws fresh_process] in H. lia.
Qed.

Lemma rooms_stored_apply_op rt op st :
  unique_ids rt -> hub_inv st -> rooms_stored rt st -> rooms_stored rt (apply_op rt op st).
Proof.
  intros Hu [_ Hl] Hs. destruct op; cbn [apply_op].
  - now apply rooms_stored_join.
  - apply (rooms_stored_ext rt st);
      [apply leave_keeps_rooms_table|apply leave_keeps_room_dates|apply draws_leave|exact Hs].
  - apply (rooms_stored_ext rt st);
      [apply send_keeps_rooms_table|apply send_keeps_room_dates|apply draws_send|exact Hs].
  - apply (rooms_stored_ext rt st);
      [apply broadcast_keeps_rooms_table|apply broadcast_keeps_room_dates|apply draws_broadcast|exact Hs].
  - apply (rooms_stored_ext rt st);
      [apply storeMemory_keeps_rooms_table|apply storeMemory_keeps_room_dates|apply draws_storeMemory|exact Hs].
  - apply (rooms_stored_ext rt st);
      [apply getMemory_keeps_rooms_table|apply getMemory_keeps_room_dates|apply draws_getMemory|exact Hs].
  - apply (rooms_stored_ext rt st);
      [apply markNotificationRead_keeps_rooms_table|apply markNotificationRead_keeps_room_dates|apply draws_markNotificationRead|exact Hs].
  - apply (rooms_stored_ext rt st);
      [apply register_keeps_rooms_table|apply register_keeps_room_dates|apply draws_register|exact Hs].
  - apply (rooms_stored_ext rt st);
      [apply file_event_keeps_rooms_table|apply file_event_keeps_room_dates|apply draws_file_event|exact Hs].
  - now apply rooms_stored_restart.
Qed.

Lemma rooms_stored_run rt ops : unique_ids rt -> rooms_stored rt (run rt ops).
Proof.
  intros Hu. unfold run.
  assert (H0 : hub_inv boot /\ rooms_stored rt boot).
  { split; [apply hub_inv_boot|].
    split; [intros ? ? []|]. split; [constructor|intros ? []]. }
  revert H0. generalize boot as st.
  induction ops as [|op ops IH]; intros st [Hi Hs]; simpl; auto.
  apply IH. split; [now apply hub_inv_apply_op|now apply rooms_stored_apply_op].
Qed.

(** X28.  When the identifiers drawn are distinct, every room the hub
    has, after whatever requests, is there again after a restart, under
    the same name and with the same creation time; it comes back with
    no agents and an empty message list. *)
Theorem rooms_survive_restart rt ops name room :
  unique_ids rt ->
  JsMap.get (rooms (run rt ops)) name = Some room ->
  exists room',
    JsMap.get (rooms (restart (run rt ops))) name = Some room'
    /\ room_name room' = name
    /\ room_createdAt room' = room_createdAt room
    /\ room_agents room' = JsSet.empty
    /\ JsMap.get (messages (restart (run rt ops))) name = Some [].
Proof.
  intros Hu Hg.
  destruct (rooms_stored_run rt ops Hu) as (Ha & Hb & _).
  destruct (Ha _ _ (get_room_dates _ _ _ Hg)) as (row & Hrow & Hn & Hcr & Hact).
  assert (Hsel : In row (Sql.select_active_rooms (db (run rt ops)))).
  { apply filter_In. split; [exact Hrow|now apply Z.eqb_eq]. }
  assert (Hget : JsMap.get (rooms (restart (run rt ops))) name = Some (room_of_row row)).
  { unfold restart. rewrite loadDataFromDatabase_rows. rewrite <- Hn.
    apply loaded_get; [|exact Hsel].
    apply NoDup_map_filter. exact Hb. }
  exists (room_of_row row). split; [exact Hget|].
  split; [exact Hn|]. split; [exact Hcr|]. split; [reflexivity|].
  destruct (hub_inv_restart (run rt ops)) as [_ Hl].
  destruct (JsMapFacts.has_get _ _ (Hl _ (JsMapFacts.get_has _ _ _ Hget))) as [l El].
  rewrite El. f_equal.
  unfold restart, loadDataFromDatabase in El. hub_step.
  apply loaded_lists_empty in El; [exact El|intros ? ? [=]].
Qed.

Lemma tally_unique : unique_ids tally_rt.
Proof.
  intros i j E. simpl in E.
  apply (f_equal list_ascii_of_string) in E.
  rewrite !list_ascii_of_string_of_list_ascii in E.
  apply (f_equal (@List.length ascii)) in E. now rewrite !repeat_length in E.
Qed.

Lemma rooms_survive_restart_witness :
  unique_ids tally_rt
  /\ JsMap.get (rooms (run tally_rt lab_hello)) "lab"
     = Some {| room_name := "lab"; room_agents := ["a1"; "a2"];
               room_createdAt := "2026-11-02T08:18:00.000Z";
               room_isActive := true; room_settings := "{}" |}
  /\ exists room',
       JsMap.get (rooms (restart (run tally_rt lab_hello))) "lab" = Some room'
       /\ room_name room' = "lab"
       /\ room_createdAt room' = "2026-11-02T08:18:00.000Z"
       /\ room_agents room' = JsSet.empty
       /\ JsMap.get (messages (restart (run tally_rt lab_hello))) "lab" = Some [].
Proof.
  split; [exact tally_unique|]. split; [vm_compute; reflexivity|].
  apply (rooms_survive_restart tally_rt lab_hello "lab"
           {| room_name := "lab"; room_agents := ["a1"; "a2"];
              room_createdAt := "2026-11-02T08:18:00.000Z";
              room_isActive := true; room_settings := "{}" |}).
  - exact tally_unique.
  - vm_compute; reflexivity.
Defined.

(** * Notifications on their way to the agent *)

Lemma build_types rt message l :
  forall st,
    Forall (fun n => ntf_type n = "mention")
           (kept (fst (mapM (build_notification rt message) l st))).
Proof.
  induction l as [|name l IH]; intros st.
  - simpl. constructor.
  - simpl. unfold build_notification at 1, findAgentByName. hub_step.
    match goal with
    | |- context [mapM ?f l ?s] =>
        pose proof (IH s) as Ht; destruct (mapM f l s) as [built s']
    end.
    hub_fields. simpl.
    destruct (find _ _) as [a|]; auto.
    destruct (truthy (agent_id a)); auto. simpl. constructor; auto.
Qed.

Lemma deliver_one n st :
  agents (snd (deliver_notification n st)) = agents st
  /\ emitted (snd (deliver_notification n st))
     = emitted st
       ++ match JsMap.get (agents st) (ntf_agent_id n) with
          | Some a =>
              match agent_socketId a with
              | Some sock => if truthy sock then [EmitNotification sock n] else []
              | None => []
              end
          | None => []
          end.
Proof.
  unfold deliver_notification. hub_step.
  destruct (JsMap.get (agents st) (ntf_agent_id n)) as [a|];
    [destruct (agent_socketId a) as [sock|]; [destruct (truthy sock)|]|];
    hub_fields; rewrite ?app_nil_r; auto.
Qed.

Lemma deliver_emits ns :
  forall st,
    agents (snd (forEach deliver_notification ns st)) = agents st
    /\ emitted (snd (forEach deliver_notification ns st))
       = emitted st
         ++ flat_map
              (fun n =>
                 match JsMap.get (agents st) (ntf_agent_id n) with
                 | Some a =>
                     match agent_socketId a with
                     | Some sock =>
                         if truthy sock then [EmitNotification sock n] else []
                     | None => []
                     end
                 | None => []
                 end) ns.
Proof.
  induction ns as [|n ns IH]; intros st.
  - simpl. now rewrite app_nil_r.
  - cbn [forEach flat_map]. unfold bind.
    destruct (deliver_one n st) as [Ha He].
    destruct (deliver_notification n st) as [u s1]. cbn [snd] in Ha, He.
    destruct (IH s1) as [Ha' He']. rewrite Ha', He', Ha, He.
    split; [reflexivity|]. now rewrite <- app_assoc.
Qed.

Lemma build_keeps_emitted rt message l :
  keeps emitted (mapM (build_notification rt message) l).
Proof. unfold build_notification, findAgentByName. frame. Qed.

(** X29.  [createNotifications] looks every mention up by name among
    all registered agents, whatever their room.  It returns one
    notification of type "mention", with the room of the message, for
    each mention that resolves; each is written to the table, and is
    pushed on a socket exactly when its recipient has registered one:
    a recipient without a socket gets the row only. *)
Theorem createNotifications_pushes rt message mentions st :
  map ntf_agent_id (fst (createNotifications rt message mentions st))
  = kept (map (recipient_of (agents st)) mentions)
  /\ Forall (fun n => ntf_type n = "mention" /\ ntf_room n = msg_room message)
            (fst (createNotifications rt message mentions st))
  /\ tbl_notifications (db (snd (createNotifications rt message mentions st)))
     = tbl_notifications (db st)
       ++ map notification_row (fst (createNotifications rt message mentions st))
  /\ (forall sock n,
        In (EmitNotification sock n)
           (emitted (snd (createNotifications rt message mentions st)))
        <-> In (EmitNotification sock n) (emitted st)
            \/ (In n (fst (createNotifications rt message mentions st))
                /\ sock <> ""
                /\ exists a, JsMap.get (agents st) (ntf_agent_id n) = Some a
                             /\ agent_socketId a = Some sock)).
Proof.
  unfold createNotifications. cbv [bind ret].
  destruct (build_notifications rt message mentions st) as (Ha & Hd & Hm & Hr).
  pose proof (build_types rt message mentions st) as Ht.
  pose proof (build_keeps_emitted rt message mentions st) as He1.
  destruct (mapM (build_notification rt message) mentions st) as [built s1].
  simpl in Ha, Hd, Hm, Hr, Ht, He1.
  pose proof (deliver_notifications (kept built) s1) as Hrows.
  destruct (deliver_emits (kept built) s1) as [_ Hemit].
  destruct (forEach deliver_notification (kept built) s1) as [u s2].
  simpl in Hrows, Hemit |- *. rewrite Hd in Hrows. rewrite Ha, He1 in Hemit.
  split; [|split; [|split; [exact Hrows|]]].
  - rewrite <- Hm. apply kept_map.
  - rewrite Forall_forall in *. intros n Hn. split; auto.
  - intros sock n. rewrite Hemit, in_app_iff, in_flat_map. split.
    + intros [H|(x & Hx & Hin)]; [now left|right].
      destruct (JsMap.get (agents st) (ntf_agent_id x)) as [a|] eqn:Ea; [|destruct Hin].
      destruct (agent_socketId a) as [s|] eqn:Es; [|destruct Hin].
      destruct (truthy s) eqn:E; [|destruct Hin].
      destruct Hin as [[= <- <-]|[]]. split; [exact Hx|]. split.
      * intros ->. discriminate.
      * exists a. auto.
    + intros [H|(Hn & Hs & a & Ea & Es)]; [now left|right].
      exists n. split; [exact Hn|]. rewrite Ea, Es.
      apply String.eqb_neq in Hs. unfold truthy. rewrite Hs. now left.
Qed.

Module AdapterInbox.
Import Adapter.

(** X30.  A notification the hub pushes is filed by the adapter under
    the hub's own id and type: the identifier the adapter draws for it
    and the type "system" it writes first are overwritten by the fields
    of the hub's object.  So a list asked for by a type other than the
    hub's, "system" for one, does not show it, and
    [markNotificationRead] finds it under the hub's id. *)
Theorem pushed_notification_filed env n st :
  exists note,
    notifications (on_notification env n st) = notifications st ++ [note]
    /\ note_id note = ntf_id n
    /\ note_type note = ntf_type n
    /\ note_about note = Pushed n
    /\ note_read note = false
    /\ uuid_drawn (on_notification env n st) = S (uuid_drawn st)
    /\ (forall type, ntf_type n <> type ->
          filter (fun x => String.eqb (note_type x) type)
                 (notifications (on_notification env n st))
          = filter (fun x => String.eqb (note_type x) type) (notifications st))
    /\ fst (markNotificationRead (ntf_id n) (on_notification env n st))
       = Return (ntf_id n).
Proof.
  unfold on_notification. cbn [notifications uuid_drawn].
  eexists. split; [reflexivity|]. cbn [note_id note_type note_about note_read].
  repeat split.
  - intros type Hne. rewrite filter_app. simpl.
    apply String.eqb_neq in Hne. rewrite Hne. apply app_nil_r.
  - unfold markNotificationRead. cbn [notifications].
    destruct (AdapterFacts.mark_first_known (ntf_id n)
                (notifications st
                 ++ [{| note_id := ntf_id n; note_type := ntf_type n;
                        note_about := Pushed n;
                        note_timestamp :=
                          Time.toISOString (clock_ms (runtime env) (clock_looks st));
                        note_read := false |}])) as (l & ->); [|reflexivity].
    rewrite map_app. apply in_or_app. right. now left.
Qed.

End AdapterInbox.
